(** * A peer of the P2P file-sharing engine, embedded in Rocq

    The C++ classes [FileManager], [UDPServer], [TCPServer] and [Peer] are
    translated function by function.  Every member function becomes a
    computation in a small state-and-failure monad over a [World]: the file
    system, the fields of the three objects and the trace of what the peer
    did (console lines, datagrams, stream blocks, sleeps).  A handler runs
    from its first to its last statement without interleaving; the locks of
    the source are represented by the maps that hold them, nothing more. *)

From Stdlib Require Import ZArith String Ascii List Lia DecimalString Sorted.
From Stdlib Require DecimalPos.
From stdpp Require Import gmap strings list sorting.

Open Scope Z_scope.

(* ===================================================================== *)
(** * Machine integers, strings and bytes *)
(* ===================================================================== *)

Definition INT_MIN : Z := - 2 ^ 31.
Definition INT_MAX : Z := 2 ^ 31 - 1.
Definition is_int (z : Z) : Prop := INT_MIN <= z <= INT_MAX.

(** Conversion of an integer value to [int] (32 bits, two's complement) and
    to [size_t] (64 bits, unsigned). *)
Definition to_int (z : Z) : Z := (z + 2 ^ 31) mod 2 ^ 32 - 2 ^ 31.
Definition to_size_t (z : Z) : Z := z mod 2 ^ 64.

(** [std::to_string] on an [int]. *)
Definition to_string (z : Z) : string := NilZero.string_of_int (Z.to_int z).

Abbreviation bytes := (list ascii).
Definition NUL : ascii := Ascii.zero.

Definition is_space (c : ascii) : bool :=
  let n := nat_of_ascii c in
  ((n =? 32) || ((9 <=? n) && (n <=? 13)))%nat.

Definition digit_of (c : ascii) : option Z :=
  let n := nat_of_ascii c in
  if ((48 <=? n) && (n <=? 57))%nat then Some (Z.of_nat n - 48) else None.

Fixpoint skip_spaces (cs : bytes) : bytes :=
  match cs with
  | c :: r => if is_space c then skip_spaces r else cs
  | [] => []
  end.

(** The longest prefix of decimal digits, its value on top of [acc] and what
    follows it. *)
Fixpoint read_digits (acc : Z) (n : nat) (cs : bytes) : Z * nat * bytes :=
  match cs with
  | c :: r =>
      match digit_of c with
      | Some d => read_digits (10 * acc + d) (S n) r
      | None => (acc, n, cs)
      end
  | [] => (acc, n, [])
  end.

Definition read_sign (cs : bytes) : bool * bytes :=
  match cs with
  | c :: r =>
      if Ascii.eqb c "-" then (true, r)
      else if Ascii.eqb c "+" then (false, r)
      else (false, cs)
  | [] => (false, [])
  end.

(** [std::stoi]: leading white space, an optional sign, then digits up to the
    first other character.  [None] stands for the exception it throws when
    there is no digit ([invalid_argument]) or the value does not fit an
    [int] ([out_of_range]). *)
Definition stoi (s : string) : option Z :=
  let '(neg, cs) := read_sign (skip_spaces (list_ascii_of_string s)) in
  let '(v, n, _) := read_digits 0 0 cs in
  let v := if neg then - v else v in
  if (n =? 0)%nat then None
  else if (INT_MIN <=? v) && (v <=? INT_MAX) then Some v
  else None.

(** [s.find(':')]. *)
Definition find_colon (s : string) : option nat := index 0 ":" s.

(** [s.substr(pos)] for [pos <= s.size()]. *)
Definition substr_from (pos : nat) (s : string) : string :=
  substring pos (String.length s - pos) s.

(** ** [operator[]] of [std::map] and [std::unordered_map]

    Reading [m[k]] when [k] has no entry creates one, holding the default
    value of the mapped type.  [subscript] returns the value read and the map
    as the read leaves it. *)
Definition subscript {V : Type} (dflt : V) (m : gmap string V) (k : string)
  : V * gmap string V :=
  match m !! k with
  | Some v => (v, m)
  | None => (dflt, <[k := dflt]> m)
  end.

(** Iteration over a [std::set<int>] goes in increasing order. *)
Definition set_in_order (s : gset Z) : list Z := merge_sort Z.le (elements s).

(* ===================================================================== *)
(** * Input streams *)
(* ===================================================================== *)

(** An [std::istream] over the characters still to be read, with the two
    state bits the extractions of the source depend on. *)
Record istream := {
  pending : bytes;
  eofbit : bool;
  failbit : bool
}.

Definition good (s : istream) : bool := negb (eofbit s) && negb (failbit s).

Definition set_failbit (s : istream) : istream :=
  {| pending := pending s; eofbit := eofbit s; failbit := true |}.

Fixpoint until_newline (cs : bytes) : bytes * option bytes :=
  match cs with
  | [] => ([], None)
  | c :: r =>
      if Ascii.eqb c "010" then ([], Some r)
      else let '(line, rest) := until_newline r in (c :: line, rest)
  end.

(** [std::getline(s, str)]: the characters up to the next newline, which is
    consumed and not stored.  End of input sets [eofbit]; extracting nothing
    at all sets [failbit].  On a stream that is not [good] the string is left
    as it was. *)
Definition getline (s : istream) (str : string) : string * istream :=
  if good s then
    match until_newline (pending s) with
    | (line, Some rest) =>
        (string_of_list_ascii line,
         {| pending := rest; eofbit := false; failbit := false |})
    | (line, None) =>
        (string_of_list_ascii line,
         {| pending := []; eofbit := true;
            failbit := match line with [] => true | _ => false end |})
    end
  else (str, set_failbit s).

(** [s >> v] for an [int v]: white space is skipped, then an optional sign
    and digits are read.  When the stream is not [good], or ends before any
    other character, [v] keeps the value it had.  When no digit is found the
    value stored is 0; a value out of range is clamped; both set [failbit].
    Reading digits up to the end of the input sets [eofbit]. *)
Definition extract_int (s : istream) (v : Z) : Z * istream :=
  if good s then
    match skip_spaces (pending s) with
    | [] => (v, {| pending := []; eofbit := true; failbit := true |})
    | cs =>
        let '(neg, cs1) := read_sign cs in
        let '(n, count, cs2) := read_digits 0 0 cs1 in
        let at_end := match cs2 with [] => true | _ => false end in
        let n := if neg then - n else n in
        if (count =? 0)%nat then
          (0, {| pending := cs2; eofbit := at_end; failbit := true |})
        else if n <? INT_MIN then
          (INT_MIN, {| pending := cs2; eofbit := at_end; failbit := true |})
        else if INT_MAX <? n then
          (INT_MAX, {| pending := cs2; eofbit := at_end; failbit := true |})
        else
          (n, {| pending := cs2; eofbit := at_end; failbit := false |})
    end
  else (v, set_failbit s).

(* ===================================================================== *)
(** * The world a peer runs in *)
(* ===================================================================== *)

Inductive LogType :=
| DISCOVERY_RECEIVED | DISCOVERY_SENT | RESPONSE_RECEIVED | RESPONSE_SENT
| REQUEST_RECEIVED | REQUEST_SENT | CHUNK_RECEIVED | CHUNK_SENT
| SUCCESS | INFO | ERROR | OTHER.

(** What a peer does that can be seen from outside, in the order it does it. *)
Inductive Event :=
| EvLog (type : LogType) (message : string)   (* logMessage *)
| EvPerror (message : string)                 (* perror *)
| EvSuccess (file_name peer_id : string)      (* displaySuccessMessage *)
| EvSendto (ip : string) (port : Z) (message : string)  (* a datagram *)
| EvTcpSend (block : bytes)                   (* one send on a stream *)
| EvSleep (seconds : Z).                      (* sleep_for *)

(** The files of the machine.  A path can be opened for reading when it has
    contents here, and for writing unless it is listed in [no_write]
    (a directory of that name, a missing parent, a permission). *)
Record FileSystem := {
  contents : gmap string bytes;
  no_write : gset string
}.

Record ChunkLocationInfo := {
  ip : string;
  port : Z;
  transfer_speed : Z
}.

Record PeerInfo := {
  peer_ip : string;
  peer_port : Z
}.

(** The data members of [FileManager].  A map of mutexes is represented by
    the set of its keys. *)
Record FileManagerState := {
  peer_id : string;
  directory : string;
  local_chunks : gmap string (gset Z);
  local_chunks_mutex : gset string;
  file_chunks : gmap string Z;
  chunk_location_info : gmap string (list (list ChunkLocationInfo));
  chunk_location_info_mutex : gset string
}.

Record World := {
  fs : FileSystem;
  file_manager : FileManagerState;
  processing_active_map : gmap string bool;   (* of UDPServer *)
  trace : list Event
}.

(** What the surroundings of the program decide: the constant members of the
    servers, the order [std::sort] leaves elements in, whether a datagram or
    a connection goes through, and the values that locals read before being
    written happen to hold. *)
Record Env := {
  self_ip : string;
  self_port : Z;            (* the UDP port *)
  self_tcp_port : Z;
  self_id : Z;
  self_transfer_speed : Z;
  udpNeighbors : list (string * Z);
  std_sort : list ChunkLocationInfo -> list ChunkLocationInfo;
  sendto_ok : string -> Z -> string -> bool;
  socket_ok : bool;
  connect_ok : string -> Z -> bool;
  indeterminate_total_chunks : Z;
  indeterminate_initial_ttl : Z
}.

(** ** Computations *)

Definition M (A : Type) : Type := World -> option (A * World).

Definition ret {A} (a : A) : M A := fun w => Some (a, w).
Definition bind {A B} (c : M A) (k : A -> M B) : M B :=
  fun w => match c w with
           | Some (a, w') => k a w'
           | None => None
           end.
(** An uncaught exception, or behaviour the language leaves undefined: the
    thread has no result. *)
Definition throw {A} : M A := fun _ => None.

Notation "x <- c ;; k" := (bind c (fun x => k))
  (at level 100, c at next level, right associativity).
Notation "c ;;; k" := (bind c (fun _ => k))
  (at level 100, right associativity).

Definition get_fm : M FileManagerState := fun w => Some (file_manager w, w).
Definition put_fm (f : FileManagerState) : M unit := fun w =>
  Some (tt, {| fs := fs w; file_manager := f;
               processing_active_map := processing_active_map w;
               trace := trace w |}).
Definition get_fs : M FileSystem := fun w => Some (fs w, w).
Definition put_fs (f : FileSystem) : M unit := fun w =>
  Some (tt, {| fs := f; file_manager := file_manager w;
               processing_active_map := processing_active_map w;
               trace := trace w |}).
Definition get_active : M (gmap string bool) :=
  fun w => Some (processing_active_map w, w).
Definition put_active (m : gmap string bool) : M unit := fun w =>
  Some (tt, {| fs := fs w; file_manager := file_manager w;
               processing_active_map := m; trace := trace w |}).
(** The world after some more events. *)
Definition with_events (w : World) (es : list Event) : World :=
  {| fs := fs w; file_manager := file_manager w;
     processing_active_map := processing_active_map w;
     trace := trace w ++ es |}.
Definition emit (es : list Event) : M unit := fun w => Some (tt, with_events w es).

Definition logMessage (t : LogType) (message : string) : M unit :=
  emit [EvLog t message].

(** [for x in l] with a body in [M]. *)
Fixpoint for_each {A} (l : list A) (body : A -> M unit) : M unit :=
  match l with
  | [] => ret tt
  | x :: r => body x ;;; for_each r body
  end.

Module Constants.
Definition BASE_PATH : string := "./src/".
Definition DISCOVERY_MESSAGE_INTERVAL_SECONDS : Z := 1.
Definition SERVER_STARTUP_DELAY_SECONDS : Z := 5.
Definition RESPONSE_TIMEOUT_SECONDS : Z := 10.
Definition CONTROL_MESSAGE_MAX_SIZE : Z := 1024.
End Constants.

(* ===================================================================== *)
(** * FileManager *)
(* ===================================================================== *)

Module FileManager.

Definition with_local_chunks (f : FileManagerState) v : FileManagerState :=
  {| peer_id := peer_id f; directory := directory f;
     local_chunks := v; local_chunks_mutex := local_chunks_mutex f;
     file_chunks := file_chunks f;
     chunk_location_info := chunk_location_info f;
     chunk_location_info_mutex := chunk_location_info_mutex f |}.
Definition with_local_chunks_mutex (f : FileManagerState) v : FileManagerState :=
  {| peer_id := peer_id f; directory := directory f;
     local_chunks := local_chunks f; local_chunks_mutex := v;
     file_chunks := file_chunks f;
     chunk_location_info := chunk_location_info f;
     chunk_location_info_mutex := chunk_location_info_mutex f |}.
Definition with_file_chunks (f : FileManagerState) v : FileManagerState :=
  {| peer_id := peer_id f; directory := directory f;
     local_chunks := local_chunks f;
     local_chunks_mutex := local_chunks_mutex f;
     file_chunks := v;
     chunk_location_info := chunk_location_info f;
     chunk_location_info_mutex := chunk_location_info_mutex f |}.
Definition with_chunk_location_info (f : FileManagerState) v : FileManagerState :=
  {| peer_id := peer_id f; directory := directory f;
     local_chunks := local_chunks f;
     local_chunks_mutex := local_chunks_mutex f;
     file_chunks := file_chunks f;
     chunk_location_info := v;
     chunk_location_info_mutex := chunk_location_info_mutex f |}.
Definition with_chunk_location_info_mutex (f : FileManagerState) v : FileManagerState :=
  {| peer_id := peer_id f; directory := directory f;
     local_chunks := local_chunks f;
     local_chunks_mutex := local_chunks_mutex f;
     file_chunks := file_chunks f;
     chunk_location_info := chunk_location_info f;
     chunk_location_info_mutex := v |}.

(** [std::lock_guard file_lock(mutex_map[file_name])]: the subscript
    creates the mutex of a file that has none. *)
Definition lock_local_chunks (file_name : string) : M unit :=
  f <- get_fm ;;
  put_fm (with_local_chunks_mutex f ({[file_name]} ∪ local_chunks_mutex f)).
Definition lock_chunk_location_info (file_name : string) : M unit :=
  f <- get_fm ;;
  put_fm (with_chunk_location_info_mutex f
            ({[file_name]} ∪ chunk_location_info_mutex f)).

Definition metadata_path (file_name : string) : string :=
  Constants.BASE_PATH +:+ file_name +:+ ".p2p".

Definition loadMetadata (E : Env) (file_name : string) : M (string * Z * Z) :=
  fsys <- get_fs ;;
  match contents fsys !! metadata_path file_name with
  | None =>
      logMessage ERROR
        ("Erro ao abrir o arquivo de metadados para " +:+ file_name
         +:+ ". Verifique se o arquivo de metadados " +:+ file_name
         +:+ ".p2p se encontra em " +:+ Constants.BASE_PATH) ;;;
      ret (EmptyString, -1, -1)
  | Some text =>
      let meta_file := {| pending := text; eofbit := false; failbit := false |} in
      let '(file_name_returned, meta_file) := getline meta_file EmptyString in
      let '(total_chunks, meta_file) :=
        extract_int meta_file (indeterminate_total_chunks E) in
      let '(initial_ttl, _) :=
        extract_int meta_file (indeterminate_initial_ttl E) in
      ret (file_name_returned, total_chunks, initial_ttl)
  end.

Definition initializeFileChunks (file_name : string) (total_chunks : Z) : M unit :=
  f <- get_fm ;;
  put_fm (with_file_chunks f (<[file_name := total_chunks]> (file_chunks f))).

(** [resize(total_chunks)] takes a [size_t]: a negative count becomes a
    size no vector can have, and the call throws. *)
Definition initializeChunkLocationInfo (file_name : string) : M unit :=
  f <- get_fm ;;
  let '(total_chunks, fc) := subscript 0 (file_chunks f) file_name in
  let f := with_file_chunks f fc in
  put_fm f ;;;
  match chunk_location_info f !! file_name with
  | None =>
      if total_chunks <? 0 then throw
      else put_fm (with_chunk_location_info f
                     (<[file_name := replicate (Z.to_nat total_chunks) []]>
                        (chunk_location_info f)))
  | Some _ => ret tt
  end ;;;
  f <- get_fm ;;
  put_fm (with_chunk_location_info_mutex f
            ({[file_name]} ∪ chunk_location_info_mutex f)).

Definition clearChunkLocationInfo (file_name : string) : M unit :=
  f <- get_fm ;;
  let f := with_chunk_location_info f (delete file_name (chunk_location_info f)) in
  put_fm (with_chunk_location_info_mutex f
            (chunk_location_info_mutex f ∖ {[file_name]})).

(** ** The planner *)

Definition peer_key (p : ChunkLocationInfo) : string :=
  ip p +:+ ":" +:+ to_string (port p).

(** One turn of the loop over [sorted_peers_by_speed].  The state is the
    running map, [selected_peer_key] and [min_chunks_assigned]; the copy
    [selected_peer] the source also keeps is never read. *)
Definition scan_peer (st : gmap string (list Z) * string * Z)
    (peer : ChunkLocationInfo) : gmap string (list Z) * string * Z :=
  let '(chunks_by_peer_map, selected_peer_key, min_chunks_assigned) := st in
  let current_peer_key := peer_key peer in
  let '(assigned, chunks_by_peer_map) :=
    subscript [] chunks_by_peer_map current_peer_key in
  let chunks_assigned_to_current_peer := to_int (Z.of_nat (length assigned)) in
  if chunks_assigned_to_current_peer <? min_chunks_assigned
  then (chunks_by_peer_map, current_peer_key, chunks_assigned_to_current_peer)
  else (chunks_by_peer_map, selected_peer_key, min_chunks_assigned).

(** The body of the loop over the chunks of the file. *)
Definition assign_chunk (sort : list ChunkLocationInfo -> list ChunkLocationInfo)
    (chunks_by_peer_map : gmap string (list Z)) (chunk_index : nat)
    (available_peers_for_chunk : list ChunkLocationInfo)
  : gmap string (list Z) :=
  match available_peers_for_chunk with
  | [] => chunks_by_peer_map
  | _ =>
      let sorted_peers_by_speed := sort available_peers_for_chunk in
      match sorted_peers_by_speed with
      | [] => chunks_by_peer_map  (* a sorted copy of a list with elements *)
      | selected_peer :: _ =>
          let selected_peer_key := peer_key selected_peer in
          let '(assigned, m) :=
            subscript [] chunks_by_peer_map selected_peer_key in
          let min_chunks_assigned := to_int (Z.of_nat (length assigned)) in
          let '(m, selected_peer_key, _) :=
            fold_left scan_peer sorted_peers_by_speed
                      (m, selected_peer_key, min_chunks_assigned) in
          let '(assigned, m) := subscript [] m selected_peer_key in
          <[selected_peer_key := assigned ++ [to_int (Z.of_nat chunk_index)]]> m
      end
  end.

Fixpoint assign_chunks (sort : list ChunkLocationInfo -> list ChunkLocationInfo)
    (chunk_index : nat) (chunks_with_peer_info : list (list ChunkLocationInfo))
    (chunks_by_peer_map : gmap string (list Z)) : gmap string (list Z) :=
  match chunks_with_peer_info with
  | [] => chunks_by_peer_map
  | available :: rest =>
      assign_chunks sort (S chunk_index) rest
        (assign_chunk sort chunks_by_peer_map chunk_index available)
  end.

(** [chunk_location_info.at(file_name)] throws for a file with no table. *)
Definition selectPeersForChunkDownload (E : Env) (file_name : string)
  : M (gmap string (list Z)) :=
  lock_chunk_location_info file_name ;;;
  f <- get_fm ;;
  match chunk_location_info f !! file_name with
  | None => throw
  | Some chunks_with_peer_info =>
      ret (assign_chunks (std_sort E) 0 chunks_with_peer_info ∅)
  end.

(** ** Recording providers *)

Definition same_endpoint (ip' : string) (port' : Z) (cli : ChunkLocationInfo) : bool :=
  bool_decide (ip cli = ip') && bool_decide (port cli = port').

(** The body of the loop over [chunk_ids]. *)
Definition store_chunk_id (file_name ip' : string) (port' transfer_speed' : Z)
    (chunk_id : Z) : M unit :=
  f <- get_fm ;;
  let '(table, info) := subscript [] (chunk_location_info f) file_name in
  if to_size_t chunk_id <? Z.of_nat (length table) then
    let i := Z.to_nat (to_size_t chunk_id) in
    match table !! i with
    | Some chunk_list =>
        let peer_exists := existsb (same_endpoint ip' port') chunk_list in
        let chunk_list :=
          if peer_exists then chunk_list
          else chunk_list ++ [ {| ip := ip'; port := port';
                                  transfer_speed := transfer_speed' |} ] in
        put_fm (with_chunk_location_info f
                  (<[file_name := <[i := chunk_list]> table]> info))
    | None => throw  (* the index was checked against the size *)
    end
  else
    put_fm (with_chunk_location_info f info) ;;;
    logMessage ERROR ("chunk_id " +:+ to_string chunk_id
                      +:+ " está fora do intervalo para o arquivo: "
                      +:+ file_name).

Definition storeChunkLocationInfo (file_name : string) (chunk_ids : list Z)
    (ip' : string) (port' transfer_speed' : Z) : M unit :=
  lock_chunk_location_info file_name ;;;
  for_each chunk_ids (store_chunk_id file_name ip' port' transfer_speed').

(** ** The chunk store *)

Definition getAvailableChunks (file_name : string) : M (list Z) :=
  lock_local_chunks file_name ;;;
  f <- get_fm ;;
  match local_chunks f !! file_name with
  | Some chunks => ret (set_in_order chunks)
  | None => ret []
  end.

Definition getChunkPath (f : FileManagerState) (file_name : string) (chunk : Z) : string :=
  directory f +:+ "/" +:+ file_name +:+ ".ch" +:+ to_string chunk.

Definition hasChunk (file_name : string) (chunk : Z) : M bool :=
  lock_local_chunks file_name ;;;
  f <- get_fm ;;
  let '(chunks, lc) := subscript ∅ (local_chunks f) file_name in
  put_fm (with_local_chunks f lc) ;;;
  ret (bool_decide (chunk ∈ chunks)).

(** An [std::ofstream] on [out_path].  [out_fail] is set when the file could
    not be opened and when an insertion fails; a stream in that state
    writes nothing. *)
Definition open_ofstream (out_path : string) : M bool :=
  fsys <- get_fs ;;
  if bool_decide (out_path ∈ no_write fsys) then ret true
  else
    put_fs {| contents := <[out_path := []]> (contents fsys);
              no_write := no_write fsys |} ;;;
    ret false.

Definition append_to (out_path : string) (data : bytes) : M unit :=
  fsys <- get_fs ;;
  put_fs {| contents := <[out_path := default [] (contents fsys !! out_path) ++ data]>
                          (contents fsys);
            no_write := no_write fsys |}.

(** [output_file << chunk_file.rdbuf()]: the whole of the chunk file is
    inserted; an insertion of no character at all sets [failbit] on the
    output stream. *)
Definition insert_rdbuf (out_path : string) (out_fail : bool) (data : bytes) : M bool :=
  if out_fail then ret true
  else match data with
       | [] => ret true
       | _ => append_to out_path data ;;; ret false
       end.

(** The loop of [assembleFile] over the chunks still to copy; [false] is
    the early [return false]. *)
Fixpoint copy_chunks (file_name : string) (chunks : list Z)
    (out_path : string) (out_fail : bool) : M bool :=
  match chunks with
  | [] => ret true
  | i :: rest =>
      f <- get_fm ;;
      fsys <- get_fs ;;
      let chunk_path := getChunkPath f file_name i in
      match contents fsys !! chunk_path with
      | None =>
          logMessage ERROR ("Erro ao abrir o chunk " +:+ chunk_path) ;;;
          ret false
      | Some data =>
          out_fail <- insert_rdbuf out_path out_fail data ;;
          copy_chunks file_name rest out_path out_fail
      end
  end.

Definition chunk_indices (total_chunks : Z) : list Z :=
  map Z.of_nat (seq 0 (Z.to_nat total_chunks)).

Definition assembleFile (file_name : string) : M bool :=
  f <- get_fm ;;
  let '(total_chunks, fc) := subscript 0 (file_chunks f) file_name in
  let '(chunks, lc) := subscript ∅ (local_chunks f) file_name in
  let f := with_local_chunks (with_file_chunks f fc) lc in
  put_fm f ;;;
  let has_all_chunks := Z.of_nat (size chunks) =? to_size_t total_chunks in
  if has_all_chunks then
    let output_path := directory f +:+ "/" +:+ file_name in
    out_fail <- open_ofstream output_path ;;
    copied <- copy_chunks file_name (chunk_indices total_chunks)
                          output_path out_fail ;;
    if copied then
      emit [EvSuccess file_name (peer_id f)] ;;;
      clearChunkLocationInfo file_name ;;;
      ret true
    else ret false
  else ret false.

Definition saveChunk (file_name : string) (chunk : Z) (data : bytes) : M unit :=
  lock_local_chunks file_name ;;;
  f <- get_fm ;;
  fsys <- get_fs ;;
  let path := getChunkPath f file_name chunk in
  if bool_decide (path ∈ no_write fsys) then
    logMessage ERROR ("Não foi possível criar o arquivo para o chunk "
                      +:+ to_string chunk)
  else
    put_fs {| contents := <[path := data]> (contents fsys);
              no_write := no_write fsys |} ;;;
    let '(chunks, lc) := subscript ∅ (local_chunks f) file_name in
    put_fm (with_local_chunks f (<[file_name := {[chunk]} ∪ chunks]> lc)) ;;;
    _ <- assembleFile file_name ;;
    ret tt.

End FileManager.

(* ===================================================================== *)
(** * TCPServer *)
(* ===================================================================== *)

Module TCPServer.

(** The 1024-byte buffer the control message is sent from: all zero, then
    the first [bytes_to_copy] bytes of the message copied in, then a zero
    written at index [bytes_to_copy]. *)
Definition control_message_buffer (control_message : string) : bytes :=
  let size := Z.to_nat Constants.CONTROL_MESSAGE_MAX_SIZE in
  let bytes_to_copy :=
    Nat.min (String.length control_message) (size - 1) in
  <[bytes_to_copy := NUL]>
    (take bytes_to_copy (list_ascii_of_string control_message)
     ++ drop bytes_to_copy (replicate size NUL)).

Definition destination (d : PeerInfo) : string :=
  peer_ip d +:+ ":" +:+ to_string (peer_port d).

(** The socket is a blocking one: [send] returns when all the bytes it was
    given are queued, and its result is their count.  A count of zero
    takes the branch of the source for a closed connection.  A negative
    count, converted to [size_t], would have [send] read far past the
    buffer; the computation has no result then.  [fuel] bounds the number
    of turns. *)
Fixpoint send_control_message (fuel : nat) (E : Env) (d : PeerInfo)
    (control_message_buffer : bytes) (total_bytes_sent : Z) : M unit :=
  match fuel with
  | O => throw
  | S fuel =>
      if total_bytes_sent <? Constants.CONTROL_MESSAGE_MAX_SIZE then
        let bytes_to_send :=
          Z.min (self_transfer_speed E)
                (Constants.CONTROL_MESSAGE_MAX_SIZE - to_int total_bytes_sent) in
        if bytes_to_send <? 0 then throw
        else if bytes_to_send =? 0 then
          logMessage INFO "Conexão fechada pelo cliente."
        else
          let bytes_sent := bytes_to_send in
          emit [EvTcpSend (take (Z.to_nat bytes_to_send)
                             (drop (Z.to_nat total_bytes_sent)
                                   control_message_buffer))] ;;;
          let total_bytes_sent := total_bytes_sent + bytes_sent in
          logMessage INFO
            ("Enviado " +:+ to_string bytes_sent
             +:+ " bytes da mensagem de controle para " +:+ destination d
             +:+ " (" +:+ to_string total_bytes_sent +:+ "/"
             +:+ to_string Constants.CONTROL_MESSAGE_MAX_SIZE +:+ " bytes).") ;;;
          emit [EvSleep 1] ;;;
          send_control_message fuel E d control_message_buffer total_bytes_sent
      else ret tt
  end.

Fixpoint send_payload (fuel : nat) (E : Env) (d : PeerInfo)
    (file_name : string) (chunk : Z) (file_buffer : bytes)
    (total_bytes_sent : Z) : M unit :=
  match fuel with
  | O => throw
  | S fuel =>
      let chunk_size := Z.of_nat (length file_buffer) in
      if total_bytes_sent <? chunk_size then
        let bytes_to_send :=
          Z.min (to_size_t (self_transfer_speed E))
                (chunk_size - total_bytes_sent) in
        if bytes_to_send =? 0 then
          logMessage INFO "Conexão fechada pelo cliente."
        else
          let bytes_sent := bytes_to_send in
          emit [EvTcpSend (take (Z.to_nat bytes_to_send)
                             (drop (Z.to_nat total_bytes_sent) file_buffer))] ;;;
          let total_bytes_sent := total_bytes_sent + bytes_sent in
          logMessage CHUNK_SENT
            ("Enviado " +:+ to_string bytes_sent +:+ " bytes do chunk "
             +:+ to_string chunk +:+ " do arquivo " +:+ file_name
             +:+ " para " +:+ destination d
             +:+ " (" +:+ to_string total_bytes_sent +:+ "/"
             +:+ to_string chunk_size +:+ " bytes).") ;;;
          emit [EvSleep 1] ;;;
          send_payload fuel E d file_name chunk file_buffer total_bytes_sent
      else ret tt
  end.

Definition control_message_for (E : Env) (file_name : string) (chunk : Z)
    (chunk_size : nat) : string :=
  "PUT " +:+ file_name +:+ " " +:+ to_string chunk +:+ " "
  +:+ to_string (self_transfer_speed E) +:+ " "
  +:+ to_string (Z.of_nat chunk_size).

(** The body of the loop of [sendChunks] over the requested chunks.  Each
    loop can take as many turns as it has bytes to send, and one more to
    find that it is done. *)
Definition send_chunk (E : Env) (file_name : string) (d : PeerInfo)
    (chunk : Z) : M unit :=
  f <- get_fm ;;
  fsys <- get_fs ;;
  match contents fsys !! FileManager.getChunkPath f file_name chunk with
  | None =>
      logMessage ERROR ("Chunk " +:+ to_string chunk +:+ " não encontrado.")
  | Some file_buffer =>
      let control_message :=
        control_message_for E file_name chunk (length file_buffer) in
      let buffer := control_message_buffer control_message in
      send_control_message (S (length buffer)) E d buffer 0 ;;;
      send_payload (S (length file_buffer)) E d file_name chunk file_buffer 0 ;;;
      logMessage SUCCESS
        ("SUCESSO AO ENVIAR O CHUNK " +:+ to_string chunk
         +:+ " DO ARQUIVO " +:+ file_name +:+ " para " +:+ destination d)
  end.

Definition sendChunks (E : Env) (file_name : string) (chunks : list Z)
    (destination_info : PeerInfo) : M unit :=
  if negb (socket_ok E) then emit [EvPerror "Erro ao criar socket."]
  else if negb (connect_ok E (peer_ip destination_info) (peer_port destination_info))
  then emit [EvPerror "Erro ao conectar ao peer."]
  else for_each chunks (send_chunk E file_name destination_info).

(** The first loop of [receiveChunks], which collects the control message.
    [answers] are the results of the successive calls of [recv], each asked
    for up to 1024 bytes: the bytes one call returned.  A call that returns
    nothing (a closed connection, an error) ends the thread: [None].
    Otherwise the result is the control message and the answers left for
    the calls that follow. *)
Fixpoint recv_control_message (answers : list bytes) (control_message : bytes)
  : option (bytes * list bytes) :=
  match answers with
  | [] => None
  | control_message_buffer :: answers =>
      match control_message_buffer with
      | [] => None
      | _ =>
          let control_message := control_message ++ control_message_buffer in
          if Z.of_nat (length control_message) <? Constants.CONTROL_MESSAGE_MAX_SIZE
          then recv_control_message answers control_message
          else Some (control_message, answers)
      end
  end.

End TCPServer.

(* ===================================================================== *)
(** * UDPServer *)
(* ===================================================================== *)

(** A datagram as the extractions of the handlers read it: the command, then
    the fields of that command. *)
Inductive Datagram :=
| DISCOVERY (file_name : string) (total_chunks ttl : Z) (chunk_requester_ip_port : string)
| RESPONSE (file_name : string) (transfer_speed : Z) (chunks : list Z)
| REQUEST (file_name : string) (tcp_port : Z) (chunks : list Z)
| UNKNOWN (command : string).

Module UDPServer.

Definition initializeProcessingActive (file_name : string) : M unit :=
  m <- get_active ;;
  put_active (<[file_name := true]> m).

(** The result is whether [sendto] reported success. *)
Definition sendUDPMessage (E : Env) (ip : string) (port : Z) (message : string) : M bool :=
  emit [EvSendto ip port message] ;;;
  ret (sendto_ok E ip port message).

Definition chunks_text (chunks : list Z) : string :=
  fold_left (fun acc chunk => acc +:+ to_string chunk +:+ " ") chunks EmptyString.

Definition buildChunkDiscoveryMessage (file_name : string) (total_chunks ttl : Z)
    (chunk_requester_info : PeerInfo) : string :=
  "DISCOVERY " +:+ file_name +:+ " " +:+ to_string total_chunks +:+ " "
  +:+ to_string ttl +:+ " " +:+ peer_ip chunk_requester_info +:+ ":"
  +:+ to_string (peer_port chunk_requester_info).

Definition buildChunkResponseMessage (E : Env) (file_name : string)
    (chunks_available : list Z) : string :=
  "RESPONSE " +:+ file_name +:+ " " +:+ to_string (self_transfer_speed E)
  +:+ " " +:+ chunks_text chunks_available.

Definition buildChunkRequestMessage (E : Env) (file_name : string)
    (chunks : list Z) : string :=
  "REQUEST " +:+ file_name +:+ " " +:+ to_string (self_tcp_port E)
  +:+ " " +:+ chunks_text chunks.

(** The body of the loop over the neighbours. *)
Definition send_discovery_to (E : Env) (message : string)
    (neighbor : string * Z) : M unit :=
  let '(neighbor_ip, neighbor_port) := neighbor in
  sent <- sendUDPMessage E neighbor_ip neighbor_port message ;;
  (if sent then
     logMessage DISCOVERY_SENT
       ("Mensagem de descoberta enviada para Peer " +:+ neighbor_ip +:+ ":"
        +:+ to_string neighbor_port +:+ " -> " +:+ message)
   else emit [EvPerror "Erro ao enviar mensagem UDP"]) ;;;
  emit [EvSleep Constants.DISCOVERY_MESSAGE_INTERVAL_SECONDS].

Definition sendChunkDiscoveryMessage (E : Env) (file_name : string)
    (total_chunks ttl : Z) (chunk_requester_info : PeerInfo) : M unit :=
  let message :=
    buildChunkDiscoveryMessage file_name total_chunks ttl chunk_requester_info in
  for_each (udpNeighbors E) (send_discovery_to E message).

Definition sendChunkResponseMessage (E : Env) (file_name : string)
    (chunk_requester_info : PeerInfo) : M unit :=
  chunks_available <- FileManager.getAvailableChunks file_name ;;
  match chunks_available with
  | [] =>
      logMessage INFO ("Nenhum chunk disponível para o arquivo '"
                       +:+ file_name +:+ "'")
  | _ =>
      let response_message :=
        buildChunkResponseMessage E file_name chunks_available in
      sent <- sendUDPMessage E (peer_ip chunk_requester_info)
                (peer_port chunk_requester_info) response_message ;;
      if sent then
        logMessage RESPONSE_SENT
          ("Enviada resposta para o Peer " +:+ peer_ip chunk_requester_info
           +:+ ":" +:+ to_string (peer_port chunk_requester_info)
           +:+ " com chunks disponíveis do arquivo '" +:+ file_name
           +:+ "': " +:+ chunks_text chunks_available)
      else emit [EvPerror "Erro ao enviar resposta UDP com chunks disponíveis."]
  end.

(** The endpoint written as [ip:port]: what is before the first colon,
    and [stoi] of what is after it.  Without a colon [find] returns [npos]:
    [substr(0, npos)] and [substr(npos + 1)] are then both the whole
    string.  [None] when [stoi] throws. *)
Definition split_ip_port (ip_port : string) : option (string * Z) :=
  match find_colon ip_port with
  | Some colon_pos =>
      match stoi (substr_from (S colon_pos) ip_port) with
      | Some p => Some (substring 0 colon_pos ip_port, p)
      | None => None
      end
  | None =>
      match stoi ip_port with
      | Some p => Some (ip_port, p)
      | None => None
      end
  end.

(** The body of the loop over the planner's map.  A key always has a
    colon; without one the source would send to a port it never set. *)
Definition send_request_to (E : Env) (file_name : string)
    (entry : string * list Z) : M unit :=
  let '(peer_ip_port, chunks) := entry in
  let request_message := buildChunkRequestMessage E file_name chunks in
  match find_colon peer_ip_port with
  | None => throw
  | Some colon_pos =>
      match stoi (substr_from (S colon_pos) peer_ip_port) with
      | None => throw
      | Some peer_port =>
          let peer_ip := substring 0 colon_pos peer_ip_port in
          sent <- sendUDPMessage E peer_ip peer_port request_message ;;
          if sent then
            logMessage REQUEST_SENT
              ("Mensagem REQUEST enviada para " +:+ peer_ip_port
               +:+ " -> " +:+ request_message)
          else emit [EvPerror "Erro ao enviar mensagem UDP REQUEST de chunks"]
      end
  end.

(** The planner's map is an [unordered_map]: the order its entries are
    visited in is not specified, and here is that of [map_to_list]. *)
Definition sendChunkRequestMessage (E : Env) (file_name : string) : M unit :=
  chunks_by_peer <- FileManager.selectPeersForChunkDownload E file_name ;;
  for_each (map_to_list chunks_by_peer) (send_request_to E file_name).

Definition processChunkDiscoveryMessage (E : Env) (file_name : string)
    (total_chunks ttl : Z) (chunk_requester_ip_port : string)
    (direct_sender_info : PeerInfo) : M unit :=
  match split_ip_port chunk_requester_ip_port with
  | None => throw
  | Some (chunk_requester_ip, chunk_requester_port) =>
      if negb (bool_decide (chunk_requester_ip = self_ip E))
         || negb (bool_decide (chunk_requester_port = self_port E))
      then
        logMessage DISCOVERY_RECEIVED
          ("Recebido pedido de descoberta do arquivo '" +:+ file_name
           +:+ "' com TTL " +:+ to_string ttl +:+ " do Peer "
           +:+ peer_ip direct_sender_info +:+ ":"
           +:+ to_string (peer_port direct_sender_info)
           +:+ ". Resposta será enviada para o Peer " +:+ chunk_requester_ip
           +:+ ":" +:+ to_string chunk_requester_port) ;;;
        let chunk_requester_info :=
          {| peer_ip := chunk_requester_ip; peer_port := chunk_requester_port |} in
        sendChunkResponseMessage E file_name chunk_requester_info ;;;
        if 0 <? ttl then
          sendChunkDiscoveryMessage E file_name total_chunks (ttl - 1)
                                    chunk_requester_info
        else ret tt
      else ret tt
  end.

(** The loop that keeps the chunks of a RESPONSE this peer does not hold. *)
Fixpoint chunks_not_held (file_name : string) (chunks : list Z) : M (list Z) :=
  match chunks with
  | [] => ret []
  | chunk :: rest =>
      has_chunk <- FileManager.hasChunk file_name chunk ;;
      others <- chunks_not_held file_name rest ;;
      ret (if has_chunk then others else chunk :: others)
  end.

Definition processChunkResponseMessage (file_name : string)
    (transfer_speed : Z) (chunks : list Z) (direct_sender_info : PeerInfo) : M unit :=
  chunks_received <- chunks_not_held file_name chunks ;;
  match chunks_received with
  | [] => ret tt
  | _ =>
      FileManager.storeChunkLocationInfo file_name chunks_received
        (peer_ip direct_sender_info) (peer_port direct_sender_info)
        transfer_speed ;;;
      logMessage RESPONSE_RECEIVED
        ("Recebida resposta do Peer " +:+ peer_ip direct_sender_info +:+ ":"
         +:+ to_string (peer_port direct_sender_info)
         +:+ " para o arquivo '" +:+ file_name
         +:+ "'. Chunks disponíveis: " +:+ chunks_text chunks_received)
  end.

Definition processChunkRequestMessage (E : Env) (file_name : string)
    (tcp_port : Z) (requested_chunks : list Z) (direct_sender_info : PeerInfo) : M unit :=
  logMessage REQUEST_RECEIVED
    ("Recebida requisição de chunks do Peer " +:+ peer_ip direct_sender_info
     +:+ ":" +:+ to_string (peer_port direct_sender_info)
     +:+ " para o arquivo '" +:+ file_name
     +:+ "'. Chunks solicitados: " +:+ chunks_text requested_chunks) ;;;
  TCPServer.sendChunks E file_name requested_chunks
    {| peer_ip := peer_ip direct_sender_info; peer_port := tcp_port |}.

Definition processMessage (E : Env) (message : Datagram)
    (direct_sender_info : PeerInfo) : M unit :=
  match message with
  | DISCOVERY file_name total_chunks ttl chunk_requester_ip_port =>
      processChunkDiscoveryMessage E file_name total_chunks ttl
        chunk_requester_ip_port direct_sender_info
  | RESPONSE file_name transfer_speed chunks =>
      m <- get_active ;;
      let '(active, m) := subscript false m file_name in
      put_active m ;;;
      if active then
        processChunkResponseMessage file_name transfer_speed chunks
                                    direct_sender_info
      else
        logMessage OTHER ("Mensagem RESPONSE recebida para " +:+ file_name
                          +:+ ", mas o processamento está desativado.")
  | REQUEST file_name tcp_port chunks =>
      processChunkRequestMessage E file_name tcp_port chunks direct_sender_info
  | UNKNOWN command =>
      logMessage ERROR ("Comando desconhecido recebido: " +:+ command)
  end.

Definition waitForResponses (file_name : string) : M unit :=
  emit [EvSleep Constants.RESPONSE_TIMEOUT_SECONDS] ;;;
  m <- get_active ;;
  put_active (<[file_name := false]> m) ;;;
  logMessage INFO ("Processamento de mensagens RESPONSE desativado para o arquivo: "
                   +:+ file_name).

End UDPServer.

(* ===================================================================== *)
(** * Peer *)
(* ===================================================================== *)

Module Peer.

Definition discoverAndRequestChunks (E : Env) (file_name : string)
    (total_chunks initial_ttl : Z) : M unit :=
  let original_sender_info :=
    {| peer_ip := self_ip E; peer_port := self_port E |} in
  UDPServer.initializeProcessingActive file_name ;;;
  assembler <- FileManager.assembleFile file_name ;;
  if negb assembler then
    UDPServer.sendChunkDiscoveryMessage E file_name total_chunks initial_ttl
                                        original_sender_info ;;;
    UDPServer.waitForResponses file_name ;;;
    UDPServer.sendChunkRequestMessage E file_name
  else
    logMessage INFO
      ("O peer " +:+ to_string (self_id E) +:+ " (" +:+ self_ip E +:+ ":"
       +:+ to_string (self_port E) +:+ ") já possuí todos os chunks para "
       +:+ file_name +:+ ".").

Definition searchFile (E : Env) (file_name : string) : M unit :=
  meta <- FileManager.loadMetadata E file_name ;;
  let '(file_name_returned, total_chunks, initial_ttl) := meta in
  if negb (total_chunks =? -1) && negb (initial_ttl =? -1) then
    FileManager.initializeFileChunks file_name_returned total_chunks ;;;
    FileManager.initializeChunkLocationInfo file_name_returned ;;;
    discoverAndRequestChunks E file_name_returned total_chunks initial_ttl
  else ret tt.

End Peer.

(* ===================================================================== *)
(** * Notions the statements are written with *)
(* ===================================================================== *)

(** The datagrams among some events, in the order they were sent. *)
Definition datagrams (es : list Event) : list (string * Z * string) :=
  omap (fun e => match e with
                 | EvSendto ip port message => Some (ip, port, message)
                 | _ => None
                 end) es.

(** The response window of a file, as [processMessage] reads it. *)
Definition window_open (w : World) (file_name : string) : bool :=
  fst (subscript false (processing_active_map w) file_name).

(** The chunks of a file in the local store. *)
Definition LocalChunkSet (w : World) (file_name : string) : gset Z :=
  default ∅ (local_chunks (file_manager w) !! file_name).

(** The discovery table of a file; a file without one has no chunk entry. *)
Definition DiscoveryTable (w : World) (file_name : string)
  : list (list ChunkLocationInfo) :=
  default [] (chunk_location_info (file_manager w) !! file_name).

Definition self_endpoint (E : Env) : string * Z := (self_ip E, self_port E).

(** The artifact of chunk [i]: whether it can be opened, and its bytes. *)
Definition chunk_readable (w : World) (file_name : string) (i : Z) : Prop :=
  is_Some (contents (fs w) !! FileManager.getChunkPath (file_manager w) file_name i).
Definition chunk_bytes (w : World) (file_name : string) (i : Z) : bytes :=
  default [] (contents (fs w) !! FileManager.getChunkPath (file_manager w) file_name i).

(** The path of the assembled file. *)
Definition output_path (w : World) (file_name : string) : string :=
  directory (file_manager w) +:+ "/" +:+ file_name.

(** The number of chunks recorded for a file; a file never searched for has
    no record, and reading it gives 0. *)
Definition total_chunks_of (w : World) (file_name : string) : Z :=
  default 0 (file_chunks (file_manager w) !! file_name).

(** The world once [assembleFile] has read the chunk count and the local set
    of the file: both subscripts leave an entry behind. *)
Definition counted (file_name : string) (w : World) : World :=
  {| fs := fs w;
     file_manager :=
       FileManager.with_local_chunks
         (FileManager.with_file_chunks (file_manager w)
            (subscript 0 (file_chunks (file_manager w)) file_name).2)
         (subscript ∅ (local_chunks (file_manager w)) file_name).2;
     processing_active_map := processing_active_map w;
     trace := trace w |}.

(** The world [saveChunk] hands to [assembleFile]: the mutex of the file
    exists, the artifact holds the bytes received and the chunk is in the
    local set. *)
Definition chunk_saved (w : World) (file_name : string) (chunk : Z) (data : bytes) : World :=
  let f := FileManager.with_local_chunks_mutex (file_manager w)
             ({[file_name]} ∪ local_chunks_mutex (file_manager w)) in
  {| fs := {| contents := <[FileManager.getChunkPath f file_name chunk := data]>
                            (contents (fs w));
              no_write := no_write (fs w) |};
     file_manager :=
       FileManager.with_local_chunks f
         (<[file_name := {[chunk]} ∪ LocalChunkSet w file_name]> (local_chunks f));
     processing_active_map := processing_active_map w;
     trace := trace w |}.

(** The line [loadMetadata] logs for a sidecar it cannot open. *)
Definition sidecar_error (file_name : string) : Event :=
  EvLog ERROR ("Erro ao abrir o arquivo de metadados para " +:+ file_name
               +:+ ". Verifique se o arquivo de metadados " +:+ file_name
               +:+ ".p2p se encontra em " +:+ Constants.BASE_PATH).

(** ** The assignment planner, in the words of its specification

    Chunks are taken in index order.  A chunk without provider is skipped.
    Otherwise its providers are sorted by descending advertised rate, and
    the chunk is appended to the list of the one with the fewest chunks in
    the running map, the earlier one in the sorted order on a tie. *)
Module Planner.

(** The chunks a provider key is assigned in a map; none without entry. *)
Definition assigned (m : gmap string (list Z)) (key : string) : list Z :=
  default [] (m !! key).

Definition load (m : gmap string (list Z)) (p : ChunkLocationInfo) : nat :=
  length (assigned m (FileManager.peer_key p)).

Definition by_descending_rate (l : list ChunkLocationInfo) : Prop :=
  Sorted (fun a b => transfer_speed b <= transfer_speed a) l.

(** The first provider of [sorted] that no provider of [sorted] has fewer
    chunks than. *)
Definition fewest (m : gmap string (list Z)) (sorted : list ChunkLocationInfo)
  : option ChunkLocationInfo :=
  find (fun p => forallb (fun q => (load m p <=? load m q)%nat) sorted) sorted.

Definition plan_chunk (sort : list ChunkLocationInfo -> list ChunkLocationInfo)
    (m : gmap string (list Z)) (i : nat) (providers : list ChunkLocationInfo)
  : gmap string (list Z) :=
  match providers with
  | [] => m
  | _ =>
      match fewest m (sort providers) with
      | Some p =>
          <[FileManager.peer_key p :=
              assigned m (FileManager.peer_key p) ++ [Z.of_nat i]]> m
      | None => m
      end
  end.

Fixpoint plan_from (sort : list ChunkLocationInfo -> list ChunkLocationInfo)
    (i : nat) (table : list (list ChunkLocationInfo))
    (m : gmap string (list Z)) : gmap string (list Z) :=
  match table with
  | [] => m
  | providers :: rest => plan_from sort (S i) rest (plan_chunk sort m i providers)
  end.

Definition plan (sort : list ChunkLocationInfo -> list ChunkLocationInfo)
    (table : list (list ChunkLocationInfo)) : gmap string (list Z) :=
  plan_from sort 0 table ∅.

End Planner.

Definition keys_of (s : list ChunkLocationInfo) : gset string :=
  list_to_set (map FileManager.peer_key s).

(** [best] is the choice of the specification among
    [before ++ best :: after]: every provider before it has more chunks in
    [m], no provider after it has fewer. *)
Definition chosen (m : gmap string (list Z)) (before : list ChunkLocationInfo)
    (best : ChunkLocationInfo) (after : list ChunkLocationInfo) : Prop :=
  (forall q, q ∈ before -> (Planner.load m best < Planner.load m q)%nat)
  /\ (forall q, q ∈ after -> (Planner.load m best <= Planner.load m q)%nat).

(** What [std::sort] with the comparison of the planner guarantees. *)
Definition sorts_by_rate (sort : list ChunkLocationInfo -> list ChunkLocationInfo) : Prop :=
  forall l, sort l ≡ₚ l /\ Planner.by_descending_rate (sort l).

(** The keys of the providers of some chunks. *)
Definition provider_keys (table : list (list ChunkLocationInfo)) : gset string :=
  list_to_set (map FileManager.peer_key (concat table)).

(** A map with an empty list added for each of [keys] it has no entry for. *)
Definition with_empty_entries (keys : gset string) (m : gmap string (list Z))
  : gmap string (list Z) :=
  m ∪ gset_to_gmap [] keys.

(** The world once the mutex of the table of a file has been taken. *)
Definition table_locked (w : World) (file_name : string) : World :=
  {| fs := fs w;
     file_manager :=
       FileManager.with_chunk_location_info_mutex (file_manager w)
         ({[file_name]} ∪ chunk_location_info_mutex (file_manager w));
     processing_active_map := processing_active_map w;
     trace := trace w |}.

(** ** The stream transport *)

(** The events of one block of a paced loop: the send, the line that
    reports it and the pause. *)
Definition block_events (t : LogType) (sent : bytes * string) : list Event :=
  [EvTcpSend sent.1; EvLog t sent.2; EvSleep 1].

(** The blocks sent on the stream, in order. *)
Definition tcp_blocks (es : list Event) : list bytes :=
  omap (fun e => match e with EvTcpSend b => Some b | _ => None end) es.

Definition is_send (e : Event) : bool :=
  match e with EvTcpSend _ => true | _ => false end.
Fixpoint from_first_send (es : list Event) : list Event :=
  match es with
  | [] => []
  | e :: r => if is_send e then es else from_first_send r
  end.
(** What happens from the first send to the last one. *)
Definition between_sends (es : list Event) : list Event :=
  rev (from_first_send (rev (from_first_send es))).
Fixpoint seconds_slept (es : list Event) : Z :=
  match es with
  | [] => 0
  | EvSleep n :: r => n + seconds_slept r
  | _ :: r => seconds_slept r
  end.

(** [x / r] rounded up. *)
Definition ceil_div (x r : Z) : Z := (x + r - 1) / r.

(** A byte sequence without the run of NUL bytes at its end. *)
Fixpoint strip_nul_padding (l : bytes) : bytes :=
  match l with
  | [] => []
  | c :: r =>
      match strip_nul_padding r with
      | [] => if Ascii.eqb c NUL then [] else [c]
      | r' => c :: r'
      end
  end.

(** ** The discovery table *)

Definition endpoint (p : ChunkLocationInfo) : string * Z := (ip p, port p).

(** At most one record per endpoint in the list of every chunk. *)
Definition deduplicated (table : list (list ChunkLocationInfo)) : Prop :=
  Forall (fun providers => NoDup (map endpoint providers)) table.
Definition tables_deduplicated (w : World) : Prop :=
  forall file_name table,
    chunk_location_info (file_manager w) !! file_name = Some table ->
    deduplicated table.

Definition chunk_in_range (table : list (list ChunkLocationInfo)) (chunk_id : Z) : bool :=
  (0 <=? chunk_id) && (chunk_id <? Z.of_nat (length table)).

(** A size a [std::vector] can have. *)
Definition vector_size (n : nat) : Prop := Z.of_nat n < 2 ^ 63.

(** The list of a chunk once a provider has been recorded for it. *)
Definition recorded (ip' : string) (port' speed : Z)
    (providers : list ChunkLocationInfo) : list ChunkLocationInfo :=
  if existsb (FileManager.same_endpoint ip' port') providers then providers
  else providers ++ [ {| ip := ip'; port := port'; transfer_speed := speed |} ].

(** The table of a file after one turn of the loop of
    [storeChunkLocationInfo]. *)
Definition table_step (ip' : string) (port' speed : Z)
    (table : list (list ChunkLocationInfo)) (chunk_id : Z)
  : list (list ChunkLocationInfo) :=
  if chunk_in_range table chunk_id
  then alter (recorded ip' port' speed) (Z.to_nat chunk_id) table
  else table.

Definition out_of_range_line (file_name : string) (chunk_id : Z) : Event :=
  EvLog ERROR ("chunk_id " +:+ to_string chunk_id
               +:+ " está fora do intervalo para o arquivo: " +:+ file_name).

(** ** A peer to run the functions on *)

Module Sample.

(** One order [std::sort] can leave the providers in: insertion from the
    right, a provider going before the first one that is slower. *)
Fixpoint insert_by_speed (p : ChunkLocationInfo) (l : list ChunkLocationInfo)
  : list ChunkLocationInfo :=
  match l with
  | [] => [p]
  | q :: r =>
      if transfer_speed q <? transfer_speed p then p :: l
      else q :: insert_by_speed p r
  end.
Definition sort_by_speed (l : list ChunkLocationInfo) : list ChunkLocationInfo :=
  foldr insert_by_speed [] l.

Definition env : Env :=
  {| self_ip := "10.0.0.1"; self_port := 5001; self_tcp_port := 6001;
     self_id := 1; self_transfer_speed := 64;
     udpNeighbors := [("10.0.0.2", 5002); ("10.0.0.3", 5003)];
     std_sort := sort_by_speed;
     sendto_ok := fun _ _ _ => true;
     socket_ok := true;
     connect_ok := fun _ _ => true;
     indeterminate_total_chunks := 0;
     indeterminate_initial_ttl := 0 |}.

Definition manager : FileManagerState :=
  {| peer_id := "1"; directory := "./src/1";
     local_chunks := {[ "book.txt" := {[ 0; 2 ]} ]};
     local_chunks_mutex := {[ "book.txt" ]};
     file_chunks := ∅;
     chunk_location_info := ∅;
     chunk_location_info_mutex := ∅ |}.

Definition disk : FileSystem :=
  {| contents := {[ "./src/1/book.txt.ch0" := list_ascii_of_string "once ";
                    "./src/1/book.txt.ch2" := list_ascii_of_string "a time" ]};
     no_write := ∅ |}.

Definition world : World :=
  {| fs := disk; file_manager := manager;
     processing_active_map := ∅; trace := [] |}.

(** A peer that has both chunks of a two-chunk file it is searching for. *)
Definition complete : FileManagerState :=
  {| peer_id := "1"; directory := "./src/1";
     local_chunks := {[ "book.txt" := {[ 0; 1 ]} ]};
     local_chunks_mutex := {[ "book.txt" ]};
     file_chunks := {[ "book.txt" := 2 ]};
     chunk_location_info := {[ "book.txt" := [[]; []] ]};
     chunk_location_info_mutex := {[ "book.txt" ]} |}.

(** Both artifacts can be read; the assembled file cannot be opened for
    writing. *)
Definition blocked_world : World :=
  {| fs := {| contents :=
                {[ "./src/1/book.txt.ch0" := list_ascii_of_string "once ";
                   "./src/1/book.txt.ch1" := list_ascii_of_string "upon" ]};
              no_write := {[ "./src/1/book.txt" ]} |};
     file_manager := complete;
     processing_active_map := {[ "book.txt" := true ]}; trace := [] |}.

(** Every file can be written; the artifact of chunk 0 is empty. *)
Definition hollow_world : World :=
  {| fs := {| contents :=
                {[ "./src/1/book.txt.ch0" := [];
                   "./src/1/book.txt.ch1" := list_ascii_of_string "upon" ]};
              no_write := ∅ |};
     file_manager := complete;
     processing_active_map := {[ "book.txt" := true ]}; trace := [] |}.

(** A peer with no chunk of [book.txt], and a sidecar for it whose third
    field is not a number: the text is [book.txt], a newline, [3 x]. *)
Definition newcomer : FileManagerState :=
  {| peer_id := "1"; directory := "./src/1";
     local_chunks := ∅; local_chunks_mutex := ∅; file_chunks := ∅;
     chunk_location_info := ∅; chunk_location_info_mutex := ∅ |}.
Definition malformed_sidecar : bytes :=
  list_ascii_of_string "book.txt" ++ ["010"%char] ++ list_ascii_of_string "3 x".
Definition malformed_world : World :=
  {| fs := {| contents := {[ "./src/book.txt.p2p" := malformed_sidecar ]};
              no_write := ∅ |};
     file_manager := newcomer;
     processing_active_map := ∅; trace := [] |}.

(** A control message of 1024 bytes. *)
Definition long_header : string := string_of_list_ascii (replicate 1024 "A"%char).

(** Two providers, the first one twice as fast. *)
Definition provider_A : ChunkLocationInfo :=
  {| ip := "10.0.0.2"; port := 5002; transfer_speed := 100 |}.
Definition provider_B : ChunkLocationInfo :=
  {| ip := "10.0.0.3"; port := 5003; transfer_speed := 50 |}.

(** A search for a one-chunk file that both providers answered. *)
Definition answered_world : World :=
  {| fs := {| contents := ∅; no_write := ∅ |};
     file_manager :=
       {| peer_id := "1"; directory := "./src/1";
          local_chunks := ∅; local_chunks_mutex := ∅;
          file_chunks := {[ "book.txt" := 1 ]};
          chunk_location_info := {[ "book.txt" := [[provider_A; provider_B]] ]};
          chunk_location_info_mutex := {[ "book.txt" ]} |};
     processing_active_map := {[ "book.txt" := false ]}; trace := [] |}.

(** A peer that holds a chunk of 256 bytes to serve. *)
Definition serving_world : World :=
  {| fs := {| contents := {[ "./src/1/book.txt.ch0" := replicate 256 "x"%char ]};
              no_write := ∅ |};
     file_manager := manager;
     processing_active_map := ∅; trace := [] |}.

Definition sender : PeerInfo := {| peer_ip := "10.0.0.2"; peer_port := 5002 |}.

End Sample.

(* ===================================================================== *)
(** * Further notions *)
(* ===================================================================== *)

(** The bytes of the artifacts of some chunks, put end to end. *)
Definition chunks_bytes (w : World) (file_name : string) (ids : list Z) : bytes :=
  flat_map (chunk_bytes w file_name) ids.

(** What the copying loop of [assembleFile] writes of the artifacts of
    [ids]: the insertion of an artifact of no byte leaves the output
    stream in the failed state, and nothing is written from then on. *)
Fixpoint copied_bytes (w : World) (file_name : string) (ids : list Z) : bytes :=
  match ids with
  | [] => []
  | i :: ids =>
      match chunk_bytes w file_name i with
      | [] => []
      | data => data ++ copied_bytes w file_name ids
      end
  end.

(** The local set of the file has as many chunks as the count recorded for
    it: the test [assembleFile] starts with. *)
Definition set_complete (w : World) (file_name : string) : Prop :=
  Z.of_nat (size (LocalChunkSet w file_name)) = to_size_t (total_chunks_of w file_name).

(** The line [assembleFile] logs for an artifact it cannot open. *)
Definition chunk_open_error (w : World) (file_name : string) (i : Z) : Event :=
  EvLog ERROR ("Erro ao abrir o chunk "
               +:+ FileManager.getChunkPath (file_manager w) file_name i).

(** Events that are lines of the log and nothing else: no datagram, no
    block on a stream, no pause. *)
Definition is_log (e : Event) : Prop :=
  match e with EvLog _ _ => True | _ => False end.
Definition only_logs (es : list Event) : Prop := Forall is_log es.

(** The chunks of a RESPONSE this peer does not hold, in the order of the
    datagram. *)
Definition not_held (w : World) (file_name : string) (chunks : list Z) : list Z :=
  filter (fun chunk => chunk ∉ LocalChunkSet w file_name) chunks.

(** What holds of the running map once the chunks of [done] have been
    planned: a chunk is in the list of a key only if a provider with that
    key announced it; a chunk with providers is in the list of one key
    and no other; every list is in increasing order. *)
Definition covers (done : list (list ChunkLocationInfo))
    (m : gmap string (list Z)) : Prop :=
  (forall key c, c ∈ Planner.assigned m key ->
     exists j providers p,
       c = Z.of_nat j /\ done !! j = Some providers
       /\ p ∈ providers /\ FileManager.peer_key p = key)
  /\ (forall j providers, done !! j = Some providers -> providers <> [] ->
        exists key, Z.of_nat j ∈ Planner.assigned m key
                    /\ forall key', Z.of_nat j ∈ Planner.assigned m key' -> key' = key)
  /\ (forall key, StronglySorted Z.lt (Planner.assigned m key)).

(** ** Numbers and endpoints as text *)

(** The value of a run of decimal digits on top of [acc], the way
    [read_digits] accumulates it. *)
Fixpoint digits_value (acc : Z) (d : Decimal.uint) : Z :=
  match d with
  | Decimal.Nil => acc
  | Decimal.D0 l => digits_value (10 * acc + 0) l
  | Decimal.D1 l => digits_value (10 * acc + 1) l
  | Decimal.D2 l => digits_value (10 * acc + 2) l
  | Decimal.D3 l => digits_value (10 * acc + 3) l
  | Decimal.D4 l => digits_value (10 * acc + 4) l
  | Decimal.D5 l => digits_value (10 * acc + 5) l
  | Decimal.D6 l => digits_value (10 * acc + 6) l
  | Decimal.D7 l => digits_value (10 * acc + 7) l
  | Decimal.D8 l => digits_value (10 * acc + 8) l
  | Decimal.D9 l => digits_value (10 * acc + 9) l
  end.

(** What follows a number in a text does not go on with a digit. *)
Definition no_digit_ahead (rest : bytes) : Prop :=
  match rest with
  | c :: _ => digit_of c = None
  | [] => True
  end.

(** A string [find(':')] finds nothing in. *)
Definition colon_free (s : string) : Prop := find_colon s = None.

(** ** A search *)

(** The world once the window of a file has been set. *)
Definition window_set (w : World) (file_name : string) (b : bool) : World :=
  {| fs := fs w; file_manager := file_manager w;
     processing_active_map := <[file_name := b]> (processing_active_map w);
     trace := trace w |}.


(** The DISCOVERY datagrams of a flood: one for each neighbour, in the
    order of the list. *)
Definition flood (E : Env) (message : string) : list (string * Z * string) :=
  map (fun nb : string * Z => (nb.1, nb.2, message)) (udpNeighbors E).

(** The REQUEST datagram for a provider under a plan. *)
Definition request_for (E : Env) (file_name : string)
    (chunks_by_peer : gmap string (list Z)) (p : ChunkLocationInfo)
  : string * Z * string :=
  (ip p, port p,
   UDPServer.buildChunkRequestMessage E file_name
     (Planner.assigned chunks_by_peer (FileManager.peer_key p))).

(** The providers of a table all have an address without colon and a port
    that is an [int]. *)
Definition endpoints_plain (table : list (list ChunkLocationInfo)) : Prop :=
  Forall (Forall (fun p => colon_free (ip p) /\ is_int (port p))) table.

(** ** Serving chunks *)

(** What serving one chunk puts on the stream: the frame, then the bytes of
    the chunk; nothing for an artifact that cannot be opened. *)
Definition served (E : Env) (w : World) (file_name : string) (chunk : Z) : bytes :=
  match contents (fs w) !! FileManager.getChunkPath (file_manager w) file_name chunk with
  | Some data =>
      TCPServer.control_message_buffer
        (TCPServer.control_message_for E file_name chunk (length data)) ++ data
  | None => []
  end.

(** The seconds serving one chunk sleeps for: one for each block. *)
Definition serving_seconds (E : Env) (w : World) (file_name : string) (chunk : Z) : Z :=
  match contents (fs w) !! FileManager.getChunkPath (file_manager w) file_name chunk with
  | Some data =>
      ceil_div Constants.CONTROL_MESSAGE_MAX_SIZE (self_transfer_speed E)
      + ceil_div (Z.of_nat (length data)) (self_transfer_speed E)
  | None => 0
  end.

Definition is_success (e : Event) : bool :=
  match e with EvLog SUCCESS _ => true | _ => false end.
Definition is_perror (e : Event) : bool :=
  match e with EvPerror _ => true | _ => false end.

(** The chunks of a list whose artifact can be opened. *)
Definition openable (w : World) (file_name : string) (chunks : list Z) : list Z :=
  filter (fun chunk => chunk_readable w file_name chunk) chunks.

(** ** Datagrams as text *)

(** The characters up to the next white space, and what follows them. *)
Fixpoint until_space (cs : bytes) : bytes * bytes :=
  match cs with
  | [] => ([], [])
  | c :: r =>
      if is_space c then ([], cs)
      else let '(word, rest) := until_space r in (c :: word, rest)
  end.

(** [s >> str] for a [std::string str]: white space is skipped, then the
    characters up to the next white space replace the string.  When the
    stream is not [good], or ends before any other character, the string
    keeps the value it had and [failbit] is set.  Reading up to the end of
    the input sets [eofbit]. *)
Definition extract_word (s : istream) (str : string) : string * istream :=
  if good s then
    match skip_spaces (pending s) with
    | [] => (str, {| pending := []; eofbit := true; failbit := true |})
    | cs =>
        let '(word, rest) := until_space cs in
        (string_of_list_ascii word,
         {| pending := rest;
            eofbit := match rest with [] => true | _ => false end;
            failbit := false |})
    end
  else (str, set_failbit s).

(** [while (s >> v) push_back(v)]: the values extracted until an
    extraction fails.  A turn that succeeds takes at least one character
    off the stream, so [fuel] turns are enough when [fuel] is more than the
    number of characters left. *)
Fixpoint extract_ints (fuel : nat) (s : istream) (v : Z) : list Z :=
  match fuel with
  | O => []
  | S fuel =>
      let '(v, s) := extract_int s v in
      if failbit s then [] else v :: extract_ints fuel s v
  end.

(** The values the [int] locals of the handlers hold before anything is
    extracted into them: they are not initialised, and an extraction from
    a stream that has already failed leaves them as they are. *)
Record Indeterminate := {
  discovery_total_chunks : Z;
  discovery_ttl : Z;
  response_transfer_speed : Z;
  request_tcp_port : Z
}.

Module Wire.

(** [std::stringstream ss(message)]. *)
Definition stringstream (message : string) : istream :=
  {| pending := list_ascii_of_string message; eofbit := false; failbit := false |}.

Definition remaining_ints (s : istream) : list Z :=
  extract_ints (S (length (pending s))) s 0.

(** What the extractions of [processMessage] and of the handler it calls
    read from the text of a datagram.  For a RESPONSE the source reads
    the file name, goes back with [seekg] and has the handler read it
    again: the second reading finds what the first one found. *)
Definition parse (U : Indeterminate) (message : string) : Datagram :=
  let '(command, ss) := extract_word (stringstream message) EmptyString in
  if String.eqb command "DISCOVERY" then
    let '(file_name, ss) := extract_word ss EmptyString in
    let '(total_chunks, ss) := extract_int ss (discovery_total_chunks U) in
    let '(ttl, ss) := extract_int ss (discovery_ttl U) in
    let '(chunk_requester_ip_port, _) := extract_word ss EmptyString in
    DISCOVERY file_name total_chunks ttl chunk_requester_ip_port
  else if String.eqb command "RESPONSE" then
    let '(file_name, ss) := extract_word ss EmptyString in
    let '(transfer_speed, ss) := extract_int ss (response_transfer_speed U) in
    RESPONSE file_name transfer_speed (remaining_ints ss)
  else if String.eqb command "REQUEST" then
    let '(file_name, ss) := extract_word ss EmptyString in
    let '(tcp_port, ss) := extract_int ss (request_tcp_port U) in
    REQUEST file_name tcp_port (remaining_ints ss)
  else UNKNOWN command.

(** [UDPServer::processMessage] on the text of a datagram. *)
Definition processMessage (E : Env) (U : Indeterminate) (message : string)
    (direct_sender_info : PeerInfo) : M unit :=
  UDPServer.processMessage E (parse U message) direct_sender_info.

(** One turn of the loop of [UDPServer::run] on a datagram that has
    arrived.  [recvfrom] stores at most the 1024 bytes the buffer has
    room for, and its result is their number; nothing is done with a
    datagram of no byte.  The terminator is then written at that index,
    which for 1024 bytes is past the end of the buffer: the computation
    has no result then.  The message is what the buffer holds up to its
    first NUL. *)
Fixpoint up_to_nul (cs : bytes) : bytes :=
  match cs with
  | [] => []
  | c :: r => if Ascii.eqb c NUL then [] else c :: up_to_nul r
  end.

Definition run_turn (E : Env) (U : Indeterminate) (datagram : bytes)
    (direct_sender_info : PeerInfo) : M unit :=
  let bytes_received :=
    Z.min (Z.of_nat (length datagram)) Constants.CONTROL_MESSAGE_MAX_SIZE in
  if 0 <? bytes_received then
    if bytes_received <? Constants.CONTROL_MESSAGE_MAX_SIZE then
      processMessage E U (string_of_list_ascii (up_to_nul datagram))
                     direct_sender_info
    else throw
  else ret tt.

End Wire.

(** A string without white space. *)
Definition spaceless (s : string) : Prop :=
  Forall (fun c => is_space c = false) (list_ascii_of_string s).

(** A field of a datagram: some characters, none of them white space. *)
Definition is_field (s : string) : Prop := s <> EmptyString /\ spaceless s.

(** What follows a field in a text: nothing, or white space first. *)
Definition field_end (rest : bytes) : Prop :=
  match rest with
  | c :: _ => is_space c = true
  | [] => True
  end.

(** A stream that has met neither the end of its input nor a failure. *)
Definition stream_at (cs : bytes) : istream :=
  {| pending := cs; eofbit := false; failbit := false |}.

(** The stream an extraction that succeeds leaves, [rest] being what is
    left to read. *)
Definition stream_after (rest : bytes) : istream :=
  {| pending := rest;
     eofbit := match rest with [] => true | _ => false end;
     failbit := false |}.

(** The bytes of the text of some numbers, each followed by a blank. *)
Definition numbers_text (chunks : list Z) : bytes :=
  flat_map (fun chunk => list_ascii_of_string (to_string chunk) ++ [" "%char]) chunks.

(** ** The sidecar of a file *)

(** The text of a sidecar: the name on the first line, then the count and
    the TTL in decimal with [sep] between them, then [tail]. *)
Definition sidecar_text (name : string) (total_chunks initial_ttl : Z)
    (sep tail : bytes) : bytes :=
  list_ascii_of_string name ++ ["010"%char]
  ++ list_ascii_of_string (to_string total_chunks) ++ sep
  ++ list_ascii_of_string (to_string initial_ttl) ++ tail.

(** A string that fits on one line. *)
Definition one_line (s : string) : Prop :=
  Forall (fun c => Ascii.eqb c "010" = false) (list_ascii_of_string s).

(** Some white space. *)
Definition blanks (sep : bytes) : Prop :=
  sep <> [] /\ Forall (fun c => is_space c = true) sep.

(** ** The receiving end of a stream *)

Definition SIZE_MAX : Z := 2 ^ 64 - 1.

(** [s >> v] for a [size_t v]: as for an [int], but a value above
    [SIZE_MAX] is clamped to it, and a value written with a minus sign is
    negated in unsigned arithmetic. *)
Definition extract_size_t (s : istream) (v : Z) : Z * istream :=
  if good s then
    match skip_spaces (pending s) with
    | [] => (v, {| pending := []; eofbit := true; failbit := true |})
    | cs =>
        let '(neg, cs1) := read_sign cs in
        let '(n, count, cs2) := read_digits 0 0 cs1 in
        let at_end := match cs2 with [] => true | _ => false end in
        if (count =? 0)%nat then
          (0, {| pending := cs2; eofbit := at_end; failbit := true |})
        else if SIZE_MAX <? n then
          (SIZE_MAX, {| pending := cs2; eofbit := at_end; failbit := true |})
        else
          ((if neg then to_size_t (- n) else n),
           {| pending := cs2; eofbit := at_end; failbit := false |})
    end
  else (v, set_failbit s).

(** What a thread of [receiveChunks] does not decide: the address of the
    client, the values its locals hold before anything is extracted into
    them, the room the stack has for its two arrays, and whether the
    compiler in use lets an array of no element be declared and
    initialised. *)
Record Link := {
  client : PeerInfo;
  indeterminate_chunk_id : Z;
  indeterminate_transfer_speed : Z;
  indeterminate_chunk_size : Z;
  stack_room : Z;
  empty_array_ok : bool
}.

Module Receiver.

Inductive Received :=
| Data (block : bytes) (incoming : list bytes)
| Closed
| Failed.

(** [recv(fd, buffer, cap, 0)] on a blocking socket.  [incoming] holds
    the segments of the stream in the order they arrive: a call returns
    the first [cap] bytes of the next segment, or all of it when it is
    shorter.  The end of the list is the end of the connection, and a
    segment of no byte stands for an error.  A call for no byte returns
    0, which the source takes for the end of the connection. *)
Definition recv (incoming : list bytes) (cap : Z) : Received :=
  match incoming with
  | [] => Closed
  | [] :: _ => Failed
  | segment :: rest =>
      if cap <=? 0 then Closed
      else
        let n := Z.to_nat cap in
        Data (take n segment)
             (match drop n segment with
              | [] => rest
              | later => later :: rest
              end)
  end.

Definition client_text (L : Link) : string :=
  peer_ip (client L) +:+ ":" +:+ to_string (peer_port (client L)).

(** The [do ... while] that collects the control message.  [None] is
    the [return] of the thread.  Every turn adds a byte or more, so the
    loop takes 1024 turns at most. *)
Fixpoint recv_control_message (fuel : nat) (L : Link) (incoming : list bytes)
    (control_message : bytes) : M (option (bytes * list bytes)) :=
  match fuel with
  | O => throw
  | S fuel =>
      match recv incoming Constants.CONTROL_MESSAGE_MAX_SIZE with
      | Failed =>
          emit [EvPerror "Erro ao receber a mensagem de controle"] ;;;
          ret None
      | Closed =>
          logMessage INFO "Conexão fechada pelo cliente." ;;;
          ret None
      | Data control_message_buffer incoming =>
          let control_message := control_message ++ control_message_buffer in
          let control_message_total_bytes_received :=
            Z.of_nat (length control_message) in
          logMessage INFO
            ("Recebido " +:+ to_string (Z.of_nat (length control_message_buffer))
             +:+ " bytes da mensagem de controle de " +:+ client_text L
             +:+ " (" +:+ to_string control_message_total_bytes_received +:+ "/"
             +:+ to_string Constants.CONTROL_MESSAGE_MAX_SIZE +:+ " bytes).") ;;;
          if control_message_total_bytes_received <? Constants.CONTROL_MESSAGE_MAX_SIZE
          then recv_control_message fuel L incoming control_message
          else ret (Some (control_message, incoming))
      end
  end.

(** The declaration of [chunk_temp_buffer] next to [chunk_buffer]: an
    array of a negative number of elements, or of more than the stack
    has room for, leaves the computation without result. *)
Definition arrays_fit (L : Link) (chunk_size transfer_speed : Z) : bool :=
  (0 <=? transfer_speed)
  && (empty_array_ok L || negb (transfer_speed =? 0))
  && (chunk_size + transfer_speed <=? stack_room L).

(** The loop that collects the chunk.  [chunk_buffer] holds the bytes
    copied so far; [memcpy] of a block that ends past the end of the
    array leaves the computation without result. *)
Fixpoint recv_chunk (fuel : nat) (L : Link) (incoming : list bytes)
    (chunk_id transfer_speed chunk_size : Z) (chunk_buffer : bytes)
  : M (option (bytes * list bytes)) :=
  match fuel with
  | O => throw
  | S fuel =>
      let chunk_total_bytes_received := Z.of_nat (length chunk_buffer) in
      if chunk_total_bytes_received <? chunk_size then
        if negb (arrays_fit L chunk_size transfer_speed) then throw
        else
          match recv incoming transfer_speed with
          | Failed => emit [EvPerror "Erro ao receber o chunk."] ;;; ret None
          | Closed =>
              logMessage INFO "Conexão fechada pelo cliente." ;;;
              ret None
          | Data chunk_temp_buffer incoming =>
              let chunk_bytes_received := Z.of_nat (length chunk_temp_buffer) in
              if chunk_size <? chunk_total_bytes_received + chunk_bytes_received
              then throw
              else
                let chunk_buffer := chunk_buffer ++ chunk_temp_buffer in
                logMessage CHUNK_RECEIVED
                  ("Recebido " +:+ to_string chunk_bytes_received
                   +:+ " bytes do chunk " +:+ to_string chunk_id +:+ " de "
                   +:+ client_text L +:+ " ("
                   +:+ to_string (Z.of_nat (length chunk_buffer)) +:+ "/"
                   +:+ to_string chunk_size +:+ " bytes).") ;;;
                recv_chunk fuel L incoming chunk_id transfer_speed chunk_size
                           chunk_buffer
          end
      else ret (Some (chunk_buffer, incoming))
  end.

(** What follows the loop that collects the chunk: the chunk is saved,
    unless the loop ended the thread. *)
Definition save_received (L : Link) (file_name : string) (chunk_id : Z)
    (r : option (bytes * list bytes)) : M (option (list bytes)) :=
  match r with
  | None => ret None
  | Some (chunk_buffer, incoming) =>
      logMessage SUCCESS
        ("SUCESSO AO RECEBER O CHUNK " +:+ to_string chunk_id
         +:+ " DO ARQUIVO " +:+ file_name +:+ " de " +:+ client_text L) ;;;
      FileManager.saveChunk file_name chunk_id chunk_buffer ;;;
      ret (Some incoming)
  end.

(** One turn of the [while (true)] of [receiveChunks]: a control message
    and, for a PUT, the chunk it announces.  The result is what is left
    of the stream, or [None] when the thread returns. *)
Definition receive_frame (L : Link) (incoming : list bytes)
  : M (option (list bytes)) :=
  r <- recv_control_message
         (S (Z.to_nat Constants.CONTROL_MESSAGE_MAX_SIZE)) L incoming [] ;;
  match r with
  | None => ret None
  | Some (control_message, incoming) =>
      logMessage INFO
        ("Mensagem de controle '" +:+ string_of_list_ascii control_message
         +:+ "' recebida de " +:+ client_text L) ;;;
      let ss := {| pending := control_message; eofbit := false; failbit := false |} in
      let '(command, ss) := extract_word ss EmptyString in
      let '(file_name, ss) := extract_word ss EmptyString in
      let '(chunk_id, ss) := extract_int ss (indeterminate_chunk_id L) in
      let '(transfer_speed, ss) :=
        extract_int ss (indeterminate_transfer_speed L) in
      let '(chunk_size, _) := extract_size_t ss (indeterminate_chunk_size L) in
      if String.eqb command "PUT" then
        if (chunk_size =? 0) && negb (empty_array_ok L) then throw
        else if stack_room L <? chunk_size then throw
        else
          r <- recv_chunk (S (Z.to_nat chunk_size)) L incoming chunk_id
                 transfer_speed chunk_size [] ;;
          save_received L file_name chunk_id r
      else ret (Some incoming)
  end.

(** [receiveChunks]: frames are received until the thread returns.  A
    frame takes 1024 bytes or more off the stream, so [fuel] turns are
    enough when [fuel] is more than the number of bytes to come. *)
Fixpoint receiveChunks (fuel : nat) (L : Link) (incoming : list bytes) : M unit :=
  match fuel with
  | O => throw
  | S fuel =>
      r <- receive_frame L incoming ;;
      match r with
      | None => ret tt
      | Some incoming => receiveChunks fuel L incoming
      end
  end.

End Receiver.

(** A byte sequence cut into pieces, none of them empty. *)
Definition pieces_of (pieces : list bytes) (whole : bytes) : Prop :=
  concat pieces = whole /\ Forall (fun piece => piece <> []) pieces.

(** ** The chunks found at start-up *)

Module Store.

Definition with_directory (f : FileManagerState) v : FileManagerState :=
  {| peer_id := peer_id f; directory := v;
     local_chunks := local_chunks f;
     local_chunks_mutex := local_chunks_mutex f;
     file_chunks := file_chunks f;
     chunk_location_info := chunk_location_info f;
     chunk_location_info_mutex := chunk_location_info_mutex f |}.

(** The body of the loop of [loadLocalChunks] over the entries of the
    directory, on the name of one entry: a name with [.ch] in it is cut
    at the first one, and what follows goes through [std::stoi], which
    throws when that is no number.  The result is the file name to
    remember, if any. *)
Definition scan_entry (filename : string) : M (option string) :=
  match index 0 ".ch" filename with
  | None => ret None
  | Some pos =>
      let file_name := substring 0 pos filename in
      match stoi (substr_from (pos + 3) filename) with
      | None => throw
      | Some chunk_id =>
          f <- get_fm ;;
          let '(chunks, lc) := subscript ∅ (local_chunks f) file_name in
          put_fm (FileManager.with_local_chunks f
                    (<[file_name := {[chunk_id]} ∪ chunks]> lc)) ;;;
          ret (Some file_name)
      end
  end.

Fixpoint scan_entries (entries : list string) (unique_file_names : gset string)
  : M (gset string) :=
  match entries with
  | [] => ret unique_file_names
  | filename :: rest =>
      found <- scan_entry filename ;;
      scan_entries rest
        (match found with
         | Some file_name => {[file_name]} ∪ unique_file_names
         | None => unique_file_names
         end)
  end.

(** [loadLocalChunks].  [entries] are the names of the entries of the
    directory of the peer, in the order the iterator yields them;
    [directory_ready] is whether the directory is there or can be
    created, which the iteration needs. *)
Definition loadLocalChunks (directory_ready : bool) (entries : list string)
  : M unit :=
  f <- get_fm ;;
  put_fm (with_directory f (Constants.BASE_PATH +:+ peer_id f)) ;;;
  if negb directory_ready then throw
  else
    unique_file_names <- scan_entries entries ∅ ;;
    f <- get_fm ;;
    put_fm (FileManager.with_local_chunks_mutex f
              (unique_file_names ∪ local_chunks_mutex f)).

End Store.

(** The name of the artifact of a chunk inside the directory of the peer. *)
Definition chunk_file_name (file_name : string) (chunk : Z) : string :=
  file_name +:+ ".ch" +:+ to_string chunk.

(** A name [find(".ch")] finds nothing in. *)
Definition ch_free (s : string) : Prop := index 0 ".ch" s = None.

(** The entries [loadLocalChunks] is written for: artifacts of chunks, and
    names without [.ch]. *)
Definition well_named (entry : string) : Prop :=
  ch_free entry
  \/ exists file_name chunk,
       ch_free file_name /\ is_int chunk /\ entry = chunk_file_name file_name chunk.

(** An entry with [.ch] in its name and no number after the first one. *)
Definition stray (entry : string) : Prop :=
  exists pos, index 0 ".ch" entry = Some pos
              /\ stoi (substr_from (pos + 3) entry) = None.

(** ** More peers to run the functions on *)

Module Scenes.

(** A peer that counts both chunks of a two-chunk file as held, but
    whose artifact of chunk 1 is gone from the disk; an older assembled
    copy of the file is still there. *)
Definition lost_world : World :=
  {| fs := {| contents :=
                {[ "./src/1/book.txt.ch0" := list_ascii_of_string "once ";
                   "./src/1/book.txt" := list_ascii_of_string "once upon" ]};
              no_write := ∅ |};
     file_manager := Sample.complete;
     processing_active_map := ∅; trace := [] |}.

(** A peer in the middle of a search for a three-chunk file of which it
    holds chunk 0: the table is there and the window is open. *)
Definition searching_world : World :=
  {| fs := {| contents := {[ "./src/1/book.txt.ch0" := list_ascii_of_string "once " ]};
              no_write := ∅ |};
     file_manager :=
       {| peer_id := "1"; directory := "./src/1";
          local_chunks := {[ "book.txt" := {[ 0 ]} ]};
          local_chunks_mutex := {[ "book.txt" ]};
          file_chunks := {[ "book.txt" := 3 ]};
          chunk_location_info := {[ "book.txt" := [[]; []; []] ]};
          chunk_location_info_mutex := {[ "book.txt" ]} |};
     processing_active_map := {[ "book.txt" := true ]}; trace := [] |}.

(** The sample peer with a transfer rate of zero. *)
Definition idle_env : Env :=
  {| self_ip := "10.0.0.1"; self_port := 5001; self_tcp_port := 6001;
     self_id := 1; self_transfer_speed := 0;
     udpNeighbors := [("10.0.0.2", 5002); ("10.0.0.3", 5003)];
     std_sort := Sample.sort_by_speed;
     sendto_ok := fun _ _ _ => true;
     socket_ok := true;
     connect_ok := fun _ _ => true;
     indeterminate_total_chunks := 0;
     indeterminate_initial_ttl := 0 |}.

(** The sample peer on a network where no connection is accepted. *)
Definition cut_off_env : Env :=
  {| self_ip := "10.0.0.1"; self_port := 5001; self_tcp_port := 6001;
     self_id := 1; self_transfer_speed := 64;
     udpNeighbors := [("10.0.0.2", 5002); ("10.0.0.3", 5003)];
     std_sort := Sample.sort_by_speed;
     sendto_ok := fun _ _ _ => true;
     socket_ok := true;
     connect_ok := fun _ _ => false;
     indeterminate_total_chunks := 0;
     indeterminate_initial_ttl := 0 |}.

(** A connection from the sample sender, on a machine with room for
    64 KiB of arrays. *)
Definition link : Link :=
  {| client := {| peer_ip := "10.0.0.2"; peer_port := 40000 |};
     indeterminate_chunk_id := 0;
     indeterminate_transfer_speed := 0;
     indeterminate_chunk_size := 0;
     stack_room := 65536;
     empty_array_ok := true |}.

(** Locals that happen to hold zero before anything is read into them. *)
Definition unset : Indeterminate :=
  {| discovery_total_chunks := 0; discovery_ttl := 0;
     response_transfer_speed := 0; request_tcp_port := 0 |}.

(** The newcomer with a sidecar for [book.txt]: the name, 3 chunks and a
    TTL of 2, one to a line. *)
Definition sidecar_world : World :=
  {| fs := {| contents :=
                {[ "./src/book.txt.p2p" :=
                     sidecar_text "book.txt" 3 2 ["010"%char] ["010"%char] ]};
              no_write := ∅ |};
     file_manager := Sample.newcomer;
     processing_active_map := ∅; trace := [] |}.

(** The same with a count of -3. *)
Definition negative_sidecar_world : World :=
  {| fs := {| contents :=
                {[ "./src/book.txt.p2p" :=
                     sidecar_text "book.txt" (-3) 2 [" "%char] [] ]};
              no_write := ∅ |};
     file_manager := Sample.newcomer;
     processing_active_map := ∅; trace := [] |}.

(** The frame the sample peer sends before the four bytes of chunk 1. *)
Definition frame : bytes :=
  TCPServer.control_message_buffer
    (TCPServer.control_message_for Sample.env "book.txt" 1 4).

(** The directory of the sample peer as the disk of [Sample.world]
    has it, with the assembled file of another day. *)
Definition entries : list string :=
  ["book.txt.ch0"; "notes.txt"; "book.txt.ch2"]%string.

End Scenes.

(* ===================================================================== *)
(** * The datagram handlers *)
(* ===================================================================== *)

Lemma bind_some {A B} (c : M A) (k : A -> M B) (w w' : World) (a : A) :
  c w = Some (a, w') -> bind c k w = k a w'.
Proof. unfold bind. by intros ->. Qed.

Lemma with_events_app (w : World) (es1 es2 : list Event) :
  with_events (with_events w es1) es2 = with_events w (es1 ++ es2).
Proof. unfold with_events. simpl. by rewrite app_assoc. Qed.

Lemma with_events_nil (w : World) : with_events w [] = w.
Proof. destruct w. unfold with_events. simpl. by rewrite app_nil_r. Qed.

Lemma datagrams_app (es1 es2 : list Event) :
  datagrams (es1 ++ es2) = datagrams es1 ++ datagrams es2.
Proof. unfold datagrams. apply omap_app. Qed.

Lemma set_in_order_elem (s : gset Z) (c : Z) : c ∈ set_in_order s <-> c ∈ s.
Proof.
  unfold set_in_order. rewrite merge_sort_Permutation. apply elem_of_elements.
Qed.


Section Handlers.

Variable E : Env.

(** C5: a RESPONSE for a file whose window is not open is dropped: a line
    is logged, and neither the file manager (so no discovery table) nor
    the disk changes. *)
Theorem response_outside_window_dropped
    (w : World) (file_name : string) (speed : Z) (chunks : list Z)
    (sender : PeerInfo) :
  window_open w file_name = false ->
  exists w',
    UDPServer.processMessage E (RESPONSE file_name speed chunks) sender w
      = Some (tt, w')
    /\ file_manager w' = file_manager w
    /\ DiscoveryTable w' file_name = DiscoveryTable w file_name
    /\ fs w' = fs w
    /\ trace w' = trace w ++
         [EvLog OTHER ("Mensagem RESPONSE recebida para " +:+ file_name
                       +:+ ", mas o processamento está desativado.")]
    /\ window_open w' file_name = false.
Proof.
  unfold window_open, subscript. intros Hclosed.
  unfold UDPServer.processMessage, bind, get_active, subscript.
  destruct (processing_active_map w !! file_name) as [b|] eqn:Hm; simpl in *.
  - subst b. eexists. split; [reflexivity|]. simpl. rewrite Hm. auto.
  - eexists. split; [reflexivity|]. simpl. rewrite lookup_insert_eq. auto.
Qed.

End Handlers.

Lemma response_outside_window_dropped_witness :
  window_open Sample.world "book.txt" = false /\
  exists w',
    UDPServer.processMessage Sample.env (RESPONSE "book.txt" 100 [1; 3])
      Sample.sender Sample.world = Some (tt, w')
    /\ file_manager w' = file_manager Sample.world.
Proof.
  split; [reflexivity|].
  destruct (response_outside_window_dropped Sample.env Sample.world "book.txt"
              100 [1; 3] Sample.sender eq_refl) as (w' & H1 & H2 & _).
  exists w'. split; assumption.
Defined.

Section Discovery.

Variable E : Env.





(** C4: a DISCOVERY whose origin is this peer's own endpoint changes
    nothing and sends nothing, whatever its TTL and whatever the peer
    holds. *)
Theorem discovery_from_self_ignored
    (w : World) (file_name : string) (total_chunks ttl : Z)
    (origin : string) (sender : PeerInfo) :
  UDPServer.split_ip_port origin = Some (self_endpoint E) ->
  UDPServer.processMessage E (DISCOVERY file_name total_chunks ttl origin) sender w
    = Some (tt, w).
Proof.
  intros Horigin. simpl. unfold UDPServer.processChunkDiscoveryMessage.
  rewrite Horigin. unfold self_endpoint.
  rewrite !bool_decide_eq_true_2 by reflexivity. reflexivity.
Qed.


End Discovery.

(* ===================================================================== *)
(** * The chunk store *)
(* ===================================================================== *)

Lemma append_empty_r (s : string) : s +:+ EmptyString = s.
Proof.
  induction s as [|c s IH]; [reflexivity|].
  change (String c (s +:+ EmptyString) = String c s). by rewrite IH.
Qed.

Lemma chunk_path_not_output (f : FileManagerState) (file_name : string) (i : Z) :
  FileManager.getChunkPath f file_name i <> directory f +:+ "/" +:+ file_name.
Proof.
  unfold FileManager.getChunkPath. intros H.
  apply (inj (String.app _)) in H. apply (inj (String.app _)) in H.
  rewrite <- (append_empty_r file_name) in H at 2.
  apply (inj (String.app _)) in H. discriminate H.
Qed.

Section Assembly.

Variable file_name : string.

Lemma insert_rdbuf_run (out : string) (fail : bool) (data : bytes) (w : World) :
  exists fail' w',
    FileManager.insert_rdbuf out fail data w = Some (fail', w')
    /\ file_manager w' = file_manager w
    /\ processing_active_map w' = processing_active_map w
    /\ trace w' = trace w
    /\ no_write (fs w') = no_write (fs w)
    /\ (forall p, p <> out -> contents (fs w') !! p = contents (fs w) !! p)
    /\ (fail = false -> data <> [] -> fail' = false)
    /\ (fail' = false ->
        default [] (contents (fs w') !! out)
        = default [] (contents (fs w) !! out) ++ data)
    /\ (fail = true -> fail' = true /\ fs w' = fs w)
    /\ (is_Some (contents (fs w) !! out) -> is_Some (contents (fs w') !! out)).
Proof.
  unfold FileManager.insert_rdbuf. destruct fail.
  - exists true, w. repeat split; try done.
  - destruct data as [|c data].
    + exists true, w. repeat split; try done.
    + exists false. eexists. split; [reflexivity|]. simpl.
      repeat split; try done.
      * intros p Hp. by rewrite lookup_insert_ne.
      * by rewrite lookup_insert_eq.
      * rewrite lookup_insert_eq. eauto.
Qed.

(** The copying loop always ends; it reports success exactly when every
    artifact it is given can be opened, and then the output holds what it
    held before followed by the chunks, provided the stream never
    failed. *)
Lemma copy_chunks_run (out : string) (ids : list Z) :
  forall (fail : bool) (w : World),
    (forall i, FileManager.getChunkPath (file_manager w) file_name i <> out) ->
    exists b w',
      FileManager.copy_chunks file_name ids out fail w = Some (b, w')
      /\ file_manager w' = file_manager w
      /\ processing_active_map w' = processing_active_map w
      /\ no_write (fs w') = no_write (fs w)
      /\ (forall p, p <> out -> contents (fs w') !! p = contents (fs w) !! p)
      /\ (b = true <-> Forall (chunk_readable w file_name) ids)
      /\ (b = true -> trace w' = trace w)
      /\ (b = true -> fail = false ->
          Forall (fun i => chunk_bytes w file_name i <> []) ids ->
          default [] (contents (fs w') !! out)
          = default [] (contents (fs w) !! out)
            ++ flat_map (chunk_bytes w file_name) ids)
      /\ (fail = true -> fs w' = fs w)
      /\ (is_Some (contents (fs w) !! out) -> is_Some (contents (fs w') !! out)).
Proof.
  induction ids as [|i ids IH]; intros fail w Hout.
  - exists true, w. repeat split; try done.
    intros. simpl. by rewrite app_nil_r.
  - cbn [FileManager.copy_chunks]. unfold bind at 1. unfold get_fm at 1.
    unfold bind at 1. unfold get_fs at 1.
    destruct (contents (fs w) !! FileManager.getChunkPath (file_manager w) file_name i)
      as [data|] eqn:Hdata.
    + destruct (insert_rdbuf_run out fail data w)
        as (fail1 & w1 & Hrun1 & Hfm1 & Hact1 & Htr1 & Hnw1 & Hother1 & Hok1 & Happ1 & Hfail1 & Hsome1).
      rewrite (bind_some _ _ _ _ _ Hrun1).
      destruct (IH fail1 w1) as (b & w' & Hrun & Hfm & Hact & Hnw & Hother & Hb & Htr & Happ & Hfail & Hsome).
      { intros j. rewrite Hfm1. apply Hout. }
      assert (Hrd : forall j, chunk_readable w1 file_name j <-> chunk_readable w file_name j).
      { intros j. unfold chunk_readable. rewrite Hfm1, Hother1; [done|apply Hout]. }
      assert (Hby : forall j, chunk_bytes w1 file_name j = chunk_bytes w file_name j).
      { intros j. unfold chunk_bytes. rewrite Hfm1, Hother1; [done|apply Hout]. }
      exists b, w'. split; [exact Hrun|].
      split; [congruence|]. split; [congruence|]. split; [congruence|].
      split. { intros p Hp. rewrite Hother, Hother1; done. }
      split.
      { rewrite Hb, Forall_cons. split.
        - intros H. split; [unfold chunk_readable; rewrite Hdata; eauto|].
          eapply Forall_impl; [exact H|]. intros j. apply Hrd.
        - intros [_ H]. eapply Forall_impl; [exact H|]. intros j. apply Hrd. }
      split. { intros Hbt. rewrite Htr, Htr1; done. }
      split.
      { intros Hbt Hf Hne. apply Forall_cons in Hne as [Hne1 Hne].
        assert (chunk_bytes w file_name i = data) as Hi.
        { unfold chunk_bytes. by rewrite Hdata. }
        rewrite Hi in Hne1. specialize (Hok1 Hf Hne1).
        rewrite Happ; [|done|done|].
        - rewrite Happ1 by done. cbn [flat_map]. rewrite Hi, <- app_assoc.
          f_equal. f_equal. apply flat_map_ext. intros. apply Hby.
        - eapply Forall_impl; [exact Hne|]. intros j. by rewrite Hby. }
      split; [|by auto].
      intros Hf. destruct (Hfail1 Hf) as [-> Hfs1]. rewrite Hfail; done.
    + unfold bind at 1. unfold logMessage, emit, ret.
      eexists false, _. split; [reflexivity|]. cbn [fs file_manager with_events processing_active_map].
      repeat split; try done.
      intros H. apply Forall_cons in H as [[d Hd] _].
      unfold chunk_readable in Hd. congruence.
Qed.

Lemma subscript_fst {V} (d : V) (m : gmap string V) (k : string) :
  (subscript d m k).1 = default d (m !! k).
Proof. unfold subscript. by destruct (m !! k). Qed.

Lemma subscript_snd_lookup {V} (d : V) (m : gmap string V) (k : string) :
  (subscript d m k).2 !! k = Some (default d (m !! k)).
Proof.
  unfold subscript. destruct (m !! k) eqn:H; simpl; [done|].
  by rewrite lookup_insert_eq.
Qed.

Lemma assembleFile_unfold (w : World) :
  FileManager.assembleFile file_name w
  = if Z.of_nat (size (LocalChunkSet w file_name))
       =? to_size_t (total_chunks_of w file_name)
    then
      bind (FileManager.open_ofstream (output_path w file_name))
        (fun out_fail =>
           copied <- FileManager.copy_chunks file_name
                       (FileManager.chunk_indices (total_chunks_of w file_name))
                       (output_path w file_name) out_fail ;;
           if copied then
             emit [EvSuccess file_name (peer_id (file_manager w))] ;;;
             FileManager.clearChunkLocationInfo file_name ;;;
             ret true
           else ret false)
        (counted file_name w)
    else Some (false, counted file_name w).
Proof.
  unfold FileManager.assembleFile, LocalChunkSet, total_chunks_of, counted,
    output_path.
  unfold bind at 1. unfold get_fm at 1.
  rewrite <- !subscript_fst.
  destruct (subscript 0 (file_chunks (file_manager w)) file_name) as [total fc].
  destruct (subscript ∅ (local_chunks (file_manager w)) file_name) as [chunks lc].
  cbn [fst snd]. unfold bind at 1. unfold put_fm at 1.
  destruct (Z.of_nat (size chunks) =? to_size_t total); reflexivity.
Qed.

Lemma LocalChunkSet_counted (w : World) :
  LocalChunkSet (counted file_name w) file_name = LocalChunkSet w file_name.
Proof.
  unfold LocalChunkSet, counted. cbn [file_manager].
  cbn [FileManager.with_local_chunks local_chunks].
  by rewrite subscript_snd_lookup.
Qed.

(** [assembleFile] always returns.  It returns [true] exactly when the
    local set has as many elements as the chunk count converted to
    [size_t] and every artifact from 0 up to the count can be opened.  When
    it returns [true] the table and the mutex of the file are gone; the
    assembled file holds the chunks in order if it could be opened for
    writing and no chunk is empty, and the disk is as it was if it could
    not be opened. *)
Lemma assembleFile_run (w : World) :
  let total := total_chunks_of w file_name in
  let out := output_path w file_name in
  exists b w',
    FileManager.assembleFile file_name w = Some (b, w')
    /\ (b = true <->
        Z.of_nat (size (LocalChunkSet w file_name)) = to_size_t total
        /\ Forall (chunk_readable w file_name) (FileManager.chunk_indices total))
    /\ (b = true ->
        chunk_location_info (file_manager w') !! file_name = None
        /\ (file_name ∉ chunk_location_info_mutex (file_manager w'))
        /\ trace w' = trace w ++ [EvSuccess file_name (peer_id (file_manager w))])
    /\ (b = true -> out ∉ no_write (fs w) ->
        Forall (fun i => chunk_bytes w file_name i <> [])
               (FileManager.chunk_indices total) ->
        contents (fs w') !! out
        = Some (flat_map (chunk_bytes w file_name)
                         (FileManager.chunk_indices total)))
    /\ (b = true -> out ∈ no_write (fs w) -> fs w' = fs w)
    /\ LocalChunkSet w' file_name = LocalChunkSet w file_name
    /\ processing_active_map w' = processing_active_map w.
Proof.
  intros total out. rewrite assembleFile_unfold. fold total out.
  destruct (Z.of_nat (size (LocalChunkSet w file_name)) =? to_size_t total) eqn:Hsize.
  2:{ exists false, (counted file_name w). split; [reflexivity|].
      apply Z.eqb_neq in Hsize.
      repeat split; try done; try (intros [? ?]; done).
      apply LocalChunkSet_counted. }
  apply Z.eqb_eq in Hsize.
  unfold bind at 1. unfold FileManager.open_ofstream at 1.
  unfold bind at 1. unfold get_fs at 1. cbn [fs counted].
  set (w2 := fun c : gmap string bytes =>
               {| fs := {| contents := c; no_write := no_write (fs w) |};
                  file_manager := file_manager (counted file_name w);
                  processing_active_map := processing_active_map w;
                  trace := trace w |}).
  assert (Hpath : forall c i,
             FileManager.getChunkPath (file_manager (w2 c)) file_name i <> out).
  { intros c i. apply chunk_path_not_output. }
  assert (Hrd : forall c, (forall p, p <> out -> c !! p = contents (fs w) !! p) ->
              forall i, (chunk_readable (w2 c) file_name i <-> chunk_readable w file_name i)
                        /\ chunk_bytes (w2 c) file_name i = chunk_bytes w file_name i).
  { intros c Hc i. unfold chunk_readable, chunk_bytes. cbn [fs contents w2].
    change (FileManager.getChunkPath (file_manager (w2 c)) file_name i)
      with (FileManager.getChunkPath (file_manager w) file_name i).
    rewrite Hc; [done|]. apply chunk_path_not_output. }
  case_bool_decide as Hnw.
  - (* the output stream could not be opened *)
    unfold ret at 1.
    destruct (copy_chunks_run out (FileManager.chunk_indices total) true
                (w2 (contents (fs w))))
      as (b & w3 & Hrun & Hfm & Hact & Hnw3 & Hother & Hb & Htr & _ & Hfail & _);
      [apply Hpath|].
    assert (w2 (contents (fs w)) = counted file_name w) as Hw2.
    { unfold w2, counted. destruct w as [[c n] ? ? ?]. reflexivity. }
    rewrite Hw2 in Hrun. rewrite (bind_some _ _ _ _ _ Hrun).
    assert (Hb' : b = true <-> Forall (chunk_readable w file_name)
                                      (FileManager.chunk_indices total)).
    { rewrite Hb. split; intros H; (eapply Forall_impl; [exact H|]);
        intros i; apply (Hrd (contents (fs w))); done. }
    destruct b.
    + eexists true, _. split; [reflexivity|].
      cbn [file_manager FileManager.with_chunk_location_info_mutex
           FileManager.with_chunk_location_info chunk_location_info
           chunk_location_info_mutex with_events trace fs processing_active_map].
      split; [split; [intros _; split; [done|by apply Hb']|done]|].
      split. { intros _. rewrite lookup_delete_eq. split; [done|].
               split; [set_solver|]. by rewrite Htr. }
      split; [done|].
      split. { intros _ _. rewrite Hfail by done. rewrite Hw2. reflexivity. }
      split; [|done].
      unfold LocalChunkSet at 1. cbn [file_manager local_chunks
        FileManager.with_chunk_location_info_mutex FileManager.with_chunk_location_info].
      rewrite Hfm. apply LocalChunkSet_counted.
    + exists false, w3. split; [reflexivity|].
      split. { split; [done|]. intros [_ H]. by apply Hb'. }
      repeat split; try done.
      unfold LocalChunkSet at 1. rewrite Hfm. apply LocalChunkSet_counted.
  - (* the output file is created empty *)
    unfold bind at 1. unfold put_fs at 1. cbn [fs counted file_manager
      processing_active_map trace contents no_write]. unfold ret at 1.
    destruct (copy_chunks_run out (FileManager.chunk_indices total) false
                (w2 (<[out := []]> (contents (fs w)))))
      as (b & w3 & Hrun & Hfm & Hact & Hnw3 & Hother & Hb & Htr & Happ & _ & Hsome);
      [apply Hpath|].
    erewrite bind_some; [|exact Hrun].
    assert (Hc : forall p, p <> out ->
               <[out := []]> (contents (fs w)) !! p = contents (fs w) !! p).
    { intros p Hp. by rewrite lookup_insert_ne. }
    assert (Hb' : b = true <-> Forall (chunk_readable w file_name)
                                      (FileManager.chunk_indices total)).
    { rewrite Hb. split; intros H; (eapply Forall_impl; [exact H|]);
        intros i; apply (Hrd _ Hc). }
    destruct b.
    + eexists true, _. split; [reflexivity|].
      cbn [file_manager FileManager.with_chunk_location_info_mutex
           FileManager.with_chunk_location_info chunk_location_info
           chunk_location_info_mutex with_events trace fs processing_active_map].
      split; [split; [intros _; split; [done|by apply Hb']|done]|].
      split. { intros _. rewrite lookup_delete_eq. split; [done|].
               split; [set_solver|]. by rewrite Htr. }
      split.
      { intros _ _ Hne.
        assert (default [] (contents (fs w3) !! out)
                = flat_map (chunk_bytes w file_name) (FileManager.chunk_indices total)) as Hd.
        { rewrite Happ; [| done | done |].
          - cbn [fs contents w2]. rewrite lookup_insert_eq. cbn [default from_option id app].
            apply flat_map_ext. intros i. apply (Hrd _ Hc).
          - eapply Forall_impl; [exact Hne|]. intros i.
            destruct (Hrd _ Hc i) as [_ ->]. done. }
        destruct (contents (fs w3) !! out) as [d|] eqn:Hout3; [simpl in Hd; by subst|].
        exfalso. destruct Hsome as [d Hd'].
        { cbn [fs contents w2]. rewrite lookup_insert_eq. eauto. }
        congruence. }
      split; [done|].
      split; [|done].
      unfold LocalChunkSet at 1. cbn [file_manager local_chunks
        FileManager.with_chunk_location_info_mutex FileManager.with_chunk_location_info].
      rewrite Hfm. apply LocalChunkSet_counted.
    + exists false, w3. split; [reflexivity|].
      split. { split; [done|]. intros [_ H]. by apply Hb'. }
      repeat split; try done.
      unfold LocalChunkSet at 1. rewrite Hfm. apply LocalChunkSet_counted.
Qed.

End Assembly.

Lemma insert_subscript {V} (d v : V) (m : gmap string V) (k : string) :
  <[k := v]> (subscript d m k).2 = <[k := v]> m.
Proof.
  unfold subscript. destruct (m !! k); [done|]. cbn [snd].
  apply insert_insert_eq.
Qed.

(** C10: when the artifact of the chunk cannot be opened for writing,
    [saveChunk] logs the failure and returns: the local chunk sets, the chunk
    counts, the discovery tables and the disk are as before, so nothing was
    inserted and no assembly was attempted.  When it can be opened,
    [saveChunk] is the assembly attempt made once the bytes are written and
    the chunk is in the local set. *)
Theorem saveChunk_open_failure
    (w : World) (file_name : string) (chunk : Z) (data : bytes) :
  exists w',
    FileManager.saveChunk file_name chunk data w = Some (tt, w')
    /\ if bool_decide (FileManager.getChunkPath (file_manager w) file_name chunk
                         ∈ no_write (fs w))
       then
         local_chunks (file_manager w') = local_chunks (file_manager w)
         /\ LocalChunkSet w' file_name = LocalChunkSet w file_name
         /\ file_chunks (file_manager w') = file_chunks (file_manager w)
         /\ chunk_location_info (file_manager w') = chunk_location_info (file_manager w)
         /\ chunk_location_info_mutex (file_manager w')
            = chunk_location_info_mutex (file_manager w)
         /\ fs w' = fs w
         /\ trace w' = trace w ++
              [EvLog ERROR ("Não foi possível criar o arquivo para o chunk "
                            +:+ to_string chunk)]
       else
         exists assembled,
           FileManager.assembleFile file_name (chunk_saved w file_name chunk data)
           = Some (assembled, w').
Proof.
  unfold FileManager.saveChunk, FileManager.lock_local_chunks.
  unfold bind at 1. unfold bind at 1. unfold get_fm at 1. unfold put_fm at 1.
  unfold bind at 1. unfold get_fm at 1. unfold bind at 1. unfold get_fs at 1.
  cbn [file_manager fs].
  change (FileManager.getChunkPath
            (FileManager.with_local_chunks_mutex (file_manager w)
               ({[file_name]} ∪ local_chunks_mutex (file_manager w)))
            file_name chunk)
    with (FileManager.getChunkPath (file_manager w) file_name chunk).
  case_bool_decide as Hnw.
  - eexists. split; [reflexivity|]. cbn. repeat split; reflexivity.
  - unfold bind at 1. unfold put_fs at 1. cbn [fs file_manager processing_active_map trace].
    cbn [local_chunks FileManager.with_local_chunks_mutex].
    destruct (subscript ∅ (local_chunks (file_manager w)) file_name) as [chunks lc] eqn:Hsub.
    unfold bind at 1. unfold put_fm at 1.
    cbn [fs file_manager processing_active_map trace].
    assert (chunks = LocalChunkSet w file_name) as Hchunks.
    { change chunks with (chunks, lc).1. rewrite <- Hsub.
      unfold LocalChunkSet. apply subscript_fst. }
    rewrite Hchunks. clear Hchunks.
    assert (<[file_name := {[chunk]} ∪ LocalChunkSet w file_name]> lc
            = <[file_name := {[chunk]} ∪ LocalChunkSet w file_name]>
                (local_chunks (file_manager w))) as ->.
    { change lc with (chunks, lc).2. rewrite <- Hsub. apply insert_subscript. }
    match goal with
    | |- context [bind (FileManager.assembleFile file_name) _ ?w1] =>
        change w1 with (chunk_saved w file_name chunk data)
    end.
    destruct (assembleFile_run file_name (chunk_saved w file_name chunk data))
      as (b & w' & Hrun & _).
    exists w'. rewrite (bind_some _ _ _ _ _ Hrun). split; [reflexivity|].
    exists b. exact Hrun.
Qed.

(** C2, at a peer that holds both chunks of a two-chunk file but cannot open
    the assembled file for writing: [assembleFile] returns [true], announces
    the success and destroys the discovery state of the file, and there is
    no assembled file; the chunks in order are the nine bytes of
    "once upon". *)
Theorem assembleFile_true_without_output :
  exists w',
    FileManager.assembleFile "book.txt" Sample.blocked_world = Some (true, w')
    /\ output_path Sample.blocked_world "book.txt" = "./src/1/book.txt"
    /\ contents (fs w') !! "./src/1/book.txt" = None
    /\ flat_map (chunk_bytes Sample.blocked_world "book.txt")
                (FileManager.chunk_indices 2)
       = list_ascii_of_string "once upon"
    /\ chunk_location_info (file_manager w') !! "book.txt" = None
    /\ trace w' = [EvSuccess "book.txt" "1"].
Proof.
  eexists. split; [vm_compute; reflexivity|].
  repeat split; vm_compute; reflexivity.
Qed.

(** With every file writable and an empty artifact for chunk 0, the
    insertion of chunk 0 leaves the output stream failed: [assembleFile]
    returns [true] and the assembled file is empty, not the bytes of chunk
    1. *)
Lemma assembleFile_true_after_empty_chunk :
  exists w',
    FileManager.assembleFile "book.txt" Sample.hollow_world = Some (true, w')
    /\ contents (fs w') !! "./src/1/book.txt" = Some []
    /\ flat_map (chunk_bytes Sample.hollow_world "book.txt")
                (FileManager.chunk_indices 2)
       = list_ascii_of_string "upon".
Proof.
  eexists. split; [vm_compute; reflexivity|].
  repeat split; vm_compute; reflexivity.
Qed.

(* ===================================================================== *)
(** * The discovery table *)
(* ===================================================================== *)

Section Recording.

Variables (file_name ip' : string) (port' speed : Z).

Lemma to_size_t_in_range (table : list (list ChunkLocationInfo)) (chunk_id : Z) :
  is_int chunk_id -> vector_size (length table) ->
  (to_size_t chunk_id <? Z.of_nat (length table)) = chunk_in_range table chunk_id
  /\ (chunk_in_range table chunk_id = true -> to_size_t chunk_id = chunk_id).
Proof.
  unfold is_int, INT_MIN, INT_MAX, vector_size, to_size_t, chunk_in_range.
  intros Hint Hsize.
  destruct (Z.leb_spec 0 chunk_id) as [Hpos|Hneg]; cbn [andb].
  - rewrite Z.mod_small by lia. done.
  - split; [|done]. apply Z.ltb_ge.
    replace chunk_id with (chunk_id + 2 ^ 64 + (-1) * 2 ^ 64) by lia.
    rewrite Z.mod_add by lia. rewrite Z.mod_small by lia. lia.
Qed.

Lemma recorded_NoDup (providers : list ChunkLocationInfo) :
  NoDup (map endpoint providers) ->
  NoDup (map endpoint (recorded ip' port' speed providers)).
Proof.
  intros Hnd. unfold recorded.
  destruct (existsb _ providers) eqn:Hex; [done|].
  rewrite map_app. cbn [map endpoint ip port].
  apply NoDup_app. split; [done|]. split; [|apply NoDup_singleton].
  intros e He Hin. apply list_elem_of_singleton in Hin. subst e.
  apply list_elem_of_fmap in He as (p & Hp & Hin).
  assert (existsb (FileManager.same_endpoint ip' port') providers = true) as Habs.
  { apply existsb_exists. exists p. split; [by apply list_elem_of_In|].
    unfold FileManager.same_endpoint. unfold endpoint in Hp.
    injection Hp as Hip Hport.
    rewrite !bool_decide_eq_true_2 by done. done. }
  congruence.
Qed.

Lemma recorded_idem (providers : list ChunkLocationInfo) :
  recorded ip' port' speed (recorded ip' port' speed providers)
  = recorded ip' port' speed providers.
Proof.
  unfold recorded at 2.
  destruct (existsb _ providers) eqn:Hex.
  - unfold recorded. by rewrite Hex.
  - unfold recorded. rewrite existsb_app, Hex. cbn [existsb orb].
    unfold FileManager.same_endpoint. cbn [ip port].
    rewrite !bool_decide_eq_true_2 by done. reflexivity.
Qed.

Lemma recorded_has (providers : list ChunkLocationInfo) :
  (ip', port') ∈ map endpoint (recorded ip' port' speed providers).
Proof.
  unfold recorded. destruct (existsb _ providers) eqn:Hex.
  - apply existsb_exists in Hex as (p & Hin & Hp).
    apply list_elem_of_fmap. exists p. split; [|by apply list_elem_of_In].
    unfold FileManager.same_endpoint in Hp.
    apply andb_true_iff in Hp as [H1 H2].
    apply bool_decide_eq_true in H1, H2. unfold endpoint. congruence.
  - rewrite map_app. apply elem_of_app. right.
    apply list_elem_of_singleton. reflexivity.
Qed.

Lemma store_chunk_id_run (chunk_id : Z) (w : World) :
  is_int chunk_id -> vector_size (length (DiscoveryTable w file_name)) ->
  exists w',
    FileManager.store_chunk_id file_name ip' port' speed chunk_id w = Some (tt, w')
    /\ DiscoveryTable w' file_name = table_step ip' port' speed (DiscoveryTable w file_name) chunk_id
    /\ (forall other, other <> file_name ->
        chunk_location_info (file_manager w') !! other
        = chunk_location_info (file_manager w) !! other)
    /\ trace w' = trace w ++
         (if chunk_in_range (DiscoveryTable w file_name) chunk_id then []
          else [out_of_range_line file_name chunk_id])
    /\ fs w' = fs w
    /\ local_chunks (file_manager w') = local_chunks (file_manager w)
    /\ file_chunks (file_manager w') = file_chunks (file_manager w)
    /\ processing_active_map w' = processing_active_map w.
Proof.
  intros Hint Hsize.
  unfold FileManager.store_chunk_id. unfold bind at 1. unfold get_fm at 1.
  assert (Hsub : subscript [] (chunk_location_info (file_manager w)) file_name
                 = (DiscoveryTable w file_name,
                    (subscript [] (chunk_location_info (file_manager w)) file_name).2)).
  { rewrite (surjective_pairing (subscript _ _ _)) at 1. f_equal.
    apply subscript_fst. }
  rewrite Hsub. clear Hsub.
  set (table := DiscoveryTable w file_name) in *.
  set (info := (subscript [] (chunk_location_info (file_manager w)) file_name).2).
  assert (Hinfo : info !! file_name = Some table) by apply subscript_snd_lookup.
  assert (Hinfo' : forall other, other <> file_name ->
             info !! other = chunk_location_info (file_manager w) !! other).
  { intros other Hne. unfold info, subscript.
    destruct (chunk_location_info (file_manager w) !! file_name); [done|].
    cbn [snd]. by rewrite lookup_insert_ne. }
  destruct (to_size_t_in_range table chunk_id Hint Hsize) as [-> Hidx].
  unfold table_step. destruct (chunk_in_range table chunk_id) eqn:Hrange.
  - rewrite (Hidx eq_refl).
    unfold chunk_in_range in Hrange. apply andb_true_iff in Hrange as [H0 Hlt].
    apply Z.leb_le in H0. apply Z.ltb_lt in Hlt.
    destruct (table !! Z.to_nat chunk_id) as [chunk_list|] eqn:Hl.
    2:{ apply lookup_ge_None in Hl. lia. }
    eexists. split; [reflexivity|].
    unfold DiscoveryTable at 1.
    cbn [file_manager chunk_location_info FileManager.with_chunk_location_info
         trace fs local_chunks file_chunks processing_active_map].
    rewrite lookup_insert_eq. cbn [default from_option id].
    split.
    { apply list_eq. intros j. destruct (decide (j = Z.to_nat chunk_id)) as [->|Hne].
      - rewrite list_lookup_insert_eq by (apply lookup_lt_Some in Hl; done).
        rewrite list_lookup_alter_eq, Hl. reflexivity.
      - rewrite list_lookup_insert_ne by done.
        by rewrite list_lookup_alter_ne. }
    split. { intros other Hne. rewrite lookup_insert_ne by done. by apply Hinfo'. }
    rewrite app_nil_r. repeat split; reflexivity.
  - unfold bind at 1. unfold put_fm at 1. unfold logMessage, emit.
    eexists. split; [reflexivity|].
    unfold DiscoveryTable at 1.
    cbn [file_manager chunk_location_info FileManager.with_chunk_location_info
         trace fs local_chunks file_chunks processing_active_map with_events].
    rewrite Hinfo. repeat split; try reflexivity. exact Hinfo'.
Qed.

Lemma table_step_length (table : list (list ChunkLocationInfo)) (chunk_id : Z) :
  length (table_step ip' port' speed table chunk_id) = length table.
Proof.
  unfold table_step. destruct (chunk_in_range table chunk_id); [|done].
  apply length_alter.
Qed.

Lemma table_step_lookup (table : list (list ChunkLocationInfo)) (chunk_id : Z) (j : nat) :
  table_step ip' port' speed table chunk_id !! j
  = (if bool_decide (chunk_id = Z.of_nat j) then recorded ip' port' speed else id)
      <$> table !! j.
Proof.
  unfold table_step. destruct (chunk_in_range table chunk_id) eqn:Hrange.
  - unfold chunk_in_range in Hrange. apply andb_true_iff in Hrange as [H0 Hlt].
    apply Z.leb_le in H0. apply Z.ltb_lt in Hlt.
    case_bool_decide as Hj.
    + subst chunk_id. rewrite Nat2Z.id. by rewrite list_lookup_alter_eq.
    + rewrite list_lookup_alter_ne by lia. by destruct (table !! j).
  - case_bool_decide as Hj; [|by destruct (table !! j)].
    subst chunk_id. unfold chunk_in_range in Hrange.
    apply andb_false_iff in Hrange as [H|H].
    + apply Z.leb_gt in H. lia.
    + apply Z.ltb_ge in H. rewrite lookup_ge_None_2 by lia. done.
Qed.

(** The table of the file after the whole loop. *)
Lemma store_loop_run (chunk_ids : list Z) :
  forall w : World,
    Forall is_int chunk_ids -> vector_size (length (DiscoveryTable w file_name)) ->
    exists w',
      for_each chunk_ids
        (FileManager.store_chunk_id file_name ip' port' speed) w = Some (tt, w')
      /\ length (DiscoveryTable w' file_name) = length (DiscoveryTable w file_name)
      /\ (forall j,
           DiscoveryTable w' file_name !! j
           = (if bool_decide (Z.of_nat j ∈ chunk_ids)
              then recorded ip' port' speed else id)
               <$> DiscoveryTable w file_name !! j)
      /\ (forall other, other <> file_name ->
          chunk_location_info (file_manager w') !! other
          = chunk_location_info (file_manager w) !! other)
      /\ trace w' = trace w ++
           map (out_of_range_line file_name)
               (filter (fun chunk_id =>
                          chunk_in_range (DiscoveryTable w file_name) chunk_id = false)
                       chunk_ids)
      /\ fs w' = fs w
      /\ local_chunks (file_manager w') = local_chunks (file_manager w)
      /\ file_chunks (file_manager w') = file_chunks (file_manager w)
      /\ processing_active_map w' = processing_active_map w.
Proof.
  induction chunk_ids as [|chunk_id ids IH]; intros w Hint Hsize.
  - exists w. split; [reflexivity|]. split; [done|].
    split. { intros j. by destruct (DiscoveryTable w file_name !! j). }
    split; [done|]. cbn [filter map]. rewrite app_nil_r. done.
  - apply Forall_cons in Hint as [Hint1 Hint].
    destruct (store_chunk_id_run chunk_id w Hint1 Hsize)
      as (w1 & Hrun1 & Ht1 & Ho1 & Htr1 & Hfs1 & Hlc1 & Hfc1 & Hact1).
    assert (Hlen1 : length (DiscoveryTable w1 file_name)
                    = length (DiscoveryTable w file_name)).
    { rewrite Ht1. apply table_step_length. }
    destruct (IH w1 Hint) as (w' & Hrun & Hlen & Hlook & Ho & Htr & Hfs & Hlc & Hfc & Hact).
    { unfold vector_size in *. by rewrite Hlen1. }
    exists w'. cbn [for_each]. rewrite (bind_some _ _ _ _ _ Hrun1).
    split; [exact Hrun|]. split; [congruence|].
    split.
    { intros j. rewrite Hlook, Ht1, table_step_lookup.
      destruct (DiscoveryTable w file_name !! j) as [l|]; [|done].
      cbn [fmap option_fmap option_map]. f_equal.
      destruct (decide (chunk_id = Z.of_nat j)) as [Heq|Hne].
      - rewrite (bool_decide_eq_true_2 (chunk_id = Z.of_nat j)) by done.
        rewrite (bool_decide_eq_true_2 (Z.of_nat j ∈ chunk_id :: ids))
          by (subst; apply list_elem_of_here).
        case_bool_decide; [apply recorded_idem|done].
      - rewrite (bool_decide_eq_false_2 (chunk_id = Z.of_nat j)) by done.
        rewrite (bool_decide_ext (Z.of_nat j ∈ chunk_id :: ids) (Z.of_nat j ∈ ids));
          [done|]. rewrite elem_of_cons. naive_solver. }
    split. { intros other Hne. rewrite Ho, Ho1; done. }
    split.
    { rewrite Htr, Htr1, <- app_assoc. f_equal.
      assert (Hsame : forall c, chunk_in_range (DiscoveryTable w1 file_name) c
                            = chunk_in_range (DiscoveryTable w file_name) c).
      { intros c. unfold chunk_in_range. by rewrite Hlen1. }
      rewrite filter_cons.
      replace (filter (fun c => chunk_in_range (DiscoveryTable w1 file_name) c = false) ids)
        with (filter (fun c => chunk_in_range (DiscoveryTable w file_name) c = false) ids).
      2:{ apply list_filter_iff. intros c. by rewrite Hsame. }
      destruct (chunk_in_range (DiscoveryTable w file_name) chunk_id) eqn:Hr.
      - rewrite decide_False by done. reflexivity.
      - rewrite decide_True by done. reflexivity. }
    repeat split; congruence.
Qed.

End Recording.

(** C6: a call of [storeChunkLocationInfo] keeps every list of every table
    free of two records for one endpoint.  The table of the file keeps its
    length; the list of a chunk named in the call has the provider recorded
    (added at the end unless its endpoint was there already), the list of
    any other chunk is as before; and one error line is logged for each
    chunk ID of the call outside the table, in the order of the call. *)
Theorem storeChunkLocationInfo_records_once
    (w : World) (file_name : string) (chunk_ids : list Z)
    (ip' : string) (port' speed : Z) :
  Forall is_int chunk_ids ->
  vector_size (length (DiscoveryTable w file_name)) ->
  exists w',
    FileManager.storeChunkLocationInfo file_name chunk_ids ip' port' speed w
      = Some (tt, w')
    /\ (tables_deduplicated w -> tables_deduplicated w')
    /\ length (DiscoveryTable w' file_name) = length (DiscoveryTable w file_name)
    /\ (forall j providers,
         DiscoveryTable w file_name !! j = Some providers ->
         DiscoveryTable w' file_name !! j
         = Some (if bool_decide (Z.of_nat j ∈ chunk_ids)
                 then recorded ip' port' speed providers else providers))
    /\ (forall j providers,
         Z.of_nat j ∈ chunk_ids ->
         DiscoveryTable w' file_name !! j = Some providers ->
         (ip', port') ∈ map endpoint providers)
    /\ trace w' = trace w ++
         map (out_of_range_line file_name)
             (filter (fun chunk_id =>
                        chunk_in_range (DiscoveryTable w file_name) chunk_id = false)
                     chunk_ids)
    /\ (forall other, other <> file_name ->
        chunk_location_info (file_manager w') !! other
        = chunk_location_info (file_manager w) !! other).
Proof.
  intros Hint Hsize.
  unfold FileManager.storeChunkLocationInfo, FileManager.lock_chunk_location_info.
  unfold bind at 1. unfold bind at 1. unfold get_fm at 1. unfold put_fm at 1.
  match goal with
  | |- context [for_each _ _ ?w0] => set (locked := w0)
  end.
  assert (Hsame : DiscoveryTable locked file_name = DiscoveryTable w file_name)
    by reflexivity.
  destruct (store_loop_run file_name ip' port' speed chunk_ids locked Hint)
    as (w' & Hrun & Hlen & Hlook & Hother & Htr & _).
  { by rewrite Hsame. }
  rewrite Hsame in Hlen, Hlook, Htr.
  exists w'. split; [exact Hrun|].
  assert (Hlook' : forall j providers,
             DiscoveryTable w file_name !! j = Some providers ->
             DiscoveryTable w' file_name !! j
             = Some (if bool_decide (Z.of_nat j ∈ chunk_ids)
                     then recorded ip' port' speed providers else providers)).
  { intros j providers Hj. rewrite Hlook, Hj. cbn. by case_bool_decide. }
  split.
  { intros Hinv other table' Htable'.
    destruct (decide (other = file_name)) as [->|Hne].
    2:{ rewrite Hother in Htable' by done. eapply Hinv. exact Htable'. }
    assert (DiscoveryTable w' file_name = table') as Ht'.
    { unfold DiscoveryTable. by rewrite Htable'. }
    assert (deduplicated (DiscoveryTable w file_name)) as Hd.
    { unfold DiscoveryTable.
      destruct (chunk_location_info (file_manager w) !! file_name) as [t|] eqn:Ht.
      - eapply Hinv. exact Ht.
      - apply Forall_nil_2. }
    unfold deduplicated in *. rewrite Forall_lookup in Hd. apply Forall_lookup.
    intros j providers' Hj. rewrite <- Ht', Hlook in Hj.
    destruct (DiscoveryTable w file_name !! j) as [providers|] eqn:Hjw; [|done].
    cbn in Hj. injection Hj as <-.
    specialize (Hd j providers Hjw). cbn beta in Hd.
    case_bool_decide; [by apply recorded_NoDup|done]. }
  split; [exact Hlen|]. split; [exact Hlook'|].
  split.
  { intros j providers' Hin Hj. rewrite Hlook in Hj.
    destruct (DiscoveryTable w file_name !! j) as [providers|] eqn:Hjw; [|done].
    cbn in Hj. rewrite bool_decide_eq_true_2 in Hj by done.
    injection Hj as <-. apply recorded_has. }
  split; [exact Htr|].
  intros other Hne. rewrite Hother by done. reflexivity.
Qed.

(* ===================================================================== *)
(** * Starting a search *)
(* ===================================================================== *)

(** C8, as the code has it: when the sidecar cannot be opened [loadMetadata]
    logs an error and returns [(EmptyString, -1, -1)], and [searchFile] stops there:
    nothing of the file manager or of the response windows changes and no
    datagram is sent. *)
Theorem searchFile_abandoned_without_sidecar
    (E : Env) (w : World) (file_name : string) :
  contents (fs w) !! FileManager.metadata_path file_name = None ->
  exists w',
    FileManager.loadMetadata E file_name w = Some ((EmptyString, -1, -1), w')
    /\ Peer.searchFile E file_name w = Some (tt, w')
    /\ trace w' = trace w ++ [sidecar_error file_name]
    /\ file_manager w' = file_manager w
    /\ processing_active_map w' = processing_active_map w
    /\ fs w' = fs w
    /\ datagrams [sidecar_error file_name] = [].
Proof.
  intros Hclosed. exists (with_events w [sidecar_error file_name]).
  assert (Hload : FileManager.loadMetadata E file_name w
                  = Some ((EmptyString, -1, -1), with_events w [sidecar_error file_name])).
  { unfold FileManager.loadMetadata. unfold bind at 1. unfold get_fs at 1.
    rewrite Hclosed. reflexivity. }
  split; [exact Hload|]. split; [|repeat split].
  unfold Peer.searchFile. rewrite (bind_some _ _ _ _ _ Hload). reflexivity.
Qed.

(** C8, the sidecar that is there but malformed: with [3 x] for the chunk
    count and the TTL, [loadMetadata] returns [("book.txt", 3, 0)], and the
    search goes on: the table and the window of the file are created and a
    DISCOVERY with TTL 0 goes to both neighbours. *)
Lemma malformed_sidecar_not_abandoned :
  exists w',
    FileManager.loadMetadata Sample.env "book.txt" Sample.malformed_world
      = Some (("book.txt", 3, 0), Sample.malformed_world)
    /\ Peer.searchFile Sample.env "book.txt" Sample.malformed_world = Some (tt, w')
    /\ chunk_location_info (file_manager w') !! "book.txt" = Some [[]; []; []]
    /\ processing_active_map w' !! "book.txt" = Some false
    /\ datagrams (trace w')
       = [("10.0.0.2", 5002, "DISCOVERY book.txt 3 0 10.0.0.1:5001");
          ("10.0.0.3", 5003, "DISCOVERY book.txt 3 0 10.0.0.1:5001")].
Proof.
  eexists. split; [vm_compute; reflexivity|].
  split; [vm_compute; reflexivity|].
  repeat split; vm_compute; reflexivity.
Qed.

(* ===================================================================== *)
(** * The stream transport *)
(* ===================================================================== *)

Lemma ceil_div_step (x r : Z) :
  0 < r -> 0 < x -> ceil_div x r = 1 + ceil_div (x - Z.min r x) r.
Proof.
  intros Hr Hx. unfold ceil_div.
  destruct (Z.le_gt_cases r x) as [Hle|Hgt].
  - rewrite Z.min_l by lia.
    replace (x + r - 1) with (x - r + r - 1 + 1 * r) by lia.
    rewrite Z.div_add by lia. lia.
  - rewrite Z.min_r by lia.
    replace (x - x + r - 1) with (r - 1) by lia.
    rewrite (Z.div_small (r - 1)) by lia.
    replace (x + r - 1) with (x - 1 + 1 * r) by lia.
    rewrite Z.div_add by lia. rewrite Z.div_small by lia. lia.
Qed.

Lemma ceil_div_0 (r : Z) : 0 < r -> ceil_div 0 r = 0.
Proof. intros Hr. unfold ceil_div. apply Z.div_small. lia. Qed.

Lemma take_drop_block (l : bytes) (p n : nat) :
  (p + n <= length l)%nat ->
  take n (drop p l) ++ drop (p + n) l = drop p l.
Proof.
  intros Hlen. rewrite <- (take_drop n (drop p l)) at 2.
  f_equal. rewrite drop_drop. reflexivity.
Qed.

Section Sender.

Variables (E : Env) (d : PeerInfo).
Hypothesis rate_positive : 0 < self_transfer_speed E.
Hypothesis rate_int : is_int (self_transfer_speed E).

Lemma send_control_message_run (buffer : bytes) :
  Z.of_nat (length buffer) = Constants.CONTROL_MESSAGE_MAX_SIZE ->
  forall (fuel : nat) (total : Z) (w : World),
    0 <= total <= Constants.CONTROL_MESSAGE_MAX_SIZE ->
    Constants.CONTROL_MESSAGE_MAX_SIZE - total < Z.of_nat fuel ->
    exists sends,
      TCPServer.send_control_message fuel E d buffer total w
        = Some (tt, with_events w (flat_map (block_events INFO) sends))
      /\ concat (map fst sends) = drop (Z.to_nat total) buffer
      /\ Forall (fun s : bytes * string =>
                   0 < Z.of_nat (length s.1) <= self_transfer_speed E) sends
      /\ Z.of_nat (length sends)
         = ceil_div (Constants.CONTROL_MESSAGE_MAX_SIZE - total)
                    (self_transfer_speed E).
Proof.
  unfold Constants.CONTROL_MESSAGE_MAX_SIZE. intros Hlen.
  induction fuel as [|fuel IH]; intros total w Htotal Hfuel; [lia|].
  cbn [TCPServer.send_control_message].
  unfold Constants.CONTROL_MESSAGE_MAX_SIZE.
  destruct (Z.ltb_spec total 1024) as [Hlt|Hge].
  - assert (to_int total = total) as ->.
    { unfold to_int. rewrite Z.mod_small by lia. lia. }
    set (n := Z.min (self_transfer_speed E) (1024 - total)).
    assert (0 < n) as Hn by (unfold n; lia).
    destruct (Z.ltb_spec n 0) as [?|_]; [lia|].
    destruct (Z.eqb_spec n 0) as [?|_]; [lia|].
    unfold bind at 1. unfold emit at 1.
    unfold bind at 1. unfold logMessage at 1. unfold emit at 1.
    unfold bind at 1. unfold emit at 1.
    rewrite !with_events_app.
    match goal with
    | |- context [TCPServer.send_control_message fuel E d buffer _
                    (with_events w ([EvTcpSend ?b] ++ [EvLog INFO ?line] ++ ?pause))] =>
        destruct (IH (total + n)
                     (with_events w ([EvTcpSend b] ++ [EvLog INFO line] ++ pause)))
          as (sends & Hrun & Hcat & Hall & Hcount);
        [lia|lia|]; exists ((b, line) :: sends)
    end.
    rewrite Hrun, with_events_app. split; [reflexivity|].
    split.
    { cbn [map concat fst]. rewrite Hcat.
      replace (Z.to_nat (total + n)) with (Z.to_nat total + Z.to_nat n)%nat by lia.
      apply take_drop_block. lia. }
    split.
    { apply Forall_cons. split; [|exact Hall]. cbn [fst].
      rewrite length_take, length_drop. unfold n in *. lia. }
    cbn [length]. rewrite Nat2Z.inj_succ, Hcount.
    rewrite (ceil_div_step (1024 - total)) by lia.
    fold n. replace (1024 - (total + n)) with (1024 - total - n) by lia. lia.
  - exists []. cbn [flat_map]. rewrite with_events_nil.
    split; [reflexivity|].
    assert (total = 1024) as -> by lia.
    split. { cbn [map concat]. rewrite drop_ge by lia. reflexivity. }
    split; [apply Forall_nil_2|].
    cbn [length]. rewrite Z.sub_diag, ceil_div_0 by lia. reflexivity.
Qed.

Lemma send_payload_run (file_name : string) (chunk : Z) (file_buffer : bytes) :
  forall (fuel : nat) (total : Z) (w : World),
    0 <= total <= Z.of_nat (length file_buffer) ->
    Z.of_nat (length file_buffer) - total < Z.of_nat fuel ->
    exists sends,
      TCPServer.send_payload fuel E d file_name chunk file_buffer total w
        = Some (tt, with_events w (flat_map (block_events CHUNK_SENT) sends))
      /\ concat (map fst sends) = drop (Z.to_nat total) file_buffer
      /\ Forall (fun s : bytes * string =>
                   0 < Z.of_nat (length s.1) <= self_transfer_speed E) sends
      /\ Z.of_nat (length sends)
         = ceil_div (Z.of_nat (length file_buffer) - total)
                    (self_transfer_speed E).
Proof.
  assert (to_size_t (self_transfer_speed E) = self_transfer_speed E) as Hrate.
  { unfold to_size_t. unfold is_int, INT_MIN, INT_MAX in rate_int.
    apply Z.mod_small. lia. }
  induction fuel as [|fuel IH]; intros total w Htotal Hfuel; [lia|].
  cbn [TCPServer.send_payload]. rewrite Hrate.
  set (size := Z.of_nat (length file_buffer)) in *.
  destruct (Z.ltb_spec total size) as [Hlt|Hge].
  - set (n := Z.min (self_transfer_speed E) (size - total)).
    assert (0 < n) as Hn by (unfold n; lia).
    destruct (Z.eqb_spec n 0) as [?|_]; [lia|].
    unfold bind at 1. unfold emit at 1.
    unfold bind at 1. unfold logMessage at 1. unfold emit at 1.
    unfold bind at 1. unfold emit at 1.
    rewrite !with_events_app.
    match goal with
    | |- context [TCPServer.send_payload fuel E d _ _ _ _
                    (with_events w ([EvTcpSend ?b] ++ [EvLog CHUNK_SENT ?line] ++ ?pause))] =>
        destruct (IH (total + n)
                     (with_events w ([EvTcpSend b] ++ [EvLog CHUNK_SENT line] ++ pause)))
          as (sends & Hrun & Hcat & Hall & Hcount);
        [lia|lia|]; exists ((b, line) :: sends)
    end.
    rewrite Hrun, with_events_app. split; [reflexivity|].
    split.
    { cbn [map concat fst]. rewrite Hcat.
      replace (Z.to_nat (total + n)) with (Z.to_nat total + Z.to_nat n)%nat by lia.
      apply take_drop_block. unfold size in *. lia. }
    split.
    { apply Forall_cons. split; [|exact Hall]. cbn [fst].
      rewrite length_take, length_drop. unfold n, size in *. lia. }
    cbn [length]. rewrite Nat2Z.inj_succ, Hcount.
    rewrite (ceil_div_step (size - total)) by lia.
    fold n. replace (size - (total + n)) with (size - total - n) by lia. lia.
  - exists []. cbn [flat_map]. rewrite with_events_nil.
    split; [reflexivity|].
    assert (total = size) as -> by lia.
    split. { cbn [map concat]. rewrite drop_ge by (unfold size; lia). reflexivity. }
    split; [apply Forall_nil_2|].
    cbn [length]. rewrite Z.sub_diag, ceil_div_0 by lia. reflexivity.
Qed.

End Sender.

(** ** The control frame *)

Lemma control_message_buffer_eq (control_message : string) :
  let copied := Nat.min (String.length control_message) 1023 in
  TCPServer.control_message_buffer control_message
  = take copied (list_ascii_of_string control_message)
    ++ replicate (1024 - copied) NUL.
Proof.
  intros copied. unfold TCPServer.control_message_buffer.
  change (Z.to_nat Constants.CONTROL_MESSAGE_MAX_SIZE) with 1024%nat.
  change (1024 - 1)%nat with 1023%nat. fold copied.
  assert (Hlen : length (list_ascii_of_string control_message)
                 = String.length control_message).
  { induction control_message as [|c s IH]; [done|]. cbn. by rewrite IH. }
  assert (Hcopied : (copied <= 1023)%nat) by (unfold copied; lia).
  rewrite drop_replicate.
  assert (length (take copied (list_ascii_of_string control_message)) = copied) as Htake.
  { rewrite length_take. unfold copied. lia. }
  rewrite <- Htake at 1. rewrite <- (Nat.add_0_r (length _)).
  rewrite insert_app_r.
  destruct (1024 - copied)%nat as [|k] eqn:Hk; [lia|]. reflexivity.
Qed.

Lemma length_list_ascii_of_string (s : string) :
  length (list_ascii_of_string s) = String.length s.
Proof. induction s as [|c s IH]; [done|]. cbn. by rewrite IH. Qed.

Lemma control_message_buffer_length (control_message : string) :
  Z.of_nat (length (TCPServer.control_message_buffer control_message))
  = Constants.CONTROL_MESSAGE_MAX_SIZE.
Proof.
  rewrite control_message_buffer_eq. cbn zeta.
  rewrite length_app, length_take, length_replicate, length_list_ascii_of_string.
  unfold Constants.CONTROL_MESSAGE_MAX_SIZE. lia.
Qed.

Lemma strip_nul_padding_replicate (l : bytes) (k : nat) :
  strip_nul_padding (l ++ replicate k NUL) = strip_nul_padding l.
Proof.
  induction l as [|c l IH].
  - induction k as [|k IHk]; [done|].
    cbn [app replicate strip_nul_padding] in *. rewrite IHk. reflexivity.
  - cbn [app strip_nul_padding]. by rewrite IH.
Qed.

Lemma strip_nul_padding_id (l : bytes) :
  last l <> Some NUL -> strip_nul_padding l = l.
Proof.
  induction l as [|c l IH]; [done|]. intros Hlast.
  cbn [strip_nul_padding]. destruct l as [|c' l].
  - cbn [strip_nul_padding]. destruct (Ascii.eqb_spec c NUL) as [->|]; [|done].
    by destruct Hlast.
  - rewrite IH by (intros H; apply Hlast; exact H). reflexivity.
Qed.

(** A byte sequence is what stripping leaves of it followed by NUL bytes
    and nothing else. *)
Lemma strip_nul_padding_spec (l : bytes) :
  exists k : nat, l = strip_nul_padding l ++ replicate k NUL.
Proof.
  induction l as [|c l [k IH]]; [by exists 0%nat|].
  cbn [strip_nul_padding]. destruct (strip_nul_padding l) as [|c' r] eqn:Hstrip.
  - cbn [app] in IH. destruct (Ascii.eqb_spec c NUL) as [->|_].
    + exists (S k). cbn [app replicate]. by rewrite <- IH.
    + exists k. cbn [app]. by rewrite <- IH.
  - exists k. cbn [app] in *. by rewrite <- IH.
Qed.

(** Bytes after a frame go away with its padding when they are NUL bytes
    themselves, and only then. *)
Lemma strip_nul_padding_after (l more : bytes) (k : nat) :
  last l <> Some NUL ->
  strip_nul_padding ((l ++ replicate k NUL) ++ more) = l
  <-> Forall (eq NUL) more.
Proof.
  intros Hlast. split.
  - intros Hstrip.
    destruct (strip_nul_padding_spec ((l ++ replicate k NUL) ++ more)) as [n Hn].
    rewrite Hstrip, <- !app_assoc in Hn. apply app_inv_head in Hn.
    assert (Hall : Forall (eq NUL) (replicate k NUL ++ more)).
    { rewrite Hn. apply Forall_forall. intros c Hc.
      by apply elem_of_replicate in Hc as [-> _]. }
    by apply Forall_app in Hall as [_ Hmore].
  - intros Hmore.
    assert (more = replicate (length more) NUL) as ->.
    { induction Hmore as [|c more <- _ IH]; [done|]. cbn [length replicate]. by rewrite <- IH. }
    rewrite <- app_assoc, <- replicate_add, strip_nul_padding_replicate.
    by apply strip_nul_padding_id.
Qed.

(** The receiving loop stops at the call of [recv] whose answer brings the
    count to 1024 bytes or more, and returns all that the calls until then
    have answered, whatever comes after the first 1024 bytes in it; the
    answers of later calls are left unread. *)
Lemma recv_control_message_run (answers : list bytes) (final : bytes)
    (later : list bytes) :
  forall control_message : bytes,
    Forall (fun a : bytes => a <> []) answers ->
    final <> [] ->
    (length (control_message ++ concat answers) < 1024)%nat ->
    (1024 <= length (control_message ++ concat answers ++ final))%nat ->
    TCPServer.recv_control_message (answers ++ final :: later) control_message
    = Some (control_message ++ concat answers ++ final, later).
Proof.
  induction answers as [|a answers IH]; intros msg Hne Hfinal Hshort Htotal.
  - cbn [concat app] in *. rewrite app_nil_r in Hshort.
    cbn [TCPServer.recv_control_message]. destruct final as [|c final]; [done|].
    unfold Constants.CONTROL_MESSAGE_MAX_SIZE.
    destruct (Z.ltb_spec (Z.of_nat (length (msg ++ c :: final))) 1024); [lia|done].
  - apply Forall_cons in Hne as [Ha Hne].
    cbn [concat] in *. rewrite <- app_assoc in Htotal. rewrite app_assoc in Hshort.
    change ((a :: answers) ++ final :: later) with (a :: (answers ++ final :: later)).
    cbn [TCPServer.recv_control_message]. destruct a as [|c a]; [done|].
    unfold Constants.CONTROL_MESSAGE_MAX_SIZE.
    destruct (Z.ltb_spec (Z.of_nat (length (msg ++ c :: a))) 1024) as [_|Hge].
    + rewrite IH; [by rewrite <- !app_assoc|done|done|done|].
      by rewrite <- !app_assoc.
    + rewrite length_app in Hshort. lia.
Qed.

(** Answers that are, end to end, 1024 bytes: the loop returns these bytes
    and leaves what the later calls would answer. *)
Lemma recv_control_message_frame (answers later : list bytes) (frame : bytes) :
  concat answers = frame ->
  Forall (fun a : bytes => a <> []) answers ->
  length frame = 1024%nat ->
  TCPServer.recv_control_message (answers ++ later) [] = Some (frame, later).
Proof.
  intros Hcat Hne Hlen.
  destruct (exists_last (l := answers)) as (front & final & ->).
  { intros ->. cbn in Hcat. subst frame. discriminate Hlen. }
  apply Forall_app in Hne as [Hfront Hfinal]. apply Forall_cons in Hfinal as [Hfinal _].
  rewrite concat_app in Hcat. cbn [concat] in Hcat. rewrite app_nil_r in Hcat.
  rewrite <- app_assoc. cbn [app].
  rewrite (recv_control_message_run front final later []); [by rewrite <- Hcat|done|done| |].
  - cbn [app]. rewrite <- Hcat, length_app in Hlen.
    destruct final; [done|]. cbn [length] in Hlen. lia.
  - cbn [app]. rewrite Hcat. lia.
Qed.

Lemma tcp_blocks_block_events (t : LogType) (sends : list (bytes * string)) :
  tcp_blocks (flat_map (block_events t) sends) = map fst sends.
Proof.
  induction sends as [|s sends IH]; [done|].
  cbn [flat_map map]. unfold tcp_blocks in *. rewrite omap_app, IH. reflexivity.
Qed.

(** ** Pauses between the blocks *)

Lemma flat_map_snoc {A B} (f : A -> list B) (l : list A) (x : A) :
  flat_map f (l ++ [x]) = flat_map f l ++ f x.
Proof. rewrite flat_map_app. cbn. by rewrite app_nil_r. Qed.

Lemma between_sends_blocks (t : LogType) (sends : list (bytes * string))
    (final : bytes * string) :
  between_sends (flat_map (block_events t) (sends ++ [final]))
  = flat_map (block_events t) sends ++ [EvTcpSend final.1].
Proof.
  unfold between_sends. rewrite flat_map_snoc.
  assert (from_first_send (flat_map (block_events t) sends ++ block_events t final)
          = flat_map (block_events t) sends ++ block_events t final) as ->.
  { destruct sends; reflexivity. }
  rewrite rev_app_distr. cbn [block_events rev app from_first_send is_send].
  rewrite rev_involutive. reflexivity.
Qed.

Lemma seconds_slept_app (es1 es2 : list Event) :
  seconds_slept (es1 ++ es2) = seconds_slept es1 + seconds_slept es2.
Proof.
  induction es1 as [|e es1 IH]; [done|].
  cbn [app seconds_slept]. destruct e; rewrite IH; lia.
Qed.

Lemma seconds_slept_blocks (t : LogType) (sends : list (bytes * string)) :
  seconds_slept (flat_map (block_events t) sends) = Z.of_nat (length sends).
Proof.
  induction sends as [|s sends IH]; [done|].
  cbn [flat_map length]. rewrite seconds_slept_app, IH.
  cbn [block_events seconds_slept]. lia.
Qed.

(** One second goes by between any two consecutive blocks: from the first
    block to the last there are as many seconds as blocks but one. *)
Lemma seconds_between_blocks (t : LogType) (sends : list (bytes * string)) :
  sends <> [] ->
  seconds_slept (between_sends (flat_map (block_events t) sends))
  = Z.of_nat (length sends) - 1.
Proof.
  intros Hne. destruct (exists_last Hne) as (front & final & ->).
  rewrite between_sends_blocks, seconds_slept_app, seconds_slept_blocks.
  rewrite length_app. cbn. lia.
Qed.

(** C7, as the code has it: a control message of at most 1023 bytes that
    does not end in a NUL byte, sent at a positive rate, leaves in blocks
    that put end to end are the 1024-byte frame, and the frame without
    the NUL bytes at its end is the message.  When the calls of [recv] of
    the receiving loop answer the bytes of the frame and no others, in
    whatever pieces, the loop returns the frame.  The loop asks for up to
    1024 bytes at every call: the bytes [more] that the call answering
    the last bytes [tail] of the frame answers after them are part of the
    control message it returns, which without the NUL bytes at its end is
    the message exactly when all the bytes of [more] are NUL bytes. *)
Theorem control_header_round_trip
    (E : Env) (d : PeerInfo) (w : World) (control_message : string) :
  0 < self_transfer_speed E ->
  (String.length control_message <= 1023)%nat ->
  last (list_ascii_of_string control_message) <> Some NUL ->
  let buffer := TCPServer.control_message_buffer control_message in
  exists sends,
    TCPServer.send_control_message (S (length buffer)) E d buffer 0 w
      = Some (tt, with_events w (flat_map (block_events INFO) sends))
    /\ tcp_blocks (flat_map (block_events INFO) sends) = map fst sends
    /\ concat (map fst sends) = buffer
    /\ length buffer = 1024%nat
    /\ (forall answers : list bytes,
         concat answers = concat (map fst sends) ->
         Forall (fun a : bytes => a <> []) answers ->
         exists received,
           TCPServer.recv_control_message answers [] = Some (received, [])
           /\ strip_nul_padding received = list_ascii_of_string control_message)
    /\ (forall (answers : list bytes) (tail more : bytes) (later : list bytes),
         concat answers ++ tail = concat (map fst sends) ->
         Forall (fun a : bytes => a <> []) answers ->
         tail <> [] ->
         TCPServer.recv_control_message (answers ++ (tail ++ more) :: later) []
           = Some (buffer ++ more, later)
         /\ (strip_nul_padding (buffer ++ more) = list_ascii_of_string control_message
             <-> Forall (eq NUL) more)).
Proof.
  intros Hrate Hsize Hlast buffer.
  pose proof (control_message_buffer_length control_message) as Hlen.
  fold buffer in Hlen. unfold Constants.CONTROL_MESSAGE_MAX_SIZE in Hlen.
  destruct (send_control_message_run E d Hrate buffer Hlen (S (length buffer)) 0 w)
    as (sends & Hrun & Hcat & _ & _).
  { unfold Constants.CONTROL_MESSAGE_MAX_SIZE. lia. }
  { unfold Constants.CONTROL_MESSAGE_MAX_SIZE. lia. }
  exists sends. split; [exact Hrun|]. split; [apply tcp_blocks_block_events|].
  change (Z.to_nat 0) with 0%nat in Hcat. rewrite drop_0 in Hcat.
  split; [exact Hcat|]. split; [lia|].
  assert (Hbuffer : buffer = list_ascii_of_string control_message
                             ++ replicate (1024 - String.length control_message) NUL).
  { unfold buffer. rewrite control_message_buffer_eq. cbn zeta.
    rewrite Nat.min_l by lia.
    by rewrite <- length_list_ascii_of_string, firstn_all. }
  split.
  - intros answers Hanswers Hne. exists buffer. split.
    + rewrite <- (app_nil_r answers).
      apply recv_control_message_frame; [by rewrite Hanswers, Hcat|done|lia].
    + rewrite Hbuffer, strip_nul_padding_replicate. by apply strip_nul_padding_id.
  - intros answers tail more later Hanswers Hne Htail. rewrite Hcat in Hanswers. split.
    + rewrite (recv_control_message_run answers (tail ++ more) later []).
      * cbn [app]. by rewrite app_assoc, Hanswers.
      * done.
      * by destruct tail.
      * cbn [app]. apply (f_equal length) in Hanswers. rewrite length_app in Hanswers.
        destruct tail; [done|]. cbn [length] in Hanswers. lia.
      * cbn [app]. rewrite app_assoc, Hanswers, length_app. lia.
    + rewrite Hbuffer. by apply strip_nul_padding_after.
Qed.

Lemma control_header_round_trip_witness :
  let buffer := TCPServer.control_message_buffer "PUT book.txt 0 64 5" in
  exists sends,
    TCPServer.send_control_message 1025 Sample.env Sample.sender buffer 0 Sample.world
    = Some (tt, with_events Sample.world (flat_map (block_events INFO) sends))
    /\ concat (map fst sends) = buffer
    /\ TCPServer.recv_control_message
         [take 1000 buffer; drop 1000 buffer ++ list_ascii_of_string "upon"] []
       = Some (buffer ++ list_ascii_of_string "upon", []).
Proof.
  intros buffer.
  destruct (control_header_round_trip Sample.env Sample.sender Sample.world
              "PUT book.txt 0 64 5")
    as (sends & Hrun & _ & Hcat & _ & _ & Hmore).
  - reflexivity.
  - vm_compute. lia.
  - vm_compute. discriminate.
  - exists sends. split; [exact Hrun|]. split; [exact Hcat|].
    destruct (Hmore [take 1000 buffer] (drop 1000 buffer)
               (list_ascii_of_string "upon") []) as [Hrecv _].
    + cbn [concat]. rewrite app_nil_r, Hcat. apply take_drop.
    + constructor; [vm_compute; discriminate|constructor].
    + vm_compute. discriminate.
    + exact Hrecv.
Defined.

(** C7, at a control message of exactly 1024 bytes: the sender copies 1023
    of them and ends the frame with a NUL byte, so what the receiver is left
    with after stripping is one byte short. *)
Lemma control_header_of_1024_bytes_cut :
  String.length Sample.long_header = 1024%nat
  /\ last (list_ascii_of_string Sample.long_header) <> Some NUL
  /\ exists w' received,
       TCPServer.send_control_message 1025 Sample.env Sample.sender
         (TCPServer.control_message_buffer Sample.long_header) 0 Sample.world
       = Some (tt, w')
       /\ TCPServer.recv_control_message (tcp_blocks (trace w')) [] = Some (received, [])
       /\ strip_nul_padding received = replicate 1023 "A"%char
       /\ strip_nul_padding received <> list_ascii_of_string Sample.long_header.
Proof.
  split; [vm_compute; reflexivity|]. split; [vm_compute; discriminate|].
  eexists. eexists. split; [vm_compute; reflexivity|].
  split; [vm_compute; reflexivity|].
  split; [vm_compute; reflexivity|].
  vm_compute. discriminate.
Qed.

(** C9: serving one chunk at a positive rate, the sender sends the 1024
    bytes of the control frame and then the bytes of the chunk in blocks of
    at most [rate] bytes, none of them empty, and sleeps one second after
    every block.  The frame takes 1024 / rate blocks and the chunk
    size / rate blocks, both rounded up.  From the first block of a chunk
    that is not empty to its last one, one second less than it has blocks
    goes by: 3 seconds for 256 bytes at 64 bytes per second. *)
Theorem sendChunks_paced
    (E : Env) (d : PeerInfo) (w : World) (file_name : string) (chunk : Z)
    (data : bytes) :
  0 < self_transfer_speed E ->
  is_int (self_transfer_speed E) ->
  socket_ok E = true ->
  connect_ok E (peer_ip d) (peer_port d) = true ->
  contents (fs w) !! FileManager.getChunkPath (file_manager w) file_name chunk
    = Some data ->
  let rate := self_transfer_speed E in
  let size := Z.of_nat (length data) in
  exists header payload done,
    TCPServer.sendChunks E file_name [chunk] d w
      = Some (tt, with_events w (flat_map (block_events INFO) header
                                 ++ flat_map (block_events CHUNK_SENT) payload
                                 ++ [EvLog SUCCESS done]))
    /\ concat (map fst header)
       = TCPServer.control_message_buffer
           (TCPServer.control_message_for E file_name chunk (length data))
    /\ concat (map fst payload) = data
    /\ Forall (fun s : bytes * string => 0 < Z.of_nat (length s.1) <= rate)
              (header ++ payload)
    /\ Z.of_nat (length header) = ceil_div 1024 rate
    /\ Z.of_nat (length payload) = ceil_div size rate
    /\ (0 < size ->
        seconds_slept (between_sends (flat_map (block_events CHUNK_SENT) payload))
        = ceil_div size rate - 1)
    /\ (rate = 64 -> size = 256 ->
        3 <= seconds_slept (between_sends (flat_map (block_events CHUNK_SENT) payload))).
Proof.
  intros Hrate Hint Hsock Hconn Hdata rate size.
  unfold TCPServer.sendChunks. rewrite Hsock, Hconn. cbn [negb for_each].
  unfold bind at 1. unfold TCPServer.send_chunk at 1.
  unfold bind at 1. unfold get_fm at 1. unfold bind at 1. unfold get_fs at 1.
  rewrite Hdata.
  set (buffer := TCPServer.control_message_buffer _).
  pose proof (control_message_buffer_length
                (TCPServer.control_message_for E file_name chunk (length data))) as Hlen.
  fold buffer in Hlen.
  destruct (send_control_message_run E d Hrate buffer Hlen (S (length buffer)) 0 w)
    as (header & Hrun1 & Hcat1 & Hall1 & Hcount1); [lia|lia|].
  rewrite (bind_some _ _ _ _ _ Hrun1).
  destruct (send_payload_run E d Hrate Hint file_name chunk data (S (length data)) 0
              (with_events w (flat_map (block_events INFO) header)))
    as (payload & Hrun2 & Hcat2 & Hall2 & Hcount2); [lia|lia|].
  rewrite (bind_some _ _ _ _ _ Hrun2).
  unfold logMessage, emit, ret. rewrite !with_events_app.
  change (Z.to_nat 0) with 0%nat in Hcat1, Hcat2. rewrite drop_0 in Hcat1, Hcat2.
  rewrite Z.sub_0_r in Hcount1, Hcount2.
  exists header, payload. eexists. split; [reflexivity|].
  split; [exact Hcat1|]. split; [exact Hcat2|].
  split; [apply Forall_app; split; assumption|].
  split; [exact Hcount1|]. split; [exact Hcount2|].
  assert (Hbetween : 0 < size ->
            seconds_slept (between_sends (flat_map (block_events CHUNK_SENT) payload))
            = ceil_div size rate - 1).
  { intros Hsize. rewrite seconds_between_blocks.
    - fold size rate in Hcount2. lia.
    - intros ->. cbn [map concat] in Hcat2. subst data. cbn in size. lia. }
  split; [exact Hbetween|].
  intros Hr Hs. rewrite Hbetween by lia. rewrite Hr, Hs. vm_compute. discriminate.
Qed.

(* ===================================================================== *)
(** * The assignment planner *)
(* ===================================================================== *)

Lemma to_int_small (z : Z) : 0 <= z <= INT_MAX -> to_int z = z.
Proof.
  unfold to_int, INT_MAX. intros Hz. rewrite Z.mod_small by lia. lia.
Qed.

Section Padding.

Implicit Types (m : gmap string (list Z)) (K : gset string) (k : string).

Lemma lookup_with_empty_entries K m k :
  with_empty_entries K m !! k
  = match m !! k with
    | Some v => Some v
    | None => if decide (k ∈ K) then Some [] else None
    end.
Proof.
  unfold with_empty_entries. rewrite lookup_union, lookup_gset_to_gmap.
  destruct (m !! k); [by destruct (guard _ ;; _)|].
  case_decide; [rewrite option_guard_True|rewrite option_guard_False]; done.
Qed.

Lemma assigned_with_empty_entries K m k :
  Planner.assigned (with_empty_entries K m) k = Planner.assigned m k.
Proof.
  unfold Planner.assigned. rewrite lookup_with_empty_entries.
  destruct (m !! k); [done|]. by case_decide.
Qed.

Lemma with_empty_entries_empty m : with_empty_entries ∅ m = m.
Proof.
  apply map_eq. intros k. rewrite lookup_with_empty_entries.
  destruct (m !! k); [done|]. by rewrite decide_False by set_solver.
Qed.

Lemma subscript_with_empty_entries K m k :
  subscript [] (with_empty_entries K m) k
  = (Planner.assigned m k, with_empty_entries ({[k]} ∪ K) m).
Proof.
  unfold subscript.
  pose proof (lookup_with_empty_entries K m k) as Hk.
  destruct (with_empty_entries K m !! k) as [v|] eqn:Hlook.
  - f_equal.
    + unfold Planner.assigned. destruct (m !! k); [by injection Hk|].
      case_decide; by simplify_eq.
    + apply map_eq. intros j. rewrite !lookup_with_empty_entries.
      destruct (m !! j) eqn:Hj; [done|].
      destruct (decide (j = k)) as [->|Hne].
      * rewrite Hj in Hk. case_decide; [|done].
        rewrite decide_True by set_solver. done.
      * apply decide_ext. set_solver.
  - destruct (m !! k) eqn:Hmk; [done|]. case_decide as HK; [done|].
    f_equal; [unfold Planner.assigned; by rewrite Hmk|].
    apply map_eq. intros j. destruct (decide (j = k)) as [->|Hne].
    + rewrite lookup_insert_eq, lookup_with_empty_entries, Hmk.
      by rewrite decide_True by set_solver.
    + rewrite lookup_insert_ne by done. rewrite !lookup_with_empty_entries.
      destruct (m !! j); [done|]. apply decide_ext. set_solver.
Qed.

Lemma insert_with_empty_entries K m k (v : list Z) :
  k ∈ K ->
  <[k := v]> (with_empty_entries K m) = with_empty_entries K (<[k := v]> m).
Proof. intros _. unfold with_empty_entries. apply insert_union_l. Qed.

End Padding.

Lemma find_first {A} (f : A -> bool) (before : list A) (x : A) (after : list A) :
  (forall y, y ∈ before -> f y = false) -> f x = true ->
  find f (before ++ x :: after) = Some x.
Proof.
  intros Hbefore Hx. induction before as [|y before IH].
  - cbn. by rewrite Hx.
  - cbn. rewrite Hbefore by apply list_elem_of_here.
    apply IH. intros z Hz. apply Hbefore. by apply list_elem_of_further.
Qed.

Section Choice.

(** The running map of the specification, in which no list is longer
    than an [int] can count. *)
Variable m : gmap string (list Z).
Hypothesis lists_short :
  forall k, Z.of_nat (length (Planner.assigned m k)) <= INT_MAX.

Lemma chosen_is_fewest before best after :
  chosen m before best after ->
  Planner.fewest m (before ++ best :: after) = Some best.
Proof.
  intros [Hbefore Hafter]. unfold Planner.fewest. apply find_first.
  - intros q Hq. apply not_true_is_false. intros Hall.
    rewrite forallb_forall in Hall.
    specialize (Hall best). rewrite <- list_elem_of_In in Hall.
    assert (best ∈ before ++ best :: after) as Hin
      by (apply elem_of_app; right; apply list_elem_of_here).
    apply Hall, Nat.leb_le in Hin. specialize (Hbefore q Hq). lia.
  - apply forallb_forall. intros q Hq. apply Nat.leb_le.
    apply list_elem_of_In, elem_of_app in Hq as [Hq|Hq].
    + specialize (Hbefore q Hq). lia.
    + apply elem_of_cons in Hq as [->|Hq]; [lia|]. by apply Hafter.
Qed.

(** The loop over the sorted providers leaves an entry for each of them
    and ends on the choice of the specification. *)
Lemma scan_peers (s : list ChunkLocationInfo) :
  forall (K : gset string) (before : list ChunkLocationInfo)
         (best : ChunkLocationInfo) (after : list ChunkLocationInfo),
    chosen m before best after ->
    exists before' best' after',
      fold_left FileManager.scan_peer s
        (with_empty_entries K m, FileManager.peer_key best,
         Z.of_nat (Planner.load m best))
      = (with_empty_entries (keys_of s ∪ K) m, FileManager.peer_key best',
         Z.of_nat (Planner.load m best'))
      /\ before ++ best :: after ++ s = before' ++ best' :: after'
      /\ chosen m before' best' after'.
Proof.
  induction s as [|p s IH]; intros K before best after Hchosen.
  - exists before, best, after. cbn [fold_left]. rewrite app_nil_r.
    split; [|done]. f_equal. f_equal. f_equal. unfold keys_of. set_solver.
  - cbn [fold_left]. unfold FileManager.scan_peer at 2.
    rewrite subscript_with_empty_entries.
    rewrite to_int_small by (split; [lia|apply lists_short]).
    fold (Planner.load m p).
    assert (HK : keys_of (p :: s) ∪ K = keys_of s ∪ ({[FileManager.peer_key p]} ∪ K)).
    { unfold keys_of. cbn [map]. set_solver. }
    rewrite HK.
    destruct (Z.ltb_spec (Z.of_nat (Planner.load m p)) (Z.of_nat (Planner.load m best)))
      as [Hlt|Hge].
    + destruct (IH ({[FileManager.peer_key p]} ∪ K) (before ++ best :: after) p [])
        as (before' & best' & after' & Hrun & Hlist & Hch').
      { destruct Hchosen as [Hb Ha]. split; [|by intros q Hq; inversion Hq].
        intros q Hq. apply elem_of_app in Hq as [Hq|Hq].
        - specialize (Hb q Hq). lia.
        - apply elem_of_cons in Hq as [->|Hq]; [lia|]. specialize (Ha q Hq). lia. }
      exists before', best', after'. split; [exact Hrun|]. split; [|done].
      rewrite <- Hlist. rewrite <- !app_assoc. reflexivity.
    + destruct (IH ({[FileManager.peer_key p]} ∪ K) before best (after ++ [p]))
        as (before' & best' & after' & Hrun & Hlist & Hch').
      { destruct Hchosen as [Hb Ha]. split; [done|].
        intros q Hq. apply elem_of_app in Hq as [Hq|Hq]; [by apply Ha|].
        apply list_elem_of_singleton in Hq as ->. lia. }
      exists before', best', after'. split; [exact Hrun|]. split; [|done].
      rewrite <- Hlist. rewrite <- !app_assoc. reflexivity.
Qed.

End Choice.

Section Refinement.

Variable sort : list ChunkLocationInfo -> list ChunkLocationInfo.
Hypothesis sort_permutes : forall l, sort l ≡ₚ l.

Lemma keys_of_sort (l : list ChunkLocationInfo) : keys_of (sort l) = keys_of l.
Proof.
  unfold keys_of. apply set_eq. intros k.
  rewrite !elem_of_list_to_set. by rewrite (sort_permutes l).
Qed.

Lemma plan_chunk_short (m : gmap string (list Z)) (i : nat)
    (providers : list ChunkLocationInfo) :
  (forall k, (length (Planner.assigned m k) <= i)%nat) ->
  forall k, (length (Planner.assigned (Planner.plan_chunk sort m i providers) k) <= S i)%nat.
Proof.
  intros Hm k. unfold Planner.plan_chunk.
  destruct providers as [|p l]; [by specialize (Hm k); lia|].
  destruct (Planner.fewest m (sort (p :: l))) as [best|]; [|by specialize (Hm k); lia].
  unfold Planner.assigned at 1.
  destruct (decide (k = FileManager.peer_key best)) as [->|Hne].
  - rewrite lookup_insert_eq. cbn. rewrite length_app. cbn.
    specialize (Hm (FileManager.peer_key best)). lia.
  - rewrite lookup_insert_ne by done. specialize (Hm k).
    unfold Planner.assigned in Hm. lia.
Qed.

(** One chunk: the body of the loop does to a map with some empty entries
    what the specification does to the map without them, and leaves an
    empty entry for every provider of the chunk. *)
Lemma assign_chunk_plan (m : gmap string (list Z)) (K : gset string) (i : nat)
    (providers : list ChunkLocationInfo) :
  (forall k, (length (Planner.assigned m k) <= i)%nat) ->
  Z.of_nat i <= INT_MAX ->
  FileManager.assign_chunk sort (with_empty_entries K m) i providers
  = with_empty_entries (keys_of providers ∪ K) (Planner.plan_chunk sort m i providers).
Proof.
  intros Hshort Hi.
  assert (lists_short : forall k, Z.of_nat (length (Planner.assigned m k)) <= INT_MAX).
  { intros k. specialize (Hshort k). lia. }
  destruct providers as [|p l].
  { unfold FileManager.assign_chunk, Planner.plan_chunk.
    change (keys_of []) with (∅ : gset string). f_equal. set_solver. }
  unfold FileManager.assign_chunk, Planner.plan_chunk.
  pose proof (keys_of_sort (p :: l)) as Hkeys.
  destruct (sort (p :: l)) as [|first s] eqn:Hs.
  { exfalso. pose proof (sort_permutes (p :: l)) as Hp. rewrite Hs in Hp.
    by apply Permutation_nil_cons in Hp. }
  rewrite subscript_with_empty_entries.
  rewrite to_int_small by (split; [lia|apply lists_short]).
  fold (Planner.load m first).
  cbn [fold_left]. unfold FileManager.scan_peer at 2.
  rewrite subscript_with_empty_entries.
  rewrite to_int_small by (split; [lia|apply lists_short]).
  fold (Planner.load m first). rewrite Z.ltb_irrefl.
  destruct (scan_peers m lists_short s
              ({[FileManager.peer_key first]} ∪ ({[FileManager.peer_key first]} ∪ K))
              [] first [])
    as (before & best & after & Hrun & Hlist & Hchosen).
  { split; intros q Hq; inversion Hq. }
  rewrite Hrun. cbn [app] in Hlist. rewrite Hlist.
  rewrite (chosen_is_fewest m before best after Hchosen).
  rewrite subscript_with_empty_entries, to_int_small by lia.
  rewrite insert_with_empty_entries by set_solver.
  f_equal.
  assert (FileManager.peer_key best ∈ keys_of (first :: s)) as Hbest.
  { unfold keys_of. rewrite elem_of_list_to_set. rewrite Hlist.
    apply list_elem_of_fmap_2.
    apply elem_of_app. right. apply list_elem_of_here. }
  rewrite <- Hkeys. revert Hbest. unfold keys_of. cbn [map]. set_solver.
Qed.

Lemma provider_keys_cons (providers : list ChunkLocationInfo)
    (rest : list (list ChunkLocationInfo)) :
  provider_keys (providers :: rest) = keys_of providers ∪ provider_keys rest.
Proof.
  unfold provider_keys, keys_of. cbn [concat]. rewrite map_app.
  apply set_eq. intros k. rewrite elem_of_union, !elem_of_list_to_set.
  apply elem_of_app.
Qed.

(** All the chunks: the loop of the source against the specification. *)
Lemma assign_chunks_plan (table : list (list ChunkLocationInfo)) :
  forall (i : nat) (m : gmap string (list Z)) (K : gset string),
    (forall k, (length (Planner.assigned m k) <= i)%nat) ->
    Z.of_nat (i + length table) <= INT_MAX + 1 ->
    FileManager.assign_chunks sort i table (with_empty_entries K m)
    = with_empty_entries (provider_keys table ∪ K)
        (Planner.plan_from sort i table m).
Proof.
  induction table as [|providers rest IH]; intros i m K Hshort Hi.
  - cbn [FileManager.assign_chunks Planner.plan_from].
    change (provider_keys []) with (∅ : gset string). f_equal. set_solver.
  - cbn [FileManager.assign_chunks Planner.plan_from].
    cbn [length] in Hi.
    rewrite assign_chunk_plan by (done || lia).
    rewrite IH.
    + f_equal. rewrite provider_keys_cons. set_solver.
    + by apply plan_chunk_short.
    + lia.
Qed.

End Refinement.

(** ** The sample sort is one [std::sort] may be *)

Lemma insert_by_speed_perm (p : ChunkLocationInfo) (l : list ChunkLocationInfo) :
  Sample.insert_by_speed p l ≡ₚ p :: l.
Proof.
  induction l as [|q l IH]; [done|]. cbn.
  destruct (transfer_speed q <? transfer_speed p); [done|].
  rewrite IH. apply Permutation_swap.
Qed.

Lemma insert_by_speed_sorted (p : ChunkLocationInfo) (l : list ChunkLocationInfo) :
  Planner.by_descending_rate l ->
  Planner.by_descending_rate (Sample.insert_by_speed p l).
Proof.
  unfold Planner.by_descending_rate.
  induction l as [|q l IH]; intros Hl.
  - repeat constructor.
  - cbn. destruct (Z.ltb_spec (transfer_speed q) (transfer_speed p)) as [Hlt|Hge].
    + constructor; [done|]. constructor. lia.
    + apply Sorted_inv in Hl as [Hl Hhd]. constructor; [by apply IH|].
      destruct l as [|r l]; cbn.
      * constructor. lia.
      * destruct (transfer_speed r <? transfer_speed p); constructor; [lia|].
        by apply HdRel_inv in Hhd.
Qed.

Lemma sample_sort_sorts : sorts_by_rate Sample.sort_by_speed.
Proof.
  intros l. unfold Sample.sort_by_speed. induction l as [|p l [IHp IHs]].
  - split; [done|constructor].
  - cbn [foldr]. split.
    + rewrite insert_by_speed_perm. by rewrite IHp.
    + by apply insert_by_speed_sorted.
Qed.

(** ** Two providers *)

Section TwoProviders.

Variable sort : list ChunkLocationInfo -> list ChunkLocationInfo.
Hypothesis sort_sorts : sorts_by_rate sort.
Variables A B : ChunkLocationInfo.
Hypothesis A_faster : transfer_speed B < transfer_speed A.
Hypothesis keys_differ : FileManager.peer_key A <> FileManager.peer_key B.

Lemma sort_two (l : list ChunkLocationInfo) : l ≡ₚ [A; B] -> sort l = [A; B].
Proof.
  intros Hl. destruct (sort_sorts l) as [Hperm Hsorted].
  assert (Hperm' : [A; B] ≡ₚ sort l) by (symmetry; etrans; [exact Hperm|exact Hl]).
  apply Permutation_length_2_inv in Hperm' as [Heq|Heq]; [done|].
  rewrite Heq in Hsorted.
  exfalso. apply Sorted_inv in Hsorted as [_ Hhd]. apply HdRel_inv in Hhd. lia.
Qed.

Lemma plan_chunk_two (m : gmap string (list Z)) (i : nat) (l : list ChunkLocationInfo) :
  l ≡ₚ [A; B] ->
  Planner.plan_chunk sort m i l
  = if (Planner.load m B <? Planner.load m A)%nat
    then <[FileManager.peer_key B :=
             Planner.assigned m (FileManager.peer_key B) ++ [Z.of_nat i]]> m
    else <[FileManager.peer_key A :=
             Planner.assigned m (FileManager.peer_key A) ++ [Z.of_nat i]]> m.
Proof.
  intros Hl. unfold Planner.plan_chunk. rewrite (sort_two l Hl).
  destruct l as [|p l]; [by apply Permutation_nil_cons in Hl|].
  unfold Planner.fewest. cbn [find forallb].
  rewrite !Nat.leb_refl. cbn [andb].
  destruct (Nat.ltb_spec (Planner.load m B) (Planner.load m A)) as [Hlt|Hge].
  - rewrite (proj2 (Nat.leb_gt _ _)) by lia. cbn [andb].
    rewrite (proj2 (Nat.leb_le _ _)) by lia. reflexivity.
  - rewrite (proj2 (Nat.leb_le _ _)) by lia. reflexivity.
Qed.

(** The load-balance scenario, on the specification: four chunks that
    both providers hold go to A, B, A, B. *)
Lemma plan_four (table : list (list ChunkLocationInfo)) :
  length table = 4%nat -> Forall (fun l => l ≡ₚ [A; B]) table ->
  Planner.plan sort table
  = <[FileManager.peer_key B := [1; 3]]>
      (<[FileManager.peer_key A := [0; 2]]> ∅)
  /\ provider_keys table = {[FileManager.peer_key A; FileManager.peer_key B]}.
Proof.
  intros Hlen Hall.
  destruct table as [|l0 [|l1 [|l2 [|l3 [|]]]]]; try discriminate Hlen.
  apply Forall_cons in Hall as [H0 Hall]. apply Forall_cons in Hall as [H1 Hall].
  apply Forall_cons in Hall as [H2 Hall]. apply Forall_cons in Hall as [H3 _].
  split.
  - assert (keys_differ' : FileManager.peer_key B <> FileManager.peer_key A) by done.
    unfold Planner.plan. cbn [Planner.plan_from].
    rewrite (plan_chunk_two _ _ _ H0).
    unfold Planner.load, Planner.assigned.
    rewrite !lookup_empty. cbn [default from_option id length Nat.ltb Nat.leb app].
    rewrite (plan_chunk_two _ _ _ H1).
    unfold Planner.load, Planner.assigned.
    rewrite !lookup_insert_eq, !lookup_insert_ne, !lookup_empty by done.
    cbn [default from_option id length Nat.ltb Nat.leb app].
    rewrite (plan_chunk_two _ _ _ H2).
    unfold Planner.load, Planner.assigned.
    rewrite !lookup_insert_eq. rewrite !lookup_insert_ne by done.
    rewrite !lookup_insert_eq.
    cbn [default from_option id length Nat.ltb Nat.leb app].
    rewrite (plan_chunk_two _ _ _ H3).
    unfold Planner.load, Planner.assigned.
    rewrite !lookup_insert_eq. rewrite !lookup_insert_ne by done.
    rewrite !lookup_insert_eq.
    cbn [default from_option id length Nat.ltb Nat.leb app].
    apply map_eq. intros k.
    destruct (decide (k = FileManager.peer_key B)) as [->|HkB].
    { by rewrite !lookup_insert_eq. }
    rewrite !(lookup_insert_ne _ (FileManager.peer_key B)) by done.
    destruct (decide (k = FileManager.peer_key A)) as [->|HkA].
    { by rewrite !lookup_insert_eq. }
    rewrite !(lookup_insert_ne _ (FileManager.peer_key A)) by done.
    rewrite !(lookup_insert_ne _ (FileManager.peer_key B)) by done.
    rewrite !(lookup_insert_ne _ (FileManager.peer_key A)) by done.
    reflexivity.
  - unfold provider_keys. apply set_eq. intros k.
    rewrite elem_of_list_to_set. cbn [concat]. rewrite app_nil_r.
    rewrite !map_app, !elem_of_app.
    assert (Hl : forall l, l ≡ₚ [A; B] ->
               (k ∈ map FileManager.peer_key l
                <-> k = FileManager.peer_key A \/ k = FileManager.peer_key B)).
    { intros l Hl. rewrite Hl. cbn [map].
      rewrite !elem_of_cons. rewrite elem_of_nil. tauto. }
    rewrite (Hl _ H0), (Hl _ H1), (Hl _ H2), (Hl _ H3).
    rewrite elem_of_union, !elem_of_singleton. tauto.
Qed.

End TwoProviders.

(** C1, as the code has it: with a table of at most [INT_MAX] chunks,
    [selectPeersForChunkDownload] returns the map of the specification with
    an empty list added for every provider of the table that map has no
    entry for; so the list of every provider key is the one of the
    specification, a key without entry counting for the empty list.  In the
    scenario of two providers A and B, A the faster, that both hold the four
    chunks of a file, the map returned gives chunks 0 and 2 to A and 1 and 3
    to B, and nothing else. *)
Theorem selectPeers_plans
    (E : Env) (w : World) (file_name : string)
    (table : list (list ChunkLocationInfo)) :
  sorts_by_rate (std_sort E) ->
  chunk_location_info (file_manager w) !! file_name = Some table ->
  Z.of_nat (length table) <= INT_MAX ->
  let plan := Planner.plan (std_sort E) table in
  exists chunks_by_peer,
    FileManager.selectPeersForChunkDownload E file_name w
      = Some (chunks_by_peer, table_locked w file_name)
    /\ chunks_by_peer = with_empty_entries (provider_keys table) plan
    /\ (forall key, Planner.assigned chunks_by_peer key = Planner.assigned plan key)
    /\ (forall key, key ∈ provider_keys table -> is_Some (chunks_by_peer !! key))
    /\ (forall A B,
         transfer_speed A = 100 -> transfer_speed B = 50 ->
         FileManager.peer_key A <> FileManager.peer_key B ->
         length table = 4%nat -> Forall (fun l => l ≡ₚ [A; B]) table ->
         chunks_by_peer
         = <[FileManager.peer_key B := [1; 3]]>
             (<[FileManager.peer_key A := [0; 2]]> ∅)).
Proof.
  intros Hsort Htable Hlen plan.
  assert (Hrun : FileManager.selectPeersForChunkDownload E file_name w
                 = Some (with_empty_entries (provider_keys table) plan,
                         table_locked w file_name)).
  { unfold FileManager.selectPeersForChunkDownload,
      FileManager.lock_chunk_location_info.
    unfold bind at 1. unfold bind at 1. unfold get_fm at 1. unfold put_fm at 1.
    unfold bind at 1. unfold get_fm at 1.
    cbn [file_manager chunk_location_info FileManager.with_chunk_location_info_mutex].
    rewrite Htable. unfold ret. f_equal. f_equal.
    rewrite <- (with_empty_entries_empty ∅) at 1.
    rewrite (assign_chunks_plan (std_sort E)).
    - f_equal. set_solver.
    - intros l. apply Hsort.
    - intros k. unfold Planner.assigned. rewrite lookup_empty. cbn. lia.
    - unfold INT_MAX in *. lia. }
  eexists. split; [exact Hrun|]. split; [reflexivity|].
  split; [intros key; apply assigned_with_empty_entries|].
  split.
  { intros key Hkey. rewrite lookup_with_empty_entries.
    destruct (plan !! key); [eauto|]. rewrite decide_True by done. eauto. }
  intros A B HA HB Hkeys Hfour Hall.
  destruct (plan_four (std_sort E) Hsort A B) with (table := table)
    as [Hplan Hprov]; [lia|done|done|done|].
  fold plan in Hplan. rewrite Hplan, Hprov.
  apply map_eq. intros k. rewrite lookup_with_empty_entries.
  destruct (decide (k = FileManager.peer_key B)) as [->|HkB].
  { by rewrite !lookup_insert_eq. }
  rewrite !(lookup_insert_ne _ (FileManager.peer_key B)) by done.
  destruct (decide (k = FileManager.peer_key A)) as [->|HkA].
  { by rewrite !lookup_insert_eq. }
  rewrite !(lookup_insert_ne _ (FileManager.peer_key A)) by done.
  rewrite lookup_empty. rewrite decide_False by set_solver. reflexivity.
Qed.

Lemma selectPeers_plans_witness :
  exists chunks_by_peer,
    FileManager.selectPeersForChunkDownload Sample.env "book.txt" Sample.answered_world
      = Some (chunks_by_peer, table_locked Sample.answered_world "book.txt")
    /\ forall key,
        Planner.assigned chunks_by_peer key
        = Planner.assigned
            (Planner.plan Sample.sort_by_speed [[Sample.provider_A; Sample.provider_B]])
            key.
Proof.
  destruct (selectPeers_plans Sample.env Sample.answered_world "book.txt"
              [[Sample.provider_A; Sample.provider_B]])
    as (chunks_by_peer & Hrun & _ & Hassigned & _).
  - exact sample_sort_sorts.
  - reflexivity.
  - vm_compute. discriminate.
  - exists chunks_by_peer. split; [exact Hrun|exact Hassigned].
Defined.

(** C1, at a one-chunk file that providers A and B both hold: the map
    returned has an entry for B, with no chunk, and the map of the
    specification has none. *)
Lemma selectPeers_keeps_empty_entries :
  exists chunks_by_peer w',
    FileManager.selectPeersForChunkDownload Sample.env "book.txt" Sample.answered_world
      = Some (chunks_by_peer, w')
    /\ chunks_by_peer !! "10.0.0.3:5003" = Some []
    /\ Planner.plan Sample.sort_by_speed [[Sample.provider_A; Sample.provider_B]]
       !! "10.0.0.3:5003" = None
    /\ chunks_by_peer
       <> Planner.plan Sample.sort_by_speed [[Sample.provider_A; Sample.provider_B]].
Proof.
  eexists. eexists. split; [vm_compute; reflexivity|].
  split; [vm_compute; reflexivity|].
  split; [vm_compute; reflexivity|].
  intros Heq.
  apply (f_equal (fun m : gmap string (list Z) => m !! "10.0.0.3:5003")) in Heq.
  vm_compute in Heq. discriminate Heq.
Qed.

(* ===================================================================== *)
(** * The statements at the sample peer *)
(* ===================================================================== *)

Lemma discovery_from_self_ignored_witness :
  UDPServer.processMessage Sample.env
    (DISCOVERY "book.txt" 3 2 "10.0.0.1:5001") Sample.sender Sample.world
  = Some (tt, Sample.world).
Proof.
  apply (discovery_from_self_ignored Sample.env Sample.world "book.txt" 3 2
           "10.0.0.1:5001" Sample.sender).
  reflexivity.
Defined.


Lemma storeChunkLocationInfo_records_once_witness :
  exists w',
    FileManager.storeChunkLocationInfo "book.txt" [0; 7; -1] "10.0.0.4" 5004 80
      Sample.answered_world = Some (tt, w')
    /\ length (DiscoveryTable w' "book.txt") = 1%nat
    /\ trace w' = [out_of_range_line "book.txt" 7; out_of_range_line "book.txt" (-1)].
Proof.
  destruct (storeChunkLocationInfo_records_once Sample.answered_world "book.txt"
              [0; 7; -1] "10.0.0.4" 5004 80)
    as (w' & Hrun & _ & Hlen & _ & _ & Htrace & _).
  - repeat constructor; vm_compute; discriminate.
  - vm_compute. reflexivity.
  - exists w'. split; [exact Hrun|]. split; [exact Hlen|].
    rewrite Htrace. vm_compute. reflexivity.
Defined.

Lemma searchFile_abandoned_without_sidecar_witness :
  exists w',
    Peer.searchFile Sample.env "book.txt" Sample.world = Some (tt, w')
    /\ file_manager w' = file_manager Sample.world
    /\ processing_active_map w' = processing_active_map Sample.world.
Proof.
  destruct (searchFile_abandoned_without_sidecar Sample.env Sample.world "book.txt")
    as (w' & _ & Hrun & _ & Hfm & Hact & _).
  - reflexivity.
  - exists w'. split; [exact Hrun|]. split; [exact Hfm|exact Hact].
Defined.

Lemma sendChunks_paced_witness :
  exists header payload done,
    TCPServer.sendChunks Sample.env "book.txt" [0] Sample.sender Sample.serving_world
    = Some (tt, with_events Sample.serving_world
                  (flat_map (block_events INFO) header
                   ++ flat_map (block_events CHUNK_SENT) payload
                   ++ [EvLog SUCCESS done]))
    /\ length header = 16%nat
    /\ length payload = 4%nat
    /\ 3 <= seconds_slept (between_sends (flat_map (block_events CHUNK_SENT) payload)).
Proof.
  destruct (sendChunks_paced Sample.env Sample.sender Sample.serving_world "book.txt" 0
              (replicate 256 "x"%char))
    as (header & payload & done & Hrun & _ & _ & _ & Hh & Hp & _ & Hsleep).
  - reflexivity.
  - vm_compute. split; discriminate.
  - reflexivity.
  - reflexivity.
  - reflexivity.
  - exists header, payload, done. split; [exact Hrun|].
    split. { apply Nat2Z.inj. rewrite Hh. reflexivity. }
    split. { apply Nat2Z.inj. rewrite Hp. reflexivity. }
    apply Hsleep; reflexivity.
Defined.

(* ===================================================================== *)
(** * More on the chunk store *)
(* ===================================================================== *)

Section AssemblyFrame.

Variable file_name : string.

Lemma LocalChunkSet_counted_any (w : World) (other : string) :
  LocalChunkSet (counted file_name w) other = LocalChunkSet w other.
Proof.
  destruct (decide (other = file_name)) as [->|Hne];
    [apply LocalChunkSet_counted|].
  unfold LocalChunkSet, counted.
  cbn [file_manager FileManager.with_local_chunks local_chunks].
  unfold subscript. destruct (local_chunks (file_manager w) !! file_name); [done|].
  cbn [snd]. by rewrite lookup_insert_ne.
Qed.

Lemma total_chunks_of_counted (w : World) (other : string) :
  total_chunks_of (counted file_name w) other = total_chunks_of w other.
Proof.
  unfold total_chunks_of, counted.
  cbn [file_manager FileManager.with_local_chunks FileManager.with_file_chunks
       file_chunks].
  unfold subscript.
  destruct (file_chunks (file_manager w) !! file_name) eqn:Hf; [done|].
  cbn [snd]. destruct (decide (other = file_name)) as [->|Hne].
  - by rewrite lookup_insert_eq, Hf.
  - by rewrite lookup_insert_ne.
Qed.

(** What [assembleFile] leaves alone: every file but the assembled one,
    the local set and the chunk count of every file, the response
    windows.  When the local set is not complete it touches neither the
    disk nor the tables, and logs nothing. *)
Lemma assembleFile_frame (w : World) :
  exists b w',
    FileManager.assembleFile file_name w = Some (b, w')
    /\ (forall p, p <> output_path w file_name ->
        contents (fs w') !! p = contents (fs w) !! p)
    /\ no_write (fs w') = no_write (fs w)
    /\ (forall other, LocalChunkSet w' other = LocalChunkSet w other)
    /\ (forall other, total_chunks_of w' other = total_chunks_of w other)
    /\ directory (file_manager w') = directory (file_manager w)
    /\ processing_active_map w' = processing_active_map w
    /\ (forall other, other <> file_name ->
        chunk_location_info (file_manager w') !! other
        = chunk_location_info (file_manager w) !! other)
    /\ (b = false ->
        chunk_location_info (file_manager w') = chunk_location_info (file_manager w))
    /\ (~ set_complete w file_name ->
        b = false /\ fs w' = fs w /\ trace w' = trace w).
Proof.
  rewrite assembleFile_unfold. unfold set_complete.
  destruct (Z.of_nat (size (LocalChunkSet w file_name))
            =? to_size_t (total_chunks_of w file_name)) eqn:Hsize.
  2:{ exists false, (counted file_name w). split; [reflexivity|].
      repeat split; try done.
      - apply LocalChunkSet_counted_any.
      - apply total_chunks_of_counted. }
  apply Z.eqb_eq in Hsize.
  set (out := output_path w file_name).
  set (ids := FileManager.chunk_indices (total_chunks_of w file_name)).
  assert (Hopen : exists fail w2,
             FileManager.open_ofstream out (counted file_name w) = Some (fail, w2)
             /\ file_manager w2 = file_manager (counted file_name w)
             /\ processing_active_map w2 = processing_active_map w
             /\ trace w2 = trace w
             /\ no_write (fs w2) = no_write (fs w)
             /\ (forall p, p <> out -> contents (fs w2) !! p = contents (fs w) !! p)).
  { unfold FileManager.open_ofstream. unfold bind at 1. unfold get_fs at 1.
    case_bool_decide.
    - exists true, (counted file_name w). repeat split; done.
    - unfold bind at 1. unfold put_fs at 1. eexists false, _.
      split; [reflexivity|]. cbn [file_manager processing_active_map trace fs
                                contents no_write counted].
      repeat split; try done. intros p Hp. by rewrite lookup_insert_ne. }
  destruct Hopen as (fail & w2 & Hopen & Hfm2 & Hact2 & Htr2 & Hnw2 & Hother2).
  rewrite (bind_some _ _ _ _ _ Hopen).
  destruct (copy_chunks_run file_name out ids fail w2)
    as (b & w3 & Hrun & Hfm3 & Hact3 & Hnw3 & Hother3 & _ & _ & _ & _ & _).
  { intros i. rewrite Hfm2. apply chunk_path_not_output. }
  rewrite (bind_some _ _ _ _ _ Hrun).
  assert (Hfm : file_manager w3 = file_manager (counted file_name w)) by congruence.
  assert (Hls : forall other, LocalChunkSet w3 other = LocalChunkSet w other).
  { intros other. rewrite <- (LocalChunkSet_counted_any w other).
    unfold LocalChunkSet. by rewrite Hfm. }
  assert (Htc : forall other, total_chunks_of w3 other = total_chunks_of w other).
  { intros other. rewrite <- (total_chunks_of_counted w other).
    unfold total_chunks_of. by rewrite Hfm. }
  destruct b.
  - eexists true, _. split; [reflexivity|].
    cbn [fs file_manager processing_active_map trace with_events
         FileManager.with_chunk_location_info_mutex
         FileManager.with_chunk_location_info chunk_location_info directory].
    split. { intros p Hp. rewrite Hother3, Hother2; done. }
    split; [congruence|].
    split. { intros other. rewrite <- Hls. reflexivity. }
    split. { intros other. rewrite <- Htc. reflexivity. }
    split; [by rewrite Hfm|]. split; [congruence|].
    split. { intros other Hne. rewrite lookup_delete_ne by done. by rewrite Hfm. }
    split; [done|]. intros Hn. by destruct Hn.
  - exists false, w3. split; [reflexivity|].
    split. { intros p Hp. rewrite Hother3, Hother2; done. }
    split; [congruence|]. split; [exact Hls|]. split; [exact Htc|].
    split; [by rewrite Hfm|]. split; [congruence|].
    split. { intros other Hne. by rewrite Hfm. }
    split; [intros _; by rewrite Hfm|]. intros Hn. by destruct Hn.
Qed.

End AssemblyFrame.

Lemma set_in_order_increasing (s : gset Z) : StronglySorted Z.lt (set_in_order s).
Proof.
  unfold set_in_order.
  assert (Hsorted : StronglySorted Z.le (merge_sort Z.le (elements s)))
    by apply (StronglySorted_merge_sort _).
  assert (Hnodup : NoDup (merge_sort Z.le (elements s))).
  { rewrite merge_sort_Permutation. apply NoDup_elements. }
  induction Hsorted as [|x l Hl IH Hall]; [constructor|].
  apply NoDup_cons in Hnodup as [Hx Hnodup]. constructor; [by apply IH|].
  rewrite Forall_forall in Hall |- *. intros y Hy.
  specialize (Hall y Hy). assert (x <> y) by (intros ->; done). lia.
Qed.

(** [hasChunk] answers membership in the local set and, although its
    subscript may add an entry, changes the local set of no file. *)
Lemma hasChunk_run (file_name : string) (chunk : Z) (w : World) :
  exists w',
    FileManager.hasChunk file_name chunk w
      = Some (bool_decide (chunk ∈ LocalChunkSet w file_name), w')
    /\ (forall other, LocalChunkSet w' other = LocalChunkSet w other)
    /\ fs w' = fs w
    /\ trace w' = trace w
    /\ processing_active_map w' = processing_active_map w
    /\ chunk_location_info (file_manager w') = chunk_location_info (file_manager w)
    /\ chunk_location_info_mutex (file_manager w')
       = chunk_location_info_mutex (file_manager w)
    /\ file_chunks (file_manager w') = file_chunks (file_manager w)
    /\ directory (file_manager w') = directory (file_manager w).
Proof.
  unfold FileManager.hasChunk, FileManager.lock_local_chunks.
  unfold bind at 1. unfold bind at 1. unfold get_fm at 1. unfold put_fm at 1.
  unfold bind at 1. unfold get_fm at 1.
  cbn [file_manager local_chunks FileManager.with_local_chunks_mutex].
  destruct (subscript ∅ (local_chunks (file_manager w)) file_name) as [chunks lc] eqn:Hsub.
  unfold bind at 1. unfold put_fm at 1. unfold ret.
  assert (chunks = LocalChunkSet w file_name) as Hchunks.
  { change chunks with (chunks, lc).1. rewrite <- Hsub.
    unfold LocalChunkSet. apply subscript_fst. }
  rewrite <- Hchunks.
  eexists. split; [reflexivity|].
  cbn [file_manager fs trace processing_active_map FileManager.with_local_chunks
       FileManager.with_local_chunks_mutex chunk_location_info
       chunk_location_info_mutex file_chunks directory].
  split; [|repeat split; reflexivity].
  intros other. unfold LocalChunkSet.
  cbn [file_manager local_chunks FileManager.with_local_chunks].
  change lc with (chunks, lc).2. rewrite <- Hsub.
  destruct (decide (other = file_name)) as [->|Hne].
  - by rewrite subscript_snd_lookup.
  - unfold subscript. destruct (local_chunks (file_manager w) !! file_name); [done|].
    cbn [snd]. by rewrite lookup_insert_ne.
Qed.

Lemma getAvailableChunks_frame (file_name : string) (w : World) :
  exists w',
    FileManager.getAvailableChunks file_name w
      = Some (set_in_order (LocalChunkSet w file_name), w')
    /\ (forall other, LocalChunkSet w' other = LocalChunkSet w other)
    /\ fs w' = fs w /\ trace w' = trace w.
Proof.
  unfold FileManager.getAvailableChunks, FileManager.lock_local_chunks,
    LocalChunkSet, bind, get_fm, put_fm. simpl.
  destruct (local_chunks (file_manager w) !! file_name);
    eexists; (split; [reflexivity|]); repeat split; reflexivity.
Qed.

(** X2: the two queries of the chunk store agree and change no local set:
    [hasChunk] returns [true] for exactly the chunks [getAvailableChunks]
    lists, and the list is in strictly increasing order. *)
Theorem store_queries_agree (file_name : string) (chunk : Z) (w : World) :
  exists held answer w1 w2,
    FileManager.getAvailableChunks file_name w = Some (held, w1)
    /\ FileManager.hasChunk file_name chunk w = Some (answer, w2)
    /\ (answer = true <-> chunk ∈ held)
    /\ StronglySorted Z.lt held
    /\ (forall other, LocalChunkSet w1 other = LocalChunkSet w other)
    /\ (forall other, LocalChunkSet w2 other = LocalChunkSet w other).
Proof.
  destruct (getAvailableChunks_frame file_name w) as (w1 & Hget & Hl1 & _).
  destruct (hasChunk_run file_name chunk w) as (w2 & Hhas & Hl2 & _).
  eexists _, _, w1, w2. split; [exact Hget|]. split; [exact Hhas|].
  split. { rewrite bool_decide_eq_true. symmetry. apply set_in_order_elem. }
  split; [apply set_in_order_increasing|]. split; assumption.
Qed.

Lemma saveChunk_writable (file_name : string) (chunk : Z) (data : bytes) (w : World) :
  FileManager.getChunkPath (file_manager w) file_name chunk ∉ no_write (fs w) ->
  FileManager.saveChunk file_name chunk data w
  = bind (FileManager.assembleFile file_name) (fun _ => ret tt)
         (chunk_saved w file_name chunk data).
Proof.
  intros Hnw.
  unfold FileManager.saveChunk, FileManager.lock_local_chunks.
  unfold bind at 1. unfold bind at 1. unfold get_fm at 1. unfold put_fm at 1.
  unfold bind at 1. unfold get_fm at 1. unfold bind at 1. unfold get_fs at 1.
  cbn [file_manager fs].
  change (FileManager.getChunkPath
            (FileManager.with_local_chunks_mutex (file_manager w)
               ({[file_name]} ∪ local_chunks_mutex (file_manager w)))
            file_name chunk)
    with (FileManager.getChunkPath (file_manager w) file_name chunk).
  rewrite bool_decide_eq_false_2 by done.
  unfold bind at 1. unfold put_fs at 1. cbn [fs file_manager processing_active_map trace].
  cbn [local_chunks FileManager.with_local_chunks_mutex].
  destruct (subscript ∅ (local_chunks (file_manager w)) file_name) as [chunks lc] eqn:Hsub.
  unfold bind at 1. unfold put_fm at 1.
  cbn [fs file_manager processing_active_map trace].
  assert (chunks = LocalChunkSet w file_name) as Hchunks.
  { change chunks with (chunks, lc).1. rewrite <- Hsub.
    unfold LocalChunkSet. apply subscript_fst. }
  rewrite Hchunks. clear Hchunks.
  assert (<[file_name := {[chunk]} ∪ LocalChunkSet w file_name]> lc
          = <[file_name := {[chunk]} ∪ LocalChunkSet w file_name]>
              (local_chunks (file_manager w))) as ->.
  { change lc with (chunks, lc).2. rewrite <- Hsub. apply insert_subscript. }
  reflexivity.
Qed.

(** X1: a chunk saved is a chunk held.  When the artifact can be opened
    for writing, [saveChunk] leaves the bytes received in it, adds the chunk
    to the local set of the file and to no other, and [hasChunk] then
    answers [true]. *)
Theorem saveChunk_then_hasChunk
    (file_name : string) (chunk : Z) (data : bytes) (w : World) :
  FileManager.getChunkPath (file_manager w) file_name chunk ∉ no_write (fs w) ->
  exists w1 w2,
    FileManager.saveChunk file_name chunk data w = Some (tt, w1)
    /\ contents (fs w1) !! FileManager.getChunkPath (file_manager w) file_name chunk
       = Some data
    /\ LocalChunkSet w1 file_name = {[chunk]} ∪ LocalChunkSet w file_name
    /\ (forall other, other <> file_name ->
        LocalChunkSet w1 other = LocalChunkSet w other)
    /\ FileManager.hasChunk file_name chunk w1 = Some (true, w2).
Proof.
  intros Hnw. rewrite (saveChunk_writable _ _ _ _ Hnw).
  destruct (assembleFile_frame file_name (chunk_saved w file_name chunk data))
    as (b & w1 & Hrun & Hother & _ & Hsets & _).
  rewrite (bind_some _ _ _ _ _ Hrun). unfold ret.
  assert (Hset : LocalChunkSet w1 file_name = {[chunk]} ∪ LocalChunkSet w file_name).
  { rewrite Hsets. unfold LocalChunkSet at 1.
    cbn [chunk_saved file_manager FileManager.with_local_chunks local_chunks].
    by rewrite lookup_insert_eq. }
  destruct (hasChunk_run file_name chunk w1) as (w2 & Hhas & _).
  exists w1, w2. split; [reflexivity|].
  split.
  { rewrite Hother by apply chunk_path_not_output.
    cbn [chunk_saved fs contents]. apply lookup_insert_eq. }
  split; [exact Hset|].
  split.
  { intros other Hne. rewrite Hsets. unfold LocalChunkSet.
    cbn [chunk_saved file_manager FileManager.with_local_chunks local_chunks
         FileManager.with_local_chunks_mutex].
    by rewrite lookup_insert_ne. }
  rewrite Hhas. f_equal. f_equal. apply bool_decide_eq_true_2.
  rewrite Hset. set_solver.
Qed.

Section PartialAssembly.

Variable file_name : string.

Lemma copied_bytes_ext (w1 w2 : World) (ids : list Z) :
  (forall j, chunk_bytes w1 file_name j = chunk_bytes w2 file_name j) ->
  copied_bytes w1 file_name ids = copied_bytes w2 file_name ids.
Proof.
  intros Hsame. induction ids as [|i ids IH]; [done|].
  cbn [copied_bytes]. by rewrite Hsame, IH.
Qed.

Lemma copied_bytes_all (w : World) (ids : list Z) :
  Forall (fun i => chunk_bytes w file_name i <> []) ids ->
  copied_bytes w file_name ids = chunks_bytes w file_name ids.
Proof.
  induction 1 as [|i ids Hi _ IH]; [done|].
  unfold chunks_bytes in *. cbn [copied_bytes flat_map]. rewrite IH.
  by destruct (chunk_bytes w file_name i).
Qed.

Lemma copy_chunks_stops (out : string) (missing : Z) (after : list Z)
    (before : list Z) :
  forall (fail : bool) (w : World),
    (forall i, FileManager.getChunkPath (file_manager w) file_name i <> out) ->
    Forall (chunk_readable w file_name) before ->
    ~ chunk_readable w file_name missing ->
    exists w',
      FileManager.copy_chunks file_name (before ++ missing :: after) out fail w
        = Some (false, w')
      /\ file_manager w' = file_manager w
      /\ trace w' = trace w ++ [chunk_open_error w file_name missing]
      /\ default [] (contents (fs w') !! out)
         = default [] (contents (fs w) !! out)
           ++ (if fail then [] else copied_bytes w file_name before)
      /\ (is_Some (contents (fs w) !! out) -> is_Some (contents (fs w') !! out)).
Proof.
  induction before as [|i before IH]; intros fail w Hout Hbefore Hmissing.
  - cbn [app FileManager.copy_chunks]. unfold bind at 1. unfold get_fm at 1.
    unfold bind at 1. unfold get_fs at 1.
    destruct (contents (fs w) !! FileManager.getChunkPath (file_manager w) file_name missing)
      as [data|] eqn:Hdata.
    { exfalso. apply Hmissing. unfold chunk_readable. rewrite Hdata. eauto. }
    unfold bind, logMessage, emit, ret. eexists. split; [reflexivity|].
    cbn [file_manager trace fs with_events copied_bytes].
    repeat split; [|done]. destruct fail; by rewrite app_nil_r.
  - apply Forall_cons in Hbefore as [Hi Hbefore].
    cbn [app FileManager.copy_chunks]. unfold bind at 1. unfold get_fm at 1.
    unfold bind at 1. unfold get_fs at 1.
    destruct Hi as [data Hdata]. rewrite Hdata.
    assert (Hbytes : chunk_bytes w file_name i = data).
    { unfold chunk_bytes. by rewrite Hdata. }
    destruct (insert_rdbuf_run out fail data w)
      as (fail1 & w1 & Hrun1 & Hfm1 & _ & Htr1 & _ & Hother1 & Hok1 & Happ1
          & Hfail1 & Hsome1).
    rewrite (bind_some _ _ _ _ _ Hrun1).
    assert (Hsame : forall j,
               (chunk_readable w1 file_name j <-> chunk_readable w file_name j)
               /\ chunk_bytes w1 file_name j = chunk_bytes w file_name j).
    { intros j. unfold chunk_readable, chunk_bytes.
      rewrite Hfm1, Hother1; [done|apply Hout]. }
    destruct (IH fail1 w1) as (w' & Hrun & Hfm & Htr & Happ & Hsome).
    { intros j. rewrite Hfm1. apply Hout. }
    { eapply Forall_impl; [exact Hbefore|]. intros j Hr. by apply Hsame. }
    { intros H. apply Hmissing. by apply Hsame. }
    exists w'. split; [exact Hrun|]. split; [congruence|].
    split. { rewrite Htr, Htr1. unfold chunk_open_error. by rewrite Hfm1. }
    split; [|by auto].
    rewrite Happ. cbn [copied_bytes]. rewrite Hbytes.
    rewrite (copied_bytes_ext w1 w) by apply Hsame.
    destruct fail.
    + destruct (Hfail1 eq_refl) as [-> ->]. reflexivity.
    + destruct data as [|c data].
      * unfold FileManager.insert_rdbuf, ret in Hrun1.
        injection Hrun1 as <- <-. reflexivity.
      * rewrite (Hok1 eq_refl) in * by done.
        rewrite Happ1 by done. by rewrite <- app_assoc.
Qed.

Lemma chunk_indices_split (total k : Z) :
  0 <= k < total ->
  FileManager.chunk_indices total
  = FileManager.chunk_indices k ++ k :: map Z.of_nat (seq (S (Z.to_nat k))
                                                         (Z.to_nat total - S (Z.to_nat k))).
Proof.
  intros Hk. unfold FileManager.chunk_indices.
  replace (Z.to_nat total) with (Z.to_nat k + S (Z.to_nat total - S (Z.to_nat k)))%nat
    at 1 by lia.
  rewrite seq_app, map_app. cbn [seq map Nat.add]. f_equal. f_equal. lia.
Qed.

Lemma elem_of_chunk_indices (total i : Z) :
  i ∈ FileManager.chunk_indices total <-> 0 <= i < total.
Proof.
  unfold FileManager.chunk_indices. rewrite list_elem_of_In, in_map_iff. split.
  - intros (n & <- & Hn). apply in_seq in Hn. lia.
  - intros Hi. exists (Z.to_nat i). split; [lia|]. apply in_seq. lia.
Qed.

(** X3: an assembly that fails half way leaves half a file.  When the
    local set is complete, the assembled file can be opened for writing
    and chunk [missing] is the first whose artifact cannot be opened,
    [assembleFile] returns [false] and keeps the discovery state, but the
    assembled file has lost what it held before: it now holds the chunks
    before [missing] up to the first one of no byte, whose insertion
    leaves the output stream in the failed state, and nothing else.
    These are all the chunks before [missing] when none of them is
    empty. *)
Theorem assembleFile_leaves_partial_output (w : World) (missing : Z) :
  set_complete w file_name ->
  output_path w file_name ∉ no_write (fs w) ->
  0 <= missing < total_chunks_of w file_name ->
  (forall i, 0 <= i < missing -> chunk_readable w file_name i) ->
  ~ chunk_readable w file_name missing ->
  exists w',
    FileManager.assembleFile file_name w = Some (false, w')
    /\ contents (fs w') !! output_path w file_name
       = Some (copied_bytes w file_name (FileManager.chunk_indices missing))
    /\ ((forall i, 0 <= i < missing -> chunk_bytes w file_name i <> []) ->
        contents (fs w') !! output_path w file_name
        = Some (chunks_bytes w file_name (FileManager.chunk_indices missing)))
    /\ chunk_location_info (file_manager w') = chunk_location_info (file_manager w)
    /\ chunk_location_info_mutex (file_manager w')
       = chunk_location_info_mutex (file_manager w)
    /\ trace w' = trace w ++ [chunk_open_error w file_name missing].
Proof.
  intros Hcomplete Hwritable Hmissing Hbefore Hclosed.
  rewrite assembleFile_unfold. unfold set_complete in Hcomplete.
  rewrite (proj2 (Z.eqb_eq _ _) Hcomplete).
  set (out := output_path w file_name) in *.
  unfold bind at 1. unfold FileManager.open_ofstream at 1.
  unfold bind at 1. unfold get_fs at 1.
  cbn [fs counted]. rewrite bool_decide_eq_false_2 by done.
  unfold bind at 1. unfold put_fs at 1. unfold ret at 1.
  cbn [fs file_manager processing_active_map trace counted contents no_write].
  match goal with
  | |- context [bind (FileManager.copy_chunks _ _ _ _) _ ?w0] => set (w2 := w0)
  end.
  assert (Hsame : forall j,
             (chunk_readable w2 file_name j <-> chunk_readable w file_name j)
             /\ chunk_bytes w2 file_name j = chunk_bytes w file_name j).
  { intros j. unfold chunk_readable, chunk_bytes. cbn [w2 fs contents].
    change (FileManager.getChunkPath (file_manager w2) file_name j)
      with (FileManager.getChunkPath (file_manager w) file_name j).
    rewrite lookup_insert_ne; [done|]. apply not_eq_sym, chunk_path_not_output. }
  rewrite (chunk_indices_split _ _ Hmissing).
  destruct (copy_chunks_stops out missing
              (map Z.of_nat (seq (S (Z.to_nat missing))
                                 (Z.to_nat (total_chunks_of w file_name)
                                  - S (Z.to_nat missing))))
              (FileManager.chunk_indices missing) false w2)
    as (w' & Hrun & Hfm & Htr & Happ & Hsome).
  { intros i. apply chunk_path_not_output. }
  { apply Forall_forall. intros i Hi. apply elem_of_chunk_indices in Hi.
    apply Hsame. by apply Hbefore. }
  { intros H. apply Hclosed. by apply Hsame. }
  rewrite (bind_some _ _ _ _ _ Hrun). exists w'. split; [reflexivity|].
  assert (Hout : contents (fs w') !! out
                 = Some (copied_bytes w file_name (FileManager.chunk_indices missing))).
  { destruct Hsome as [d Hd].
    { cbn [w2 fs contents]. rewrite lookup_insert_eq. eauto. }
    rewrite Hd in Happ. cbn [default from_option id] in Happ.
    rewrite Hd, Happ. cbn [w2 fs contents]. rewrite lookup_insert_eq.
    cbn [default from_option id app]. f_equal.
    apply copied_bytes_ext. intros j. apply Hsame. }
  split; [exact Hout|]. split.
  { intros Hfull. rewrite Hout. f_equal. apply copied_bytes_all.
    apply Forall_forall. intros i Hi. apply elem_of_chunk_indices in Hi.
    by apply Hfull. }
  rewrite Hfm. repeat split; try reflexivity. exact Htr.
Qed.

End PartialAssembly.
(* ===================================================================== *)
(** * Responses inside the window *)
(* ===================================================================== *)

Lemma only_logs_silent (es : list Event) :
  only_logs es -> datagrams es = [] /\ tcp_blocks es = [] /\ seconds_slept es = 0.
Proof.
  induction 1 as [|e es He _ IH]; [done|].
  destruct e; done.
Qed.

Lemma chunks_not_held_run (file_name : string) (chunks : list Z) :
  forall w : World,
    exists w',
      UDPServer.chunks_not_held file_name chunks w
        = Some (not_held w file_name chunks, w')
      /\ (forall other, LocalChunkSet w' other = LocalChunkSet w other)
      /\ fs w' = fs w
      /\ trace w' = trace w
      /\ processing_active_map w' = processing_active_map w
      /\ chunk_location_info (file_manager w') = chunk_location_info (file_manager w)
      /\ file_chunks (file_manager w') = file_chunks (file_manager w)
      /\ directory (file_manager w') = directory (file_manager w).
Proof.
  induction chunks as [|chunk rest IH]; intros w.
  - exists w. done.
  - destruct (hasChunk_run file_name chunk w)
      as (w1 & Hrun1 & Hset1 & Hfs1 & Htr1 & Hact1 & Hinfo1 & _ & Hfc1 & Hdir1).
    destruct (IH w1) as (w' & Hrun & Hset & Hfs & Htr & Hact & Hinfo & Hfc & Hdir).
    exists w'. split.
    + cbn [UDPServer.chunks_not_held].
      rewrite (bind_some _ _ _ _ _ Hrun1), (bind_some _ _ _ _ _ Hrun).
      unfold ret, not_held. rewrite filter_cons.
      assert (Hrest : filter (fun c => c ∉ LocalChunkSet w1 file_name) rest
                      = filter (fun c => c ∉ LocalChunkSet w file_name) rest).
      { by rewrite Hset1. }
      unfold not_held in *. rewrite Hrest.
      case_bool_decide as Hin.
      * rewrite decide_False by (intros H; by apply H). reflexivity.
      * rewrite decide_True by done. reflexivity.
    + repeat split; try congruence. 
Qed.

(** X4: a RESPONSE inside the window records its sender, and does nothing
    else.  The sender (the address the datagram came from) is recorded, at
    the rate the datagram names, for exactly the chunks of the datagram that
    are in the table of the file and not in the local set; the table keeps
    its length, the local sets and the disk are as before, the window stays
    open, and what is added to the trace is lines of the log: the peer
    sends nothing in return. *)
Theorem response_in_window_recorded (E : Env)
    (w : World) (file_name : string) (speed : Z) (chunks : list Z)
    (sender : PeerInfo) :
  window_open w file_name = true ->
  Forall is_int chunks ->
  vector_size (length (DiscoveryTable w file_name)) ->
  exists w' es,
    UDPServer.processMessage E (RESPONSE file_name speed chunks) sender w
      = Some (tt, w')
    /\ length (DiscoveryTable w' file_name) = length (DiscoveryTable w file_name)
    /\ (forall j providers,
         DiscoveryTable w file_name !! j = Some providers ->
         DiscoveryTable w' file_name !! j
         = Some (if bool_decide (Z.of_nat j ∈ not_held w file_name chunks)
                 then recorded (peer_ip sender) (peer_port sender) speed providers
                 else providers))
    /\ (forall other, other <> file_name ->
        chunk_location_info (file_manager w') !! other
        = chunk_location_info (file_manager w) !! other)
    /\ (forall other, LocalChunkSet w' other = LocalChunkSet w other)
    /\ fs w' = fs w
    /\ window_open w' file_name = true
    /\ trace w' = trace w ++ es
    /\ only_logs es.
Proof.
  intros Hopen Hint Hsize.
  unfold UDPServer.processMessage. unfold bind at 1. unfold get_active at 1.
  assert (Hsub : subscript false (processing_active_map w) file_name
                 = (true, processing_active_map w)).
  { unfold window_open, subscript in *.
    destruct (processing_active_map w !! file_name) as [b|]; cbn [fst] in Hopen;
      by subst. }
  rewrite Hsub. unfold bind at 1. unfold put_active at 1.
  match goal with
  | |- context [UDPServer.processChunkResponseMessage _ _ _ _ ?w0] => set (w0' := w0)
  end.
  assert (Hw0 : w0' = w) by (by destruct w). rewrite Hw0. clear w0' Hw0.
  unfold UDPServer.processChunkResponseMessage.
  destruct (chunks_not_held_run file_name chunks w)
    as (w1 & Hrun1 & Hset1 & Hfs1 & Htr1 & Hact1 & Hinfo1 & _).
  rewrite (bind_some _ _ _ _ _ Hrun1).
  assert (Htable1 : DiscoveryTable w1 file_name = DiscoveryTable w file_name).
  { unfold DiscoveryTable. by rewrite Hinfo1. }
  assert (Hwin : forall w2, processing_active_map w2 = processing_active_map w ->
                            window_open w2 file_name = true).
  { intros w2 H. unfold window_open. by rewrite H, Hsub. }
  destruct (not_held w file_name chunks) as [|chunk received] eqn:Hreceived.
  { exists w1, []. split; [reflexivity|]. rewrite Htable1.
    split; [done|]. split.
    { intros j providers Hj. rewrite Hj.
      rewrite bool_decide_eq_false_2; [done|]. by intros H%elem_of_nil. }
    split. { intros other _. by rewrite Hinfo1. }
    split; [done|]. split; [done|]. split; [by apply Hwin|].
    split; [by rewrite app_nil_r|]. constructor. }
  rewrite <- Hreceived.
  assert (Hint' : Forall is_int (not_held w file_name chunks)).
  { unfold not_held. apply Forall_forall. intros c Hc.
    apply list_elem_of_filter in Hc as [_ Hc].
    eapply Forall_forall in Hint; [exact Hint|done]. }
  unfold FileManager.storeChunkLocationInfo, FileManager.lock_chunk_location_info.
  unfold bind at 1. unfold bind at 1. unfold bind at 1.
  unfold get_fm at 1. unfold put_fm at 1.
  match goal with
  | |- context [for_each _ _ ?w0] => set (locked := w0)
  end.
  assert (Hsame : DiscoveryTable locked file_name = DiscoveryTable w file_name)
    by exact Htable1.
  destruct (store_loop_run file_name (peer_ip sender) (peer_port sender) speed
              (not_held w file_name chunks) locked Hint')
    as (w2 & Hrun & Hlen & Hlook & Hother & Htr & Hfs & Hlc & _ & Hact).
  { by rewrite Hsame. }
  rewrite Hsame in Hlen, Hlook, Htr.
  rewrite Hrun. unfold logMessage, emit.
  eexists. eexists. split; [reflexivity|].
  cbn [with_events file_manager fs trace processing_active_map].
  split; [exact Hlen|]. split.
  { intros j providers Hj.
    change (DiscoveryTable (with_events w2 ?es) file_name)
      with (DiscoveryTable w2 file_name).
    rewrite Hlook, Hj. cbn. by case_bool_decide. }
  split. { intros other Hne. rewrite Hother by done. cbn [locked file_manager
             FileManager.with_chunk_location_info_mutex chunk_location_info].
           by rewrite Hinfo1. }
  split. { intros other.
           change (LocalChunkSet (with_events w2 ?es) other)
             with (LocalChunkSet w2 other).
           unfold LocalChunkSet at 1. rewrite Hlc. apply Hset1. }
  split. { rewrite Hfs. exact Hfs1. }
  split. { unfold window_open.
           cbn [with_events processing_active_map]. rewrite Hact.
           cbn [locked processing_active_map]. by rewrite Hact1, Hsub. }
  split.
  { rewrite Htr. cbn [locked trace]. rewrite Htr1, <- app_assoc. reflexivity. }
  apply Forall_app. split; [|by repeat constructor].
  apply Forall_forall. intros e He. apply list_elem_of_In, in_map_iff in He.
  destruct He as (c & <- & _). exact I.
Qed.
(* ===================================================================== *)
(** * More on the planner *)
(* ===================================================================== *)

Lemma fewest_is_Some (m : gmap string (list Z)) (l : list ChunkLocationInfo) :
  l <> [] -> exists p, Planner.fewest m l = Some p /\ p ∈ l.
Proof.
  intros Hne.
  assert (Hmin : exists p, In p l /\ forall q, In q l ->
                                    (Planner.load m p <= Planner.load m q)%nat).
  { clear -Hne. induction l as [|a l IH]; [done|].
    destruct l as [|b l].
    - exists a. split; [by left|]. intros q [<-|[]]. lia.
    - destruct IH as (p & Hp & Hle); [done|].
      destruct (le_lt_dec (Planner.load m a) (Planner.load m p)) as [Hap|Hpa].
      + exists a. split; [by left|]. intros q [<-|Hq]; [lia|].
        specialize (Hle q Hq). lia.
      + exists p. split; [by right|]. intros q [<-|Hq]; [lia|]. by apply Hle. }
  destruct Hmin as (p & Hp & Hle). unfold Planner.fewest.
  destruct (find _ l) as [x|] eqn:Hfind.
  - apply find_some in Hfind as [Hx _]. exists x. split; [done|].
    by apply list_elem_of_In.
  - exfalso. eapply find_none in Hfind; [|exact Hp]. cbv beta in Hfind.
    apply not_true_iff_false in Hfind. apply Hfind, forallb_forall.
    intros q Hq. apply Nat.leb_le. by apply Hle.
Qed.

Lemma StronglySorted_snoc (l : list Z) (x : Z) :
  StronglySorted Z.lt l -> (forall c, c ∈ l -> c < x) ->
  StronglySorted Z.lt (l ++ [x]).
Proof.
  induction 1 as [|a l Hl IH Ha]; intros Hx; cbn [app].
  - repeat constructor.
  - constructor.
    + apply IH. intros c Hc. apply Hx. by right.
    + apply Forall_app. split; [exact Ha|]. constructor; [|constructor].
      apply Hx. by left.
Qed.

Section Coverage.

Variable sort : list ChunkLocationInfo -> list ChunkLocationInfo.
Hypothesis sort_permutes : forall l, sort l ≡ₚ l.

Lemma covers_below (done : list (list ChunkLocationInfo))
    (m : gmap string (list Z)) (key : string) (c : Z) :
  covers done m -> c ∈ Planner.assigned m key -> c < Z.of_nat (length done).
Proof.
  intros (H1 & _) Hc. destruct (H1 _ _ Hc) as (j & providers & p & -> & Hj & _).
  apply lookup_lt_Some in Hj. lia.
Qed.

Lemma covers_step (done : list (list ChunkLocationInfo))
    (m : gmap string (list Z)) (providers : list ChunkLocationInfo) :
  covers done m ->
  covers (done ++ [providers]) (Planner.plan_chunk sort m (length done) providers).
Proof.
  intros Hcov. pose proof Hcov as (H1 & H2 & H3).
  assert (Hold : forall j l, done !! j = Some l -> (done ++ [providers]) !! j = Some l).
  { intros j l Hj. by rewrite lookup_app_l by (by eapply lookup_lt_Some). }
  assert (Hsplit : forall j l, (done ++ [providers]) !! j = Some l ->
                               done !! j = Some l \/ (j = length done /\ l = providers)).
  { intros j l Hj. apply lookup_app_Some in Hj as [Hj|[Hge Hj]]; [by left|right].
    destruct (j - length done)%nat as [|k] eqn:Hk; [|done].
    cbn in Hj. split; [lia|congruence]. }
  unfold Planner.plan_chunk.
  destruct providers as [|p0 l0].
  { split; [|split; [|exact H3]].
    - intros key c Hc. destruct (H1 _ _ Hc) as (j & l & p & -> & Hj & Hp & Hk).
      exists j, l, p. eauto.
    - intros j l Hj Hne. destruct (Hsplit _ _ Hj) as [Hj'|[_ ->]]; [|done].
      by apply (H2 j l). }
  set (providers := p0 :: l0) in *.
  destruct (fewest_is_Some m (sort providers)) as (p & Hp & Hin).
  { intros Hnil. pose proof (sort_permutes providers) as Hperm.
    rewrite Hnil in Hperm. by apply Permutation_nil_cons in Hperm. }
  rewrite Hp. rewrite (sort_permutes providers) in Hin.
  set (key := FileManager.peer_key p).
  assert (Hassigned : forall k,
             Planner.assigned
               (<[key := Planner.assigned m key ++ [Z.of_nat (length done)]]> m) k
             = if decide (k = key)
               then Planner.assigned m key ++ [Z.of_nat (length done)]
               else Planner.assigned m k).
  { intros k. unfold Planner.assigned at 1. destruct (decide (k = key)) as [->|Hne].
    - by rewrite lookup_insert_eq.
    - by rewrite lookup_insert_ne. }
  split; [|split].
  - intros k c. rewrite Hassigned. destruct (decide (k = key)) as [->|Hne].
    + intros [Hc|Hc%list_elem_of_singleton]%elem_of_app.
      * destruct (H1 _ _ Hc) as (j & l & q & -> & Hj & Hq & Hk).
        exists j, l, q. eauto.
      * exists (length done), providers, p. split; [done|].
        split; [|done]. rewrite lookup_app_r by lia.
        by rewrite Nat.sub_diag.
    + intros Hc. destruct (H1 _ _ Hc) as (j & l & q & -> & Hj & Hq & Hk).
      exists j, l, q. eauto.
  - intros j l Hj Hne. destruct (Hsplit _ _ Hj) as [Hj'|[-> ->]].
    + destruct (H2 j l Hj' Hne) as (k & Hk & Huniq).
      assert (Hlt : (j < length done)%nat) by (by eapply lookup_lt_Some).
      exists k. split.
      * rewrite Hassigned. destruct (decide (k = key)) as [->|]; [|done].
        apply elem_of_app. by left.
      * intros k'. rewrite Hassigned. destruct (decide (k' = key)) as [->|].
        -- intros [Hc|Hc%list_elem_of_singleton]%elem_of_app; [by apply Huniq|lia].
        -- apply Huniq.
    + exists key. split.
      * rewrite Hassigned, decide_True by done. apply elem_of_app. right.
        by apply list_elem_of_singleton.
      * intros k'. rewrite Hassigned. destruct (decide (k' = key)); [done|].
        intros Hc. apply (covers_below done m k') in Hc; [lia|done].
  - intros k. rewrite Hassigned. destruct (decide (k = key)) as [->|]; [|apply H3].
    apply StronglySorted_snoc; [apply H3|].
    intros c Hc. by apply (covers_below done m key).
Qed.

Lemma covers_plan (rest : list (list ChunkLocationInfo)) :
  forall (done : list (list ChunkLocationInfo)) (m : gmap string (list Z)),
    covers done m ->
    covers (done ++ rest) (Planner.plan_from sort (length done) rest m).
Proof.
  induction rest as [|providers rest IH]; intros done m Hcov.
  - by rewrite app_nil_r.
  - cbn [Planner.plan_from].
    replace (done ++ providers :: rest) with ((done ++ [providers]) ++ rest)
      by (by rewrite <- app_assoc).
    replace (S (length done)) with (length (done ++ [providers]))
      by (rewrite length_app; cbn; lia).
    apply IH. by apply covers_step.
Qed.

End Coverage.

(** X5: every chunk somebody announced is asked for once, of somebody who
    announced it.  Whatever order the sort leaves the providers in, the map
    [selectPeersForChunkDownload] returns for a table of at most [INT_MAX]
    chunks lists a chunk under a key only if a provider of that chunk has
    the key, lists every chunk that has a provider under one key and no
    other, and has every list in increasing order (so no chunk twice). *)
Theorem selectPeers_covers_once
    (E : Env) (w : World) (file_name : string)
    (table : list (list ChunkLocationInfo)) :
  (forall l, std_sort E l ≡ₚ l) ->
  chunk_location_info (file_manager w) !! file_name = Some table ->
  Z.of_nat (length table) <= INT_MAX ->
  exists chunks_by_peer,
    FileManager.selectPeersForChunkDownload E file_name w
      = Some (chunks_by_peer, table_locked w file_name)
    /\ (forall key chunk, chunk ∈ Planner.assigned chunks_by_peer key ->
          exists j providers p,
            chunk = Z.of_nat j /\ table !! j = Some providers
            /\ p ∈ providers /\ FileManager.peer_key p = key)
    /\ (forall j providers, table !! j = Some providers -> providers <> [] ->
          exists key, Z.of_nat j ∈ Planner.assigned chunks_by_peer key
                      /\ forall key', Z.of_nat j ∈ Planner.assigned chunks_by_peer key' ->
                                      key' = key)
    /\ (forall key, StronglySorted Z.lt (Planner.assigned chunks_by_peer key)).
Proof.
  intros Hsort Htable Hlen.
  exists (with_empty_entries (provider_keys table) (Planner.plan (std_sort E) table)).
  split.
  { unfold FileManager.selectPeersForChunkDownload,
      FileManager.lock_chunk_location_info.
    unfold bind at 1. unfold bind at 1. unfold get_fm at 1. unfold put_fm at 1.
    unfold bind at 1. unfold get_fm at 1.
    cbn [file_manager chunk_location_info FileManager.with_chunk_location_info_mutex].
    rewrite Htable. unfold ret. f_equal. f_equal.
    rewrite <- (with_empty_entries_empty ∅) at 1.
    rewrite (assign_chunks_plan (std_sort E)).
    - f_equal. set_solver.
    - exact Hsort.
    - intros k. unfold Planner.assigned. rewrite lookup_empty. cbn. lia.
    - unfold INT_MAX in *. lia. }
  assert (Hcov : covers table (Planner.plan (std_sort E) table)).
  { apply (covers_plan (std_sort E) Hsort table [] ∅).
    split; [|split].
    - intros key c. unfold Planner.assigned. rewrite lookup_empty.
      by intros H%elem_of_nil.
    - intros j providers Hj. done.
    - intros key. unfold Planner.assigned. rewrite lookup_empty. constructor. }
  destruct Hcov as (H1 & H2 & H3).
  split; [|split].
  - intros key chunk. rewrite assigned_with_empty_entries. apply H1.
  - intros j providers Hj Hne. destruct (H2 j providers Hj Hne) as (key & Hk & Huniq).
    exists key. rewrite assigned_with_empty_entries. split; [done|].
    intros key'. rewrite assigned_with_empty_entries. apply Huniq.
  - intros key. rewrite assigned_with_empty_entries. apply H3.
Qed.
(* ===================================================================== *)
(** * Numbers and endpoints written and read back *)
(* ===================================================================== *)

Lemma read_digits_uint (d : Decimal.uint) :
  forall (acc : Z) (n : nat) (rest : bytes),
    no_digit_ahead rest ->
    read_digits acc n (list_ascii_of_string (NilEmpty.string_of_uint d) ++ rest)
    = (digits_value acc d, (n + Decimal.nb_digits d)%nat, rest).
Proof.
  induction d; intros acc n rest Hrest;
    cbn [NilEmpty.string_of_uint list_ascii_of_string app read_digits
         digits_value Decimal.nb_digits];
    try (change (digit_of "0") with (Some 0);
         change (digit_of "1") with (Some 1);
         change (digit_of "2") with (Some 2);
         change (digit_of "3") with (Some 3);
         change (digit_of "4") with (Some 4);
         change (digit_of "5") with (Some 5);
         change (digit_of "6") with (Some 6);
         change (digit_of "7") with (Some 7);
         change (digit_of "8") with (Some 8);
         change (digit_of "9") with (Some 9);
         cbv iota; rewrite IHd by done; f_equal; f_equal; lia).
  rewrite Nat.add_0_r. destruct rest as [|c rest]; [done|].
  cbn [read_digits]. cbn [no_digit_ahead] in Hrest. by rewrite Hrest.
Qed.

Lemma digits_value_of_uint_acc (d : Decimal.uint) :
  forall acc : positive, Z.pos (Pos.of_uint_acc d acc) = digits_value (Z.pos acc) d.
Proof.
  induction d; intros acc; cbn [Pos.of_uint_acc digits_value]; [done|..];
    rewrite IHd; f_equal; lia.
Qed.

Lemma digits_value_of_uint (d : Decimal.uint) :
  Z.of_N (Pos.of_uint d) = digits_value 0 d.
Proof.
  induction d; cbn [Pos.of_uint digits_value]; [done|exact IHd|..];
    cbn [Z.of_N]; rewrite digits_value_of_uint_acc; reflexivity.
Qed.

Lemma digits_value_to_uint (p : positive) : digits_value 0 (Pos.to_uint p) = Z.pos p.
Proof.
  rewrite <- digits_value_of_uint, DecimalPos.Unsigned.of_to. reflexivity.
Qed.

Lemma nb_digits_nonnil (d : Decimal.uint) :
  d <> Decimal.Nil -> Decimal.nb_digits d <> 0%nat.
Proof. destruct d; done. Qed.

Lemma string_of_uint_head (d : Decimal.uint) :
  d <> Decimal.Nil ->
  exists c r, list_ascii_of_string (NilEmpty.string_of_uint d) = c :: r
              /\ is_space c = false /\ Ascii.eqb c "-" = false
              /\ Ascii.eqb c "+" = false.
Proof.
  destruct d; [done|..]; intros _;
    cbn [NilEmpty.string_of_uint list_ascii_of_string]; eexists; eexists;
    (split; [reflexivity|]); done.
Qed.

Lemma NilZero_string_of_uint_nonnil (d : Decimal.uint) :
  d <> Decimal.Nil -> NilZero.string_of_uint d = NilEmpty.string_of_uint d.
Proof. destruct d; done. Qed.

(** The text of a number, followed by something that is no digit, as the
    readers of the source take it apart: no white space to skip, the sign,
    then the digits with the magnitude as their value. *)
Lemma read_to_string (z : Z) (rest : bytes) :
  no_digit_ahead rest ->
  let text := list_ascii_of_string (to_string z) ++ rest in
  skip_spaces text = text
  /\ text <> []
  /\ exists cs count,
       read_sign text = (z <? 0, cs)
       /\ read_digits 0 0 cs = (Z.abs z, count, rest)
       /\ count <> 0%nat.
Proof.
  intros Hrest. unfold to_string. destruct z as [|p|p]; cbn [Z.to_int NilZero.string_of_int].
  - cbn. split; [done|]. split; [done|]. exists ("0"%char :: rest), 1%nat.
    split; [done|]. split; [|done]. cbn [read_digits].
    change (digit_of "0") with (Some 0). cbv iota.
    destruct rest as [|c rest]; [done|]. cbn [read_digits].
    cbn [no_digit_ahead] in Hrest. by rewrite Hrest.
  - pose proof (DecimalPos.Unsigned.to_uint_nonnil p) as Hnn.
    rewrite NilZero_string_of_uint_nonnil by done.
    destruct (string_of_uint_head _ Hnn) as (c & r & Htext & Hsp & Hminus & Hplus).
    cbv zeta. split. { rewrite Htext. cbn [app skip_spaces]. by rewrite Hsp. }
    split. { rewrite Htext. done. }
    exists (list_ascii_of_string (NilEmpty.string_of_uint (Pos.to_uint p)) ++ rest),
      (Decimal.nb_digits (Pos.to_uint p)).
    split. { rewrite Htext. cbn [app read_sign]. by rewrite Hminus, Hplus. }
    split; [|by apply nb_digits_nonnil].
    rewrite read_digits_uint by done. by rewrite digits_value_to_uint.
  - pose proof (DecimalPos.Unsigned.to_uint_nonnil p) as Hnn.
    rewrite NilZero_string_of_uint_nonnil by done.
    cbv zeta. cbn [list_ascii_of_string app].
    split; [done|]. split; [done|].
    exists (list_ascii_of_string (NilEmpty.string_of_uint (Pos.to_uint p)) ++ rest),
      (Decimal.nb_digits (Pos.to_uint p)).
    split; [done|]. split; [|by apply nb_digits_nonnil].
    rewrite read_digits_uint by done. by rewrite digits_value_to_uint.
Qed.

Lemma stoi_to_string (z : Z) : is_int z -> stoi (to_string z) = Some z.
Proof.
  intros [Hmin Hmax].
  destruct (read_to_string z [] I) as (Hskip & _ & cs & count & Hsign & Hdigits & Hcount).
  rewrite app_nil_r in Hskip, Hsign.
  unfold stoi. rewrite Hskip, Hsign, Hdigits.
  rewrite (proj2 (Nat.eqb_neq _ _) Hcount).
  assert (Hv : (if z <? 0 then - Z.abs z else Z.abs z) = z).
  { destruct (Z.ltb_spec z 0); lia. }
  rewrite Hv. rewrite (proj2 (Z.leb_le _ _) Hmin), (proj2 (Z.leb_le _ _) Hmax).
  reflexivity.
Qed.

Lemma app_cons_string (c : ascii) (s t : string) :
  String c s +:+ t = String c (s +:+ t).
Proof. reflexivity. Qed.
Lemma app_nil_string (t : string) : EmptyString +:+ t = t.
Proof. reflexivity. Qed.

Lemma prefix_nil (s : string) : String.prefix EmptyString s = true.
Proof. by destruct s. Qed.

Lemma find_colon_app (s t : string) :
  colon_free s -> find_colon (s +:+ ":" +:+ t) = Some (String.length s).
Proof.
  unfold colon_free, find_colon. induction s as [|c s IH]; intros Hfree.
  - rewrite app_nil_string, app_cons_string, app_nil_string.
    cbn [index String.prefix].
    destruct (ascii_dec ":" ":") as [_|Hc]; [|done]. by rewrite prefix_nil.
  - rewrite app_cons_string. cbn [index String.length String.prefix] in *.
    destruct (ascii_dec ":" c) as [Hc|Hc]; [by rewrite prefix_nil in Hfree|].
    destruct (index 0 ":" s) eqn:Hs; [done|]. by rewrite IH.
Qed.

Lemma substring_whole (s : string) : substring 0 (String.length s) s = s.
Proof. induction s as [|c s IH]; cbn; [done|by rewrite IH]. Qed.

Lemma substring_prefix (s t : string) :
  substring 0 (String.length s) (s +:+ t) = s.
Proof.
  induction s as [|c s IH].
  - rewrite app_nil_string. by destruct t.
  - rewrite app_cons_string. cbn [String.length substring]. by rewrite IH.
Qed.

Lemma length_app_string (s t : string) :
  String.length (s +:+ t) = (String.length s + String.length t)%nat.
Proof.
  induction s as [|c s IH]; [done|].
  rewrite app_cons_string. cbn [String.length]. by rewrite IH.
Qed.

Lemma substr_from_suffix (s t : string) :
  substr_from (S (String.length s)) (s +:+ ":" +:+ t) = t.
Proof.
  unfold substr_from. rewrite length_app_string, app_cons_string, app_nil_string.
  cbn [String.length].
  replace (String.length s + S (String.length t) - S (String.length s))%nat
    with (String.length t) by lia.
  induction s as [|c s IH].
  - rewrite app_nil_string. cbn [String.length substring]. apply substring_whole.
  - rewrite app_cons_string. cbn [String.length substring]. exact IH.
Qed.

(** X6: an endpoint written as text is read back as written.  For an
    address without colon and a port that is an [int], the text
    [ip:port] the DISCOVERY builder and the planner's keys are made of
    is split by [split_ip_port] into that address and that port. *)
Theorem endpoint_text_round_trip (ip' : string) (port' : Z) :
  colon_free ip' -> is_int port' ->
  UDPServer.split_ip_port (ip' +:+ ":" +:+ to_string port') = Some (ip', port').
Proof.
  intros Hfree Hport. unfold UDPServer.split_ip_port.
  rewrite find_colon_app by done.
  rewrite substr_from_suffix, stoi_to_string by done.
  by rewrite substring_prefix.
Qed.
(* ===================================================================== *)
(** * A search, from the flood to the requests *)
(* ===================================================================== *)

Section Search.

Variable E : Env.

Lemma flood_run (message : string) (nbs : list (string * Z)) :
  forall w : World,
    exists es,
      for_each nbs (UDPServer.send_discovery_to E message) w
        = Some (tt, with_events w es)
      /\ datagrams es = map (fun nb : string * Z => (nb.1, nb.2, message)) nbs
      /\ tcp_blocks es = []
      /\ seconds_slept es
         = Z.of_nat (length nbs) * Constants.DISCOVERY_MESSAGE_INTERVAL_SECONDS.
Proof.
  induction nbs as [|[nip nport] nbs IH]; intros w.
  - exists []. rewrite with_events_nil. done.
  - cbn [for_each].
    assert (Hone : exists es0,
               UDPServer.send_discovery_to E message (nip, nport) w
               = Some (tt, with_events w es0)
               /\ datagrams es0 = [(nip, nport, message)]
               /\ tcp_blocks es0 = []
               /\ seconds_slept es0 = Constants.DISCOVERY_MESSAGE_INTERVAL_SECONDS).
    { unfold UDPServer.send_discovery_to, UDPServer.sendUDPMessage, bind,
        logMessage, emit, ret.
      destruct (sendto_ok E nip nport message);
        rewrite !with_events_app; eexists; (split; [reflexivity|]); done. }
    destruct Hone as (es0 & Hrun0 & Hd0 & Hb0 & Hs0).
    destruct (IH (with_events w es0)) as (es & Hrun & Hd & Hb & Hs).
    exists (es0 ++ es).
    rewrite (bind_some _ _ _ _ _ Hrun0), Hrun, with_events_app.
    split; [reflexivity|].
    rewrite datagrams_app, Hd0, Hd. split; [reflexivity|].
    split. { unfold tcp_blocks in *. by rewrite omap_app, Hb0, Hb. }
    rewrite seconds_slept_app, Hs0, Hs. cbn [length]. lia.
Qed.


(** X8: a search that lacks a chunk floods, waits, and only then asks.
    When the local set of the file is not complete,
    [discoverAndRequestChunks] sends the DISCOVERY it was given the count
    and the TTL for, with this peer's endpoint as origin, to each
    neighbour in turn, pausing after each; waits for the response time;
    closes the window; and goes on as [sendChunkRequestMessage] does from
    there.  Up to that point the disk, the local sets and the tables are
    as they were. *)
Theorem search_floods_then_waits
    (w : World) (file_name : string) (total_chunks initial_ttl : Z) :
  ~ set_complete w file_name ->
  exists w1 es,
    Peer.discoverAndRequestChunks E file_name total_chunks initial_ttl w
      = UDPServer.sendChunkRequestMessage E file_name w1
    /\ trace w1 = trace w ++ es
    /\ datagrams es
       = flood E (UDPServer.buildChunkDiscoveryMessage file_name total_chunks
                    initial_ttl {| peer_ip := self_ip E; peer_port := self_port E |})
    /\ tcp_blocks es = []
    /\ seconds_slept es
       = Z.of_nat (length (udpNeighbors E))
         * Constants.DISCOVERY_MESSAGE_INTERVAL_SECONDS
         + Constants.RESPONSE_TIMEOUT_SECONDS
    /\ window_open w1 file_name = false
    /\ fs w1 = fs w
    /\ chunk_location_info (file_manager w1) = chunk_location_info (file_manager w)
    /\ (forall other, LocalChunkSet w1 other = LocalChunkSet w other).
Proof.
  intros Hincomplete.
  unfold Peer.discoverAndRequestChunks, UDPServer.initializeProcessingActive.
  unfold bind at 1. unfold bind at 1. unfold get_active at 1.
  unfold put_active at 1. fold (window_set w file_name true).
  destruct (assembleFile_frame file_name (window_set w file_name true))
    as (b & w0 & Hrun & _ & _ & Hsets & _ & _ & Hact & _ & Hinfo & Hquiet).
  destruct Hquiet as (-> & Hfs & Htr); [exact Hincomplete|].
  specialize (Hinfo eq_refl).
  rewrite (bind_some _ _ _ _ _ Hrun). cbn [negb].
  unfold UDPServer.sendChunkDiscoveryMessage.
  destruct (flood_run
              (UDPServer.buildChunkDiscoveryMessage file_name total_chunks
                 initial_ttl {| peer_ip := self_ip E; peer_port := self_port E |})
              (udpNeighbors E) w0) as (es & Hflood & Hd & Hb & Hs).
  rewrite (bind_some _ _ _ _ _ Hflood).
  unfold UDPServer.waitForResponses.
  unfold bind at 1. unfold bind at 1. unfold emit at 1.
  unfold bind at 1. unfold get_active at 1.
  unfold bind at 1. unfold put_active at 1.
  unfold logMessage, emit.
  eexists. eexists. split; [reflexivity|].
  cbn [with_events trace fs file_manager processing_active_map].
  split. { rewrite Htr. cbn [window_set trace]. rewrite <- !app_assoc. reflexivity. }
  split. { rewrite !datagrams_app, Hd. cbn. by rewrite app_nil_r. }
  split. { unfold tcp_blocks in *. rewrite !omap_app, Hb. reflexivity. }
  split. { rewrite !seconds_slept_app, Hs. cbn [seconds_slept]. lia. }
  split. { unfold window_open, subscript. cbn [with_events processing_active_map].
           by rewrite lookup_insert_eq. }
  split; [exact Hfs|]. split; [exact Hinfo|]. exact Hsets.
Qed.

End Search.
(* ===================================================================== *)
(** * The request round *)
(* ===================================================================== *)

Lemma split_peer_key (p : ChunkLocationInfo) :
  colon_free (ip p) -> is_int (port p) ->
  UDPServer.split_ip_port (FileManager.peer_key p) = Some (ip p, port p).
Proof.
  intros Hfree Hport. unfold UDPServer.split_ip_port, FileManager.peer_key.
  rewrite find_colon_app by done.
  rewrite substr_from_suffix, stoi_to_string by done.
  by rewrite substring_prefix.
Qed.

Lemma peer_key_inj (p q : ChunkLocationInfo) :
  colon_free (ip p) -> is_int (port p) ->
  colon_free (ip q) -> is_int (port q) ->
  FileManager.peer_key p = FileManager.peer_key q ->
  ip p = ip q /\ port p = port q.
Proof.
  intros Hp1 Hp2 Hq1 Hq2 Hkey.
  pose proof (split_peer_key p Hp1 Hp2) as Hp.
  rewrite Hkey, (split_peer_key q Hq1 Hq2) in Hp. by injection Hp.
Qed.

Section RequestRound.

Variable E : Env.
Hypothesis sort_permutes : forall l, std_sort E l ≡ₚ l.

Lemma plan_chunk_keys (m : gmap string (list Z)) (i : nat)
    (providers : list ChunkLocationInfo) (key : string) :
  is_Some (Planner.plan_chunk (std_sort E) m i providers !! key) ->
  is_Some (m !! key) \/ key ∈ keys_of providers.
Proof.
  unfold Planner.plan_chunk. destruct providers as [|p0 l0]; [by left|].
  destruct (Planner.fewest m (std_sort E (p0 :: l0))) as [p|] eqn:Hp; [|by left].
  unfold Planner.fewest in Hp. apply find_some in Hp as [Hin _].
  apply list_elem_of_In in Hin. rewrite (sort_permutes (p0 :: l0)) in Hin.
  destruct (decide (key = FileManager.peer_key p)) as [->|Hne].
  - intros _. right. unfold keys_of. apply elem_of_list_to_set.
    apply list_elem_of_In, in_map. by apply list_elem_of_In.
  - rewrite lookup_insert_ne by done. by left.
Qed.

Lemma plan_from_keys (table : list (list ChunkLocationInfo)) (key : string) :
  forall (i : nat) (m : gmap string (list Z)),
    is_Some (Planner.plan_from (std_sort E) i table m !! key) ->
    is_Some (m !! key) \/ key ∈ provider_keys table.
Proof.
  induction table as [|providers rest IH]; intros i m Hkey; [by left|].
  cbn [Planner.plan_from] in Hkey. rewrite (provider_keys_cons providers rest).
  destruct (IH _ _ Hkey) as [Hm|Hrest]; [|right; set_solver].
  destruct (plan_chunk_keys _ _ _ _ Hm) as [?|?]; [by left|right; set_solver].
Qed.

Lemma selectPeers_run (w : World) (file_name : string)
    (table : list (list ChunkLocationInfo)) :
  chunk_location_info (file_manager w) !! file_name = Some table ->
  Z.of_nat (length table) <= INT_MAX ->
  FileManager.selectPeersForChunkDownload E file_name w
  = Some (with_empty_entries (provider_keys table)
            (Planner.plan (std_sort E) table),
          table_locked w file_name).
Proof.
  intros Htable Hlen.
  unfold FileManager.selectPeersForChunkDownload,
    FileManager.lock_chunk_location_info.
  unfold bind at 1. unfold bind at 1. unfold get_fm at 1. unfold put_fm at 1.
  unfold bind at 1. unfold get_fm at 1.
  cbn [file_manager chunk_location_info FileManager.with_chunk_location_info_mutex].
  rewrite Htable. unfold ret. f_equal. f_equal.
  rewrite <- (with_empty_entries_empty ∅) at 1.
  rewrite (assign_chunks_plan (std_sort E)).
  - f_equal. set_solver.
  - exact sort_permutes.
  - intros k. unfold Planner.assigned. rewrite lookup_empty. cbn. lia.
  - unfold INT_MAX in *. lia.
Qed.

Lemma dom_selected (table : list (list ChunkLocationInfo)) :
  dom (with_empty_entries (provider_keys table) (Planner.plan (std_sort E) table))
  = provider_keys table.
Proof.
  apply set_eq. intros key. rewrite elem_of_dom, lookup_with_empty_entries.
  split.
  - destruct (Planner.plan (std_sort E) table !! key) eqn:Hplan.
    + intros _. unfold Planner.plan in Hplan.
      destruct (plan_from_keys table key 0 ∅) as [Hm|?]; [by rewrite Hplan| |done].
      rewrite lookup_empty in Hm. by destruct Hm.
    + case_decide; [done|]. by intros [? ?].
  - intros Hkey. destruct (Planner.plan (std_sort E) table !! key); [eauto|].
    rewrite decide_True by done. eauto.
Qed.

Lemma send_request_to_run (file_name : string) (p : ChunkLocationInfo)
    (chunks : list Z) (w : World) :
  colon_free (ip p) -> is_int (port p) ->
  exists es,
    UDPServer.send_request_to E file_name (FileManager.peer_key p, chunks) w
      = Some (tt, with_events w es)
    /\ datagrams es
       = [(ip p, port p, UDPServer.buildChunkRequestMessage E file_name chunks)]
    /\ tcp_blocks es = []
    /\ seconds_slept es = 0.
Proof.
  intros Hfree Hport. unfold UDPServer.send_request_to, FileManager.peer_key.
  rewrite find_colon_app by done.
  rewrite substr_from_suffix, stoi_to_string by done.
  rewrite substring_prefix.
  unfold UDPServer.sendUDPMessage, bind, logMessage, emit, ret.
  destruct (sendto_ok E _ _ _);
    rewrite !with_events_app; eexists; (split; [reflexivity|]); done.
Qed.

Lemma request_loop_run (file_name : string) (P : ChunkLocationInfo -> Prop)
    (entries : list (string * list Z)) :
  (forall p, P p -> colon_free (ip p) /\ is_int (port p)) ->
  Forall (fun entry => exists p, P p /\ entry.1 = FileManager.peer_key p) entries ->
  forall w : World,
    exists es,
      for_each entries (UDPServer.send_request_to E file_name) w
        = Some (tt, with_events w es)
      /\ Forall2 (fun d entry =>
                    exists p, P p /\ entry.1 = FileManager.peer_key p
                              /\ d = (ip p, port p,
                                      UDPServer.buildChunkRequestMessage E file_name
                                        entry.2))
                 (datagrams es) entries
      /\ tcp_blocks es = []
      /\ seconds_slept es = 0.
Proof.
  intros Hplain. induction 1 as [|[key chunks] entries (p & Hp & Hkey) _ IH]; intros w.
  - exists []. rewrite with_events_nil. split; [done|]. split; [constructor|done].
  - cbn [fst] in Hkey. subst key. cbn [for_each].
    destruct (Hplain p Hp) as [Hfree Hport].
    destruct (send_request_to_run file_name p chunks w Hfree Hport)
      as (es0 & Hrun0 & Hd0 & Hb0 & Hs0).
    destruct (IH (with_events w es0)) as (es & Hrun & Hd & Hb & Hs).
    exists (es0 ++ es).
    rewrite (bind_some _ _ _ _ _ Hrun0), Hrun, with_events_app.
    split; [reflexivity|]. rewrite datagrams_app, Hd0.
    split. { constructor; [|exact Hd]. exists p. done. }
    split. { unfold tcp_blocks in *. by rewrite omap_app, Hb0, Hb. }
    rewrite seconds_slept_app, Hs0, Hs. done.
Qed.

(** X9: the request round asks every provider once.  For a table of at
    most [INT_MAX] chunks whose providers have plain endpoints,
    [sendChunkRequestMessage] sends one REQUEST for each provider key of
    the table and nothing else: to the endpoint the provider was recorded
    with, naming this peer's TCP port and the chunks the plan gives that
    provider, be it none.  Nothing goes on a stream and nothing is waited
    for. *)
Theorem request_round_asks_every_provider
    (w : World) (file_name : string) (table : list (list ChunkLocationInfo)) :
  chunk_location_info (file_manager w) !! file_name = Some table ->
  Z.of_nat (length table) <= INT_MAX ->
  endpoints_plain table ->
  exists w' es chunks_by_peer,
    UDPServer.sendChunkRequestMessage E file_name w = Some (tt, w')
    /\ FileManager.selectPeersForChunkDownload E file_name w
       = Some (chunks_by_peer, table_locked w file_name)
    /\ trace w' = trace w ++ es
    /\ (forall d, d ∈ datagrams es <->
          exists p, p ∈ concat table /\ d = request_for E file_name chunks_by_peer p)
    /\ length (datagrams es) = size (provider_keys table)
    /\ tcp_blocks es = []
    /\ seconds_slept es = 0
    /\ fs w' = fs w
    /\ file_manager w' = file_manager (table_locked w file_name).
Proof.
  intros Htable Hlen Hplain.
  set (chunks_by_peer := with_empty_entries (provider_keys table)
                           (Planner.plan (std_sort E) table)).
  pose proof (selectPeers_run w file_name table Htable Hlen) as Hselect.
  fold chunks_by_peer in Hselect.
  set (P := fun p : ChunkLocationInfo => p ∈ concat table).
  assert (HP : forall p, P p -> colon_free (ip p) /\ is_int (port p)).
  { intros p Hp. unfold P in Hp.
    apply list_elem_of_In, in_concat in Hp as (l & Hin & Hl).
    apply list_elem_of_In in Hin, Hl.
    unfold endpoints_plain in Hplain.
    rewrite Forall_forall in Hplain. specialize (Hplain l Hin).
    rewrite Forall_forall in Hplain. by apply Hplain. }
  assert (Hkeys : forall key, key ∈ provider_keys table <->
                              exists p, P p /\ key = FileManager.peer_key p).
  { intros key. unfold provider_keys, P. rewrite elem_of_list_to_set.
    rewrite list_elem_of_fmap. split; intros (p & H1 & H2); exists p; done. }
  assert (Hentries : Forall (fun entry : string * list Z =>
                               exists p, P p /\ entry.1 = FileManager.peer_key p)
                            (map_to_list chunks_by_peer)).
  { apply Forall_forall. intros [key chunks] Hin.
    apply elem_of_map_to_list in Hin. apply Hkeys.
    rewrite <- (dom_selected table). apply elem_of_dom. eauto. }
  destruct (request_loop_run file_name P (map_to_list chunks_by_peer) HP Hentries
              (table_locked w file_name)) as (es & Hrun & Hd & Hb & Hs).
  exists (with_events (table_locked w file_name) es), es, chunks_by_peer.
  split. { unfold UDPServer.sendChunkRequestMessage.
           rewrite (bind_some _ _ _ _ _ Hselect). exact Hrun. }
  split; [exact Hselect|]. split; [reflexivity|].
  split.
  { intros d. split.
    - intros Hin. apply list_elem_of_lookup in Hin as (i & Hi).
      destruct (Forall2_lookup_l _ _ _ _ _ Hd Hi)
        as ([key chunks] & Hentry & p & Hp & Hkey & ->).
      cbn [fst snd] in *. subst key.
      exists p. split; [exact Hp|]. unfold request_for. f_equal. f_equal.
      apply list_elem_of_lookup_2, elem_of_map_to_list in Hentry.
      unfold Planner.assigned. by rewrite Hentry.
    - intros (p & Hp & ->).
      assert (Hkey : FileManager.peer_key p ∈ dom chunks_by_peer).
      { unfold chunks_by_peer. rewrite dom_selected. apply Hkeys. by exists p. }
      apply elem_of_dom in Hkey as (chunks & Hchunks).
      pose proof Hchunks as Hentry.
      apply elem_of_map_to_list, list_elem_of_lookup in Hentry as (i & Hi).
      destruct (Forall2_lookup_r _ _ _ _ _ Hd Hi)
        as (d & Hdi & q & Hq & Hkey & ->).
      cbn [fst snd] in *.
      destruct (HP p Hp) as [Hp1 Hp2]. destruct (HP q Hq) as [Hq1 Hq2].
      destruct (peer_key_inj p q Hp1 Hp2 Hq1 Hq2 Hkey) as [Hip Hport].
      apply list_elem_of_lookup_2 in Hdi.
      unfold request_for, Planner.assigned. rewrite Hchunks, Hip, Hport.
      exact Hdi. }
  split.
  { rewrite (Forall2_length _ _ _ Hd). rewrite <- (dom_selected table).
    fold chunks_by_peer. rewrite size_dom. apply length_map_to_list. }
  done.
Qed.

End RequestRound.

(** X10: once a file is assembled, a request round for it has no result.
    A successful [assembleFile] removes the table of the file, and
    [selectPeersForChunkDownload] reads that table with [at], which throws
    for a file without one; nothing in [sendChunkRequestMessage] catches
    it. *)
Theorem request_after_assembly_has_no_result
    (E : Env) (file_name : string) (w w1 : World) :
  FileManager.assembleFile file_name w = Some (true, w1) ->
  FileManager.selectPeersForChunkDownload E file_name w1 = None
  /\ UDPServer.sendChunkRequestMessage E file_name w1 = None.
Proof.
  intros Hrun.
  destruct (assembleFile_run file_name w) as (b & w' & Hrun' & _ & Htrue & _).
  rewrite Hrun in Hrun'. injection Hrun' as <- <-.
  destruct (Htrue eq_refl) as (Hgone & _).
  assert (Hselect : FileManager.selectPeersForChunkDownload E file_name w1 = None).
  { unfold FileManager.selectPeersForChunkDownload,
      FileManager.lock_chunk_location_info.
    unfold bind at 1. unfold bind at 1. unfold get_fm at 1. unfold put_fm at 1.
    unfold bind at 1. unfold get_fm at 1.
    cbn [file_manager chunk_location_info FileManager.with_chunk_location_info_mutex].
    by rewrite Hgone. }
  split; [exact Hselect|].
  unfold UDPServer.sendChunkRequestMessage, bind. by rewrite Hselect.
Qed.
(* ===================================================================== *)
(** * Serving a list of chunks *)
(* ===================================================================== *)

Section Serving.

Variables (E : Env) (d : PeerInfo) (file_name : string).

(** Serving one chunk whose artifact can be opened: the blocks of the
    frame, then the blocks of the chunk. *)
Lemma send_chunk_blocks (chunk : Z) (data : bytes) (w : World) :
  0 < self_transfer_speed E -> is_int (self_transfer_speed E) ->
  contents (fs w) !! FileManager.getChunkPath (file_manager w) file_name chunk
    = Some data ->
  exists es header payload,
    TCPServer.send_chunk E file_name d chunk w = Some (tt, with_events w es)
    /\ tcp_blocks es = header ++ payload
    /\ concat header
       = TCPServer.control_message_buffer
           (TCPServer.control_message_for E file_name chunk (length data))
    /\ concat payload = data
    /\ Forall (fun b : bytes =>
                 0 < Z.of_nat (length b) <= self_transfer_speed E)
              (header ++ payload)
    /\ seconds_slept es
       = ceil_div Constants.CONTROL_MESSAGE_MAX_SIZE (self_transfer_speed E)
         + ceil_div (Z.of_nat (length data)) (self_transfer_speed E)
    /\ datagrams es = [].
Proof.
  intros Hrate Hint Hdata. unfold TCPServer.send_chunk.
  unfold bind at 1. unfold get_fm at 1. unfold bind at 1. unfold get_fs at 1.
  rewrite Hdata.
  set (buffer := TCPServer.control_message_buffer _).
  pose proof (control_message_buffer_length
                (TCPServer.control_message_for E file_name chunk (length data))) as Hlen.
  fold buffer in Hlen.
  destruct (send_control_message_run E d Hrate buffer Hlen (S (length buffer)) 0 w)
    as (header & Hrun1 & Hcat1 & Hall1 & Hcount1); [lia|lia|].
  rewrite (bind_some _ _ _ _ _ Hrun1).
  destruct (send_payload_run E d Hrate Hint file_name chunk data (S (length data)) 0
              (with_events w (flat_map (block_events INFO) header)))
    as (payload & Hrun2 & Hcat2 & Hall2 & Hcount2); [lia|lia|].
  rewrite (bind_some _ _ _ _ _ Hrun2).
  unfold logMessage, emit. rewrite !with_events_app.
  change (Z.to_nat 0) with 0%nat in Hcat1, Hcat2. rewrite drop_0 in Hcat1, Hcat2.
  rewrite Z.sub_0_r in Hcount1, Hcount2.
  eexists. exists (map fst header), (map fst payload). split; [reflexivity|].
  assert (Hblocks : forall t sends (rest : list Event),
             tcp_blocks (flat_map (block_events t) sends ++ rest)
             = map fst sends ++ tcp_blocks rest).
  { intros t sends rest. unfold tcp_blocks at 1. rewrite omap_app.
    fold (tcp_blocks (flat_map (block_events t) sends)).
    by rewrite tcp_blocks_block_events. }
  rewrite !Hblocks. cbn [tcp_blocks omap]. rewrite app_nil_r.
  split; [reflexivity|]. split; [exact Hcat1|]. split; [exact Hcat2|].
  split. { apply Forall_app. split; apply Forall_map.
           - eapply Forall_impl; [exact Hall1|]. done.
           - eapply Forall_impl; [exact Hall2|]. done. }
  split. { rewrite !seconds_slept_app, !seconds_slept_blocks.
           cbn [seconds_slept]. lia. }
  clear. induction header as [|s header IH]; [|exact IH].
  cbn [flat_map app]. induction payload as [|s payload IH]; [done|exact IH].
Qed.

Lemma send_chunk_run (chunk : Z) (w : World) :
  0 < self_transfer_speed E -> is_int (self_transfer_speed E) ->
  exists es,
    TCPServer.send_chunk E file_name d chunk w = Some (tt, with_events w es)
    /\ concat (tcp_blocks es) = served E w file_name chunk
    /\ Forall (fun b : bytes =>
                 0 < Z.of_nat (length b) <= self_transfer_speed E) (tcp_blocks es)
    /\ seconds_slept es = serving_seconds E w file_name chunk
    /\ datagrams es = [].
Proof.
  intros Hrate Hint. unfold served, serving_seconds.
  destruct (contents (fs w) !! FileManager.getChunkPath (file_manager w) file_name chunk)
    as [data|] eqn:Hdata.
  - destruct (send_chunk_blocks chunk data w Hrate Hint Hdata)
      as (es & header & payload & Hrun & Hblocks & Hcat1 & Hcat2 & Hall & Hs & Hd).
    exists es. split; [exact Hrun|]. rewrite Hblocks.
    split; [by rewrite concat_app, Hcat1, Hcat2|]. done.
  - unfold TCPServer.send_chunk.
    unfold bind at 1. unfold get_fm at 1. unfold bind at 1. unfold get_fs at 1.
    rewrite Hdata. unfold logMessage, emit. eexists. split; [reflexivity|]. done.
Qed.

(** X11: a list of chunks is served one after the other, and a missing
    one does not stop the rest.  At a positive rate, once connected,
    [sendChunks] puts on the stream, for each chunk of the request in
    turn, the 1024-byte frame and then the bytes of the chunk, and
    nothing for a chunk whose artifact cannot be opened.  No block is
    empty or longer than the rate, one second is slept for each block,
    no datagram is sent and the peer's state does not change. *)
Theorem sendChunks_streams_each_chunk (chunks : list Z) (w : World) :
  0 < self_transfer_speed E ->
  is_int (self_transfer_speed E) ->
  socket_ok E = true ->
  connect_ok E (peer_ip d) (peer_port d) = true ->
  exists es,
    TCPServer.sendChunks E file_name chunks d w = Some (tt, with_events w es)
    /\ concat (tcp_blocks es) = flat_map (served E w file_name) chunks
    /\ Forall (fun b : bytes =>
                 0 < Z.of_nat (length b) <= self_transfer_speed E) (tcp_blocks es)
    /\ seconds_slept es
       = foldr Z.add 0 (map (serving_seconds E w file_name) chunks)
    /\ datagrams es = [].
Proof.
  intros Hrate Hint Hsock Hconn.
  unfold TCPServer.sendChunks. rewrite Hsock, Hconn. cbn [negb].
  revert w. induction chunks as [|chunk chunks IH]; intros w.
  - exists []. rewrite with_events_nil. done.
  - cbn [for_each].
    destruct (send_chunk_run chunk w Hrate Hint) as (es0 & Hrun0 & Hcat0 & Hall0 & Hs0 & Hd0).
    destruct (IH (with_events w es0)) as (es & Hrun & Hcat & Hall & Hs & Hd).
    exists (es0 ++ es).
    rewrite (bind_some _ _ _ _ _ Hrun0), Hrun, with_events_app.
    split; [reflexivity|].
    assert (Hblocks : tcp_blocks (es0 ++ es) = tcp_blocks es0 ++ tcp_blocks es).
    { unfold tcp_blocks. apply omap_app. }
    rewrite Hblocks. split.
    { rewrite concat_app, Hcat0, Hcat. reflexivity. }
    split; [by apply Forall_app|].
    split. { rewrite seconds_slept_app, Hs0, Hs. reflexivity. }
    rewrite datagrams_app, Hd0, Hd. reflexivity.
Qed.

Lemma send_chunk_idle (chunk : Z) (w : World) :
  self_transfer_speed E = 0 ->
  exists es,
    TCPServer.send_chunk E file_name d chunk w = Some (tt, with_events w es)
    /\ only_logs es
    /\ length (filter is_success es)
       = length (openable w file_name [chunk]).
Proof.
  intros Hrate. unfold TCPServer.send_chunk, openable, chunk_readable.
  unfold bind at 1. unfold get_fm at 1. unfold bind at 1. unfold get_fs at 1.
  rewrite filter_cons, filter_nil.
  destruct (contents (fs w) !! FileManager.getChunkPath (file_manager w) file_name chunk)
    as [data|] eqn:Hdata.
  2:{ unfold logMessage, emit. eexists. split; [reflexivity|].
      split; [by repeat constructor|].
      rewrite decide_False by (by intros [? ?]). done. }
  rewrite decide_True by eauto.
  cbn [TCPServer.send_control_message TCPServer.send_payload].
  rewrite Hrate.
  change (0 <? Constants.CONTROL_MESSAGE_MAX_SIZE) with true.
  change (Z.min 0 (Constants.CONTROL_MESSAGE_MAX_SIZE - to_int 0)) with 0.
  change (to_size_t 0) with 0.
  cbn [Z.ltb Z.eqb Z.compare].
  unfold logMessage, emit, bind.
  destruct (Z.ltb_spec 0 (Z.of_nat (length data))) as [Hpos|Hzero].
  - rewrite Z.min_l by lia. cbn [Z.eqb].
    eexists. rewrite !with_events_app. split; [reflexivity|].
    split; [by repeat constructor|]. done.
  - eexists. unfold ret. rewrite !with_events_app. split; [reflexivity|].
    split; [by repeat constructor|]. done.
Qed.

(** X12: at rate zero nothing is sent, and success is reported all the
    same.  With a transfer rate of 0, [sendChunks] puts no block on the
    stream and sleeps for no second, and yet logs the SUCCESS line of
    every chunk of the request whose artifact can be opened. *)
Theorem sendChunks_at_rate_zero (chunks : list Z) (w : World) :
  self_transfer_speed E = 0 ->
  socket_ok E = true ->
  connect_ok E (peer_ip d) (peer_port d) = true ->
  exists es,
    TCPServer.sendChunks E file_name chunks d w = Some (tt, with_events w es)
    /\ tcp_blocks es = []
    /\ seconds_slept es = 0
    /\ length (filter is_success es) = length (openable w file_name chunks).
Proof.
  intros Hrate Hsock Hconn.
  unfold TCPServer.sendChunks. rewrite Hsock, Hconn. cbn [negb].
  revert w. induction chunks as [|chunk chunks IH]; intros w.
  - exists []. rewrite with_events_nil. done.
  - cbn [for_each].
    destruct (send_chunk_idle chunk w Hrate) as (es0 & Hrun0 & Hlogs0 & Hn0).
    destruct (IH (with_events w es0)) as (es & Hrun & Hb & Hs & Hn).
    destruct (only_logs_silent es0 Hlogs0) as (_ & Hb0 & Hs0).
    exists (es0 ++ es).
    rewrite (bind_some _ _ _ _ _ Hrun0), Hrun, with_events_app.
    split; [reflexivity|].
    split. { unfold tcp_blocks in *. by rewrite omap_app, Hb0, Hb. }
    split. { rewrite seconds_slept_app, Hs0, Hs. reflexivity. }
    rewrite filter_app, length_app, Hn0, Hn.
    unfold openable. rewrite (filter_cons _ chunk chunks).
    rewrite filter_cons, filter_nil.
    change (chunk_readable (with_events w es0) file_name)
      with (chunk_readable w file_name).
    destruct (decide (chunk_readable w file_name chunk)); reflexivity.
Qed.

End Serving.

(** X13: a REQUEST whose sender cannot be reached is dropped after one
    attempt.  The handler connects to the address the datagram came from,
    at the TCP port the datagram names; when no socket can be had or the
    connection is refused, it reports the one error and leaves it at that:
    nothing goes on a stream, no datagram answers, and nothing of the
    peer's state changes. *)
Theorem request_from_unreachable_sender
    (E : Env) (w : World) (file_name : string) (tcp_port : Z) (chunks : list Z)
    (sender : PeerInfo) :
  socket_ok E && connect_ok E (peer_ip sender) tcp_port = false ->
  exists es,
    UDPServer.processMessage E (REQUEST file_name tcp_port chunks) sender w
      = Some (tt, with_events w es)
    /\ tcp_blocks es = []
    /\ datagrams es = []
    /\ seconds_slept es = 0
    /\ length (filter is_perror es) = 1%nat.
Proof.
  intros Hdown.
  unfold UDPServer.processMessage, UDPServer.processChunkRequestMessage,
    TCPServer.sendChunks.
  cbn [peer_ip peer_port]. unfold bind, logMessage, emit.
  destruct (socket_ok E); cbn [negb andb] in *.
  - rewrite Hdown. cbn [negb]. rewrite with_events_app.
    eexists. split; [reflexivity|]. done.
  - rewrite with_events_app. eexists. split; [reflexivity|]. done.
Qed.
(* ===================================================================== *)
(** * Datagrams written and read back *)
(* ===================================================================== *)

Lemma list_ascii_of_string_app (s t : string) :
  list_ascii_of_string (s +:+ t) = list_ascii_of_string s ++ list_ascii_of_string t.
Proof.
  induction s as [|c s IH]; [done|].
  rewrite app_cons_string. cbn [list_ascii_of_string app]. by rewrite IH.
Qed.

Lemma field_end_no_digit (rest : bytes) : field_end rest -> no_digit_ahead rest.
Proof.
  destruct rest as [|c rest]; [done|]. cbn [field_end no_digit_ahead].
  unfold is_space, digit_of. intros Hc.
  destruct (48 <=? nat_of_ascii c)%nat eqn:H1; [|done].
  destruct (nat_of_ascii c <=? 57)%nat eqn:H2; [|done].
  apply Nat.leb_le in H1, H2. exfalso.
  apply orb_true_iff in Hc as [Hc|Hc].
  - apply Nat.eqb_eq in Hc. lia.
  - apply andb_true_iff in Hc as [_ Hc]. apply Nat.leb_le in Hc. lia.
Qed.

Lemma until_space_field (w : bytes) (rest : bytes) :
  Forall (fun c => is_space c = false) w -> field_end rest ->
  until_space (w ++ rest) = (w, rest).
Proof.
  intros Hw Hrest. induction Hw as [|c w Hc _ IH]; cbn [app until_space].
  - destruct rest as [|c rest]; [done|]. cbn [until_space field_end] in *.
    by rewrite Hrest.
  - by rewrite Hc, IH.
Qed.

Lemma extract_word_field (w : string) (rest : bytes) (str : string) :
  is_field w -> field_end rest ->
  extract_word (stream_at (list_ascii_of_string w ++ rest)) str
  = (w, stream_after rest).
Proof.
  intros [Hne Hw] Hrest. unfold extract_word, stream_at, good.
  cbn [eofbit failbit pending negb andb].
  destruct (list_ascii_of_string w) as [|c cs] eqn:Hcs.
  { destruct w; done. }
  pose proof Hw as Hw'. unfold spaceless in Hw'. rewrite Hcs in Hw'.
  apply Forall_cons in Hw' as [Hc Hrestw].
  cbn [app skip_spaces]. rewrite Hc.
  change (c :: cs ++ rest) with ((c :: cs) ++ rest).
  rewrite until_space_field; [|by constructor|done].
  rewrite <- Hcs, string_of_list_ascii_of_string. reflexivity.
Qed.

Lemma extract_word_next (w : string) (rest : bytes) (str : string) :
  is_field w -> field_end rest ->
  extract_word (stream_after (" "%char :: list_ascii_of_string w ++ rest)) str
  = (w, stream_after rest).
Proof.
  intros Hw Hrest. rewrite <- (extract_word_field w rest str Hw Hrest).
  reflexivity.
Qed.

Lemma extract_int_field (z : Z) (rest : bytes) (v : Z) :
  is_int z -> no_digit_ahead rest ->
  extract_int (stream_at (list_ascii_of_string (to_string z) ++ rest)) v
  = (z, stream_after rest).
Proof.
  intros [Hmin Hmax] Hrest.
  destruct (read_to_string z rest Hrest)
    as (Hskip & Hne & cs & count & Hsign & Hdigits & Hcount).
  unfold extract_int, stream_at, good. cbn [eofbit failbit pending negb andb].
  rewrite Hskip.
  destruct (list_ascii_of_string (to_string z) ++ rest) as [|c text] eqn:Htext; [done|].
  rewrite Hsign, Hdigits. rewrite (proj2 (Nat.eqb_neq _ _) Hcount).
  assert (Hv : (if z <? 0 then - Z.abs z else Z.abs z) = z).
  { destruct (Z.ltb_spec z 0); lia. }
  rewrite Hv.
  rewrite (proj2 (Z.ltb_ge _ _) Hmin), (proj2 (Z.ltb_ge _ _) Hmax).
  reflexivity.
Qed.

Lemma extract_int_next (z : Z) (rest : bytes) (v : Z) :
  is_int z -> field_end rest ->
  extract_int (stream_after (" "%char :: list_ascii_of_string (to_string z) ++ rest)) v
  = (z, stream_after rest).
Proof.
  intros Hz Hrest.
  rewrite <- (extract_int_field z rest v Hz (field_end_no_digit rest Hrest)).
  unfold extract_int, stream_after, stream_at, good.
  cbn [eofbit failbit pending negb andb skip_spaces].
  change (is_space " ") with true. cbv iota. reflexivity.
Qed.

(** The loop that reads the chunk numbers of a datagram finds the numbers
    the builder wrote, whatever the text has after them that is no
    number. *)
Lemma extract_ints_numbers (chunks : list Z) :
  forall (fuel : nat) (v : Z),
    Forall is_int chunks -> (length chunks < fuel)%nat ->
    extract_ints fuel (stream_after (" "%char :: numbers_text chunks)) v = chunks.
Proof.
  induction chunks as [|chunk chunks IH]; intros fuel v Hint Hfuel.
  - destruct fuel as [|fuel]; [cbn in Hfuel; lia|]. reflexivity.
  - destruct fuel as [|fuel]; [cbn in Hfuel; lia|].
    apply Forall_cons in Hint as [Hchunk Hint].
    cbn [extract_ints numbers_text flat_map].
    rewrite <- app_assoc. cbn [app].
    rewrite extract_int_next by done.
    change (failbit (stream_after (" "%char :: flat_map _ chunks))) with false.
    cbv iota. f_equal. apply IH; [done|]. cbn [length] in Hfuel. lia.
Qed.

Lemma chunks_text_numbers (chunks : list Z) :
  list_ascii_of_string (UDPServer.chunks_text chunks) = numbers_text chunks.
Proof.
  unfold UDPServer.chunks_text.
  assert (Hacc : forall acc,
             list_ascii_of_string
               (fold_left (fun acc chunk => acc +:+ to_string chunk +:+ " ") chunks acc)
             = list_ascii_of_string acc ++ numbers_text chunks).
  { induction chunks as [|chunk chunks IH]; intros acc; cbn [fold_left].
    - cbn. by rewrite app_nil_r.
    - rewrite IH. rewrite !list_ascii_of_string_app.
      cbn [numbers_text flat_map]. rewrite <- !app_assoc. reflexivity. }
  rewrite Hacc. reflexivity.
Qed.

Lemma length_numbers_text (chunks : list Z) :
  (2 * length chunks <= length (numbers_text chunks))%nat.
Proof.
  induction chunks as [|chunk chunks IH]; [done|].
  cbn [numbers_text flat_map length]. rewrite !length_app. cbn [length].
  fold (numbers_text chunks).
  destruct (read_to_string chunk [] I) as (_ & Hne & _).
  rewrite app_nil_r in Hne.
  destruct (list_ascii_of_string (to_string chunk)); [done|]. cbn [length]. lia.
Qed.

Lemma remaining_ints_numbers (chunks : list Z) :
  Forall is_int chunks ->
  Wire.remaining_ints (stream_after (" "%char :: numbers_text chunks)) = chunks.
Proof.
  intros Hint. unfold Wire.remaining_ints. apply extract_ints_numbers; [done|].
  cbn [stream_after pending length].
  pose proof (length_numbers_text chunks). lia.
Qed.

Lemma to_string_spaceless (z : Z) : is_field (to_string z).
Proof.
  assert (Huint : forall d, spaceless (NilEmpty.string_of_uint d)).
  { unfold spaceless. induction d; cbn [NilEmpty.string_of_uint list_ascii_of_string];
      constructor; done. }
  split.
  - destruct (read_to_string z [] I) as (_ & Hne & _).
    rewrite app_nil_r in Hne. intros Hz. by rewrite Hz in Hne.
  - unfold to_string. destruct z as [|p|p]; cbn [Z.to_int NilZero.string_of_int].
    + repeat constructor.
    + rewrite NilZero_string_of_uint_nonnil
        by apply DecimalPos.Unsigned.to_uint_nonnil. apply Huint.
    + rewrite NilZero_string_of_uint_nonnil
        by apply DecimalPos.Unsigned.to_uint_nonnil.
      unfold spaceless. cbn [list_ascii_of_string]. constructor; [done|apply Huint].
Qed.

Lemma is_field_app (s t : string) : spaceless s -> is_field t -> is_field (s +:+ t).
Proof.
  intros Hs [Hne Ht]. split.
  - intros Happ. apply (f_equal String.length) in Happ.
    rewrite length_app_string in Happ. destruct t; [done|]. cbn in Happ. lia.
  - unfold spaceless in *. rewrite list_ascii_of_string_app. by apply Forall_app.
Qed.

Lemma blank_cons (cs : bytes) : list_ascii_of_string " " ++ cs = " "%char :: cs.
Proof. reflexivity. Qed.

Section RoundTrip.

Variable U : Indeterminate.

Ltac text_of_message :=
  repeat rewrite list_ascii_of_string_app;
  repeat rewrite <- app_assoc;
  repeat rewrite chunks_text_numbers.

(** X14: a DISCOVERY is read as it was written.  For a file name and an
    origin address without white space (the name not empty) and a count
    and a TTL that are [int]s, the extractions of the handler find in the
    text [buildChunkDiscoveryMessage] makes the name, the count, the TTL
    and the origin written as [ip:port]. *)
Theorem discovery_text_round_trip
    (file_name : string) (total_chunks ttl : Z) (origin : PeerInfo) :
  is_field file_name -> spaceless (peer_ip origin) ->
  is_int total_chunks -> is_int ttl ->
  Wire.parse U (UDPServer.buildChunkDiscoveryMessage file_name total_chunks ttl origin)
  = DISCOVERY file_name total_chunks ttl
      (peer_ip origin +:+ ":" +:+ to_string (peer_port origin)).
Proof.
  intros Hname Hip Htotal Httl.
  assert (Horigin : is_field (peer_ip origin +:+ ":" +:+ to_string (peer_port origin))).
  { apply is_field_app; [done|]. apply is_field_app; [by repeat constructor|].
    apply to_string_spaceless. }
  unfold Wire.parse, Wire.stringstream, UDPServer.buildChunkDiscoveryMessage.
  change ("DISCOVERY " +:+ ?x) with ("DISCOVERY" +:+ " " +:+ x).
  text_of_message.
  fold (stream_at (list_ascii_of_string "DISCOVERY" ++ list_ascii_of_string " "
                   ++ list_ascii_of_string file_name ++ list_ascii_of_string " "
                   ++ list_ascii_of_string (to_string total_chunks)
                   ++ list_ascii_of_string " "
                   ++ list_ascii_of_string (to_string ttl)
                   ++ list_ascii_of_string " "
                   ++ list_ascii_of_string (peer_ip origin)
                   ++ list_ascii_of_string ":"
                   ++ list_ascii_of_string (to_string (peer_port origin)))).
  rewrite extract_word_field; [|by split; [|repeat constructor]|done].
  change (String.eqb "DISCOVERY" "DISCOVERY") with true. cbv iota.
  rewrite !blank_cons.
  rewrite extract_word_next by done.
  rewrite extract_int_next by done.
  rewrite extract_int_next by done.
  assert (Htext : list_ascii_of_string (peer_ip origin) ++ list_ascii_of_string ":"
                  ++ list_ascii_of_string (to_string (peer_port origin))
                  = list_ascii_of_string
                      (peer_ip origin +:+ ":" +:+ to_string (peer_port origin)) ++ []).
  { by rewrite !list_ascii_of_string_app, app_nil_r. }
  rewrite Htext, extract_word_next by done. reflexivity.
Qed.

(** X15: a RESPONSE is read as it was written.  For a file name that is
    not empty and has no white space, a rate and chunk numbers that are
    [int]s, the extractions find in the text [buildChunkResponseMessage]
    makes the name, the rate of the sender and the chunk numbers in the
    order they were written. *)
Theorem response_text_round_trip
    (E : Env) (file_name : string) (chunks_available : list Z) :
  is_field file_name -> is_int (self_transfer_speed E) ->
  Forall is_int chunks_available ->
  Wire.parse U (UDPServer.buildChunkResponseMessage E file_name chunks_available)
  = RESPONSE file_name (self_transfer_speed E) chunks_available.
Proof.
  intros Hname Hrate Hchunks.
  unfold Wire.parse, Wire.stringstream, UDPServer.buildChunkResponseMessage.
  change ("RESPONSE " +:+ ?x) with ("RESPONSE" +:+ " " +:+ x).
  text_of_message.
  fold (stream_at (list_ascii_of_string "RESPONSE" ++ list_ascii_of_string " "
                   ++ list_ascii_of_string file_name ++ list_ascii_of_string " "
                   ++ list_ascii_of_string (to_string (self_transfer_speed E))
                   ++ list_ascii_of_string " "
                   ++ numbers_text chunks_available)).
  rewrite extract_word_field; [|by split; [|repeat constructor]|done].
  change (String.eqb "RESPONSE" "DISCOVERY") with false.
  change (String.eqb "RESPONSE" "RESPONSE") with true. cbv iota.
  rewrite !blank_cons.
  rewrite extract_word_next by done.
  rewrite extract_int_next by done.
  by rewrite remaining_ints_numbers.
Qed.

(** X16: a REQUEST is read as it was written.  For a file name that is
    not empty and has no white space, a TCP port and chunk numbers that
    are [int]s, the extractions find in the text
    [buildChunkRequestMessage] makes the name, the TCP port of the sender
    and the chunk numbers in the order they were written, be there
    none. *)
Theorem request_text_round_trip
    (E : Env) (file_name : string) (chunks : list Z) :
  is_field file_name -> is_int (self_tcp_port E) ->
  Forall is_int chunks ->
  Wire.parse U (UDPServer.buildChunkRequestMessage E file_name chunks)
  = REQUEST file_name (self_tcp_port E) chunks.
Proof.
  intros Hname Hport Hchunks.
  unfold Wire.parse, Wire.stringstream, UDPServer.buildChunkRequestMessage.
  change ("REQUEST " +:+ ?x) with ("REQUEST" +:+ " " +:+ x).
  text_of_message.
  fold (stream_at (list_ascii_of_string "REQUEST" ++ list_ascii_of_string " "
                   ++ list_ascii_of_string file_name ++ list_ascii_of_string " "
                   ++ list_ascii_of_string (to_string (self_tcp_port E))
                   ++ list_ascii_of_string " "
                   ++ numbers_text chunks)).
  rewrite extract_word_field; [|by split; [|repeat constructor]|done].
  change (String.eqb "REQUEST" "DISCOVERY") with false.
  change (String.eqb "REQUEST" "RESPONSE") with false.
  change (String.eqb "REQUEST" "REQUEST") with true. cbv iota.
  rewrite !blank_cons.
  rewrite extract_word_next by done.
  rewrite extract_int_next by done.
  by rewrite remaining_ints_numbers.
Qed.

End RoundTrip.
(* ===================================================================== *)
(** * The receive buffer *)
(* ===================================================================== *)

(** X17: a list of 512 chunks or more cannot be received.  The text of a
    REQUEST or of a RESPONSE has at least two characters for each chunk it
    names; with 512 chunks it fills the 1024 bytes of the receive buffer of
    [run], whose terminator is then written past the end of the buffer:
    handling the datagram has no defined result. *)
Theorem long_chunk_list_overruns_buffer
    (E : Env) (U : Indeterminate) (from : Env) (file_name : string)
    (chunks : list Z) (sender : PeerInfo) (w : World) :
  (512 <= length chunks)%nat ->
  Wire.run_turn E U
    (list_ascii_of_string (UDPServer.buildChunkRequestMessage from file_name chunks))
    sender w = None
  /\ Wire.run_turn E U
       (list_ascii_of_string (UDPServer.buildChunkResponseMessage from file_name chunks))
       sender w = None.
Proof.
  intros Hmany.
  pose proof (length_numbers_text chunks) as Hlen.
  assert (Hturn : forall datagram,
             (1024 <= length datagram)%nat -> Wire.run_turn E U datagram sender w = None).
  { intros datagram Hlong. unfold Wire.run_turn, Constants.CONTROL_MESSAGE_MAX_SIZE.
    rewrite Z.min_r by lia. reflexivity. }
  split; apply Hturn.
  - unfold UDPServer.buildChunkRequestMessage.
    rewrite !list_ascii_of_string_app, chunks_text_numbers, !length_app. lia.
  - unfold UDPServer.buildChunkResponseMessage.
    rewrite !list_ascii_of_string_app, chunks_text_numbers, !length_app. lia.
Qed.

(* ===================================================================== *)
(** * The sidecar and the start of a search *)
(* ===================================================================== *)

Lemma until_newline_line (name : string) (rest : bytes) :
  one_line name ->
  until_newline (list_ascii_of_string name ++ "010"%char :: rest)
  = (list_ascii_of_string name, Some rest).
Proof.
  unfold one_line. induction 1 as [|c cs Hc _ IH]; cbn [app until_newline].
  - reflexivity.
  - by rewrite Hc, IH.
Qed.

Lemma skip_spaces_blanks (sep cs : bytes) :
  Forall (fun c => is_space c = true) sep ->
  skip_spaces (sep ++ cs) = skip_spaces cs.
Proof.
  induction 1 as [|c sep Hc _ IH]; [done|]. cbn [app skip_spaces]. by rewrite Hc.
Qed.

Lemma extract_int_blanks (sep cs : bytes) (v : Z) :
  Forall (fun c => is_space c = true) sep ->
  extract_int (stream_at (sep ++ cs)) v = extract_int (stream_at cs) v.
Proof.
  intros Hsep. unfold extract_int, stream_at, good.
  cbn [eofbit failbit pending negb andb]. by rewrite skip_spaces_blanks.
Qed.

Section Sidecar.

Variables (E : Env) (w : World) (file_name : string).
Variables (name : string) (total_chunks initial_ttl : Z) (sep tail : bytes).
Hypothesis sidecar :
  contents (fs w) !! FileManager.metadata_path file_name
  = Some (sidecar_text name total_chunks initial_ttl sep tail).
Hypothesis name_one_line : one_line name.
Hypothesis sep_blanks : blanks sep.
Hypothesis tail_no_digit : no_digit_ahead tail.
Hypothesis total_int : is_int total_chunks.
Hypothesis ttl_int : is_int initial_ttl.

Lemma loadMetadata_sidecar :
  FileManager.loadMetadata E file_name w
  = Some ((name, total_chunks, initial_ttl), w).
Proof.
  unfold FileManager.loadMetadata. unfold bind at 1. unfold get_fs at 1.
  rewrite sidecar. unfold sidecar_text, getline, good.
  cbn [eofbit failbit pending negb andb app].
  rewrite until_newline_line by done.
  rewrite string_of_list_ascii_of_string.
  destruct sep_blanks as [Hne Hsep].
  fold (stream_at (list_ascii_of_string (to_string total_chunks) ++ sep
                   ++ list_ascii_of_string (to_string initial_ttl) ++ tail)).
  rewrite extract_int_field; [|done|].
  2:{ apply field_end_no_digit. destruct sep as [|c sep']; [done|].
      apply Forall_cons in Hsep as [Hc _]. exact Hc. }
  assert (Hafter : stream_after (sep ++ list_ascii_of_string (to_string initial_ttl)
                                 ++ tail)
                   = stream_at (sep ++ list_ascii_of_string (to_string initial_ttl)
                                ++ tail)).
  { destruct sep; [done|reflexivity]. }
  rewrite Hafter, extract_int_blanks by done.
  rewrite extract_int_field by done. reflexivity.
Qed.

(** X18: a search follows its sidecar.  For a sidecar that holds a name
    on its first line and then a count and a TTL in decimal,
    [loadMetadata] returns these three; and [searchFile] then searches
    under the name written in the sidecar, whatever the name it was
    asked for, with that count and that TTL, unless one of the two is -1,
    in which case it does nothing at all. *)
Theorem searchFile_follows_sidecar :
  FileManager.loadMetadata E file_name w
    = Some ((name, total_chunks, initial_ttl), w)
  /\ Peer.searchFile E file_name w
     = if (total_chunks =? -1) || (initial_ttl =? -1) then Some (tt, w)
       else bind (FileManager.initializeFileChunks name total_chunks)
                 (fun _ =>
                    bind (FileManager.initializeChunkLocationInfo name)
                         (fun _ =>
                            Peer.discoverAndRequestChunks E name total_chunks
                              initial_ttl)) w.
Proof.
  split; [exact loadMetadata_sidecar|].
  unfold Peer.searchFile. rewrite (bind_some _ _ _ _ _ loadMetadata_sidecar).
  destruct (total_chunks =? -1); [reflexivity|].
  destruct (initial_ttl =? -1); reflexivity.
Qed.

(** X19: a negative count ends the search without a result.  When the
    sidecar gives a count below -1 and the file has no table yet,
    [searchFile] asks the table for that many entries; the [resize]
    throws, and nothing catches it. *)
Theorem searchFile_negative_count_has_no_result :
  total_chunks < -1 -> initial_ttl <> -1 ->
  chunk_location_info (file_manager w) !! name = None ->
  Peer.searchFile E file_name w = None.
Proof.
  intros Hneg Httl Hfresh.
  unfold Peer.searchFile. rewrite (bind_some _ _ _ _ _ loadMetadata_sidecar).
  rewrite (proj2 (Z.eqb_neq _ _)) by lia.
  rewrite (proj2 (Z.eqb_neq _ _) Httl). cbn [negb andb].
  unfold FileManager.initializeFileChunks.
  unfold bind at 1. unfold bind at 1. unfold get_fm at 1. unfold put_fm at 1.
  unfold bind at 1. unfold FileManager.initializeChunkLocationInfo.
  unfold bind at 1. unfold get_fm at 1.
  cbn [file_manager FileManager.with_file_chunks file_chunks].
  unfold subscript. rewrite lookup_insert_eq.
  unfold bind at 1. unfold bind at 1. unfold put_fm at 1.
  cbn [file_manager FileManager.with_file_chunks chunk_location_info].
  rewrite Hfresh. rewrite (proj2 (Z.ltb_lt _ _)) by lia. reflexivity.
Qed.

End Sidecar.

(** X20: the start of a search keeps a table that is there and makes one
    that is not.  With a count that is not negative,
    [initializeFileChunks] and then [initializeChunkLocationInfo] record
    the count and leave the file with a table: the one it had, providers
    and length untouched, or else one list without provider for each
    chunk.  The tables of the other files, the local sets, the disk and
    the windows are as before. *)
Theorem search_prepares_table (w : World) (file_name : string) (total_chunks : Z) :
  0 <= total_chunks ->
  exists w',
    bind (FileManager.initializeFileChunks file_name total_chunks)
         (fun _ => FileManager.initializeChunkLocationInfo file_name) w
      = Some (tt, w')
    /\ chunk_location_info (file_manager w') !! file_name
       = Some (match chunk_location_info (file_manager w) !! file_name with
               | Some table => table
               | None => replicate (Z.to_nat total_chunks) []
               end)
    /\ total_chunks_of w' file_name = total_chunks
    /\ (forall other, other <> file_name ->
        chunk_location_info (file_manager w') !! other
        = chunk_location_info (file_manager w) !! other)
    /\ (tables_deduplicated w -> tables_deduplicated w')
    /\ local_chunks (file_manager w') = local_chunks (file_manager w)
    /\ fs w' = fs w
    /\ trace w' = trace w
    /\ processing_active_map w' = processing_active_map w.
Proof.
  intros Hcount.
  unfold FileManager.initializeFileChunks.
  unfold bind at 1. unfold bind at 1. unfold get_fm at 1. unfold put_fm at 1.
  unfold FileManager.initializeChunkLocationInfo.
  unfold bind at 1. unfold get_fm at 1.
  cbn [file_manager FileManager.with_file_chunks file_chunks].
  unfold subscript. rewrite lookup_insert_eq.
  unfold bind at 1. unfold bind at 1. unfold put_fm at 1.
  cbn [file_manager FileManager.with_file_chunks chunk_location_info].
  destruct (chunk_location_info (file_manager w) !! file_name) as [table|] eqn:Htable.
  - unfold bind at 1. unfold ret at 1. unfold bind, get_fm, put_fm.
    eexists. split; [reflexivity|].
    cbn [file_manager FileManager.with_chunk_location_info_mutex
         FileManager.with_file_chunks chunk_location_info local_chunks fs trace
         processing_active_map].
    split; [exact Htable|]. split.
    { unfold total_chunks_of. cbn [file_manager FileManager.with_chunk_location_info_mutex
        FileManager.with_file_chunks file_chunks]. by rewrite lookup_insert_eq. }
    repeat split; try done.
  - rewrite (proj2 (Z.ltb_ge _ _) Hcount).
    unfold bind at 1. unfold put_fm at 1. unfold bind, get_fm, put_fm.
    eexists. split; [reflexivity|].
    cbn [file_manager FileManager.with_chunk_location_info_mutex
         FileManager.with_chunk_location_info
         FileManager.with_file_chunks chunk_location_info local_chunks fs trace
         processing_active_map].
    split; [by rewrite lookup_insert_eq|]. split.
    { unfold total_chunks_of. cbn [file_manager FileManager.with_chunk_location_info_mutex
        FileManager.with_chunk_location_info
        FileManager.with_file_chunks file_chunks]. by rewrite lookup_insert_eq. }
    split. { intros other Hne. by rewrite lookup_insert_ne. }
    split.
    { intros Hdedup other table. unfold tables_deduplicated in Hdedup.
      cbn [file_manager FileManager.with_chunk_location_info_mutex
           FileManager.with_chunk_location_info chunk_location_info].
      destruct (decide (other = file_name)) as [->|Hne].
      - rewrite lookup_insert_eq. intros [= <-]. unfold deduplicated.
        apply Forall_forall. intros providers Hin.
        apply elem_of_replicate in Hin as [-> _]. constructor.
      - rewrite lookup_insert_ne by done. apply Hdedup. }
    repeat split; done.
Qed.
(* ===================================================================== *)
(** * Receiving a frame and its chunk *)
(* ===================================================================== *)

Lemma extract_size_t_next (z : Z) (rest : bytes) (v : Z) :
  0 <= z <= SIZE_MAX -> no_digit_ahead rest ->
  extract_size_t (stream_after (" "%char :: list_ascii_of_string (to_string z) ++ rest)) v
  = (z, stream_after rest).
Proof.
  intros [Hmin Hmax] Hrest.
  destruct (read_to_string z rest Hrest)
    as (Hskip & Hne & cs & count & Hsign & Hdigits & Hcount).
  unfold extract_size_t, stream_after, good.
  cbn [eofbit failbit pending negb andb skip_spaces].
  change (is_space " ") with true. cbv iota.
  rewrite Hskip.
  destruct (list_ascii_of_string (to_string z) ++ rest) as [|c text] eqn:Htext; [done|].
  rewrite Hsign, Hdigits. rewrite (proj2 (Nat.eqb_neq _ _) Hcount).
  rewrite Z.abs_eq by done.
  rewrite (proj2 (Z.ltb_ge _ _) Hmax).
  rewrite (proj2 (Z.ltb_ge _ _) Hmin). reflexivity.
Qed.

Section Receiving.

Variable L : Link.

Lemma recv_whole (segment : bytes) (rest : list bytes) (cap : Z) :
  segment <> [] -> Z.of_nat (length segment) <= cap ->
  Receiver.recv (segment :: rest) cap = Receiver.Data segment rest.
Proof.
  intros Hne Hcap. unfold Receiver.recv. destruct segment as [|c segment]; [done|].
  rewrite (proj2 (Z.leb_gt _ _)) by (cbn [length] in Hcap; lia).
  rewrite take_ge, drop_ge by lia. reflexivity.
Qed.

Lemma recv_control_pieces (pieces later : list bytes) :
  forall (fuel : nat) (control_message : bytes) (w : World),
    Forall (fun piece => piece <> []) pieces ->
    (length control_message < 1024)%nat ->
    length (control_message ++ concat pieces) = 1024%nat ->
    (length pieces < fuel)%nat ->
    exists es,
      Receiver.recv_control_message fuel L (pieces ++ later) control_message w
        = Some (Some (control_message ++ concat pieces, later), with_events w es)
      /\ only_logs es.
Proof.
  induction pieces as [|piece pieces IH]; intros fuel acc w Hne Hshort Htotal Hfuel.
  - cbn [concat] in Htotal. rewrite app_nil_r in Htotal. lia.
  - apply Forall_cons in Hne as [Hpiece Hne].
    destruct fuel as [|fuel]; [cbn in Hfuel; lia|].
    cbn [concat] in Htotal. rewrite !length_app in Htotal.
    cbn [Receiver.recv_control_message app].
    rewrite recv_whole;
      [|done|unfold Constants.CONTROL_MESSAGE_MAX_SIZE; lia].
    unfold bind at 1. unfold logMessage at 1. unfold emit at 1.
    match goal with
    | |- context [with_events w ?l] => set (line := l)
    end.
    destruct (Z.ltb_spec (Z.of_nat (length (acc ++ piece)))
                         Constants.CONTROL_MESSAGE_MAX_SIZE) as [Hlt|Hge];
      unfold Constants.CONTROL_MESSAGE_MAX_SIZE in *.
    + destruct (IH fuel (acc ++ piece) (with_events w line))
        as (es & Hrun & Hlogs); [done|lia| |cbn [length] in Hfuel; lia|].
      { rewrite !length_app in *. lia. }
      rewrite Hrun, with_events_app. eexists. split.
      * cbn [concat]. rewrite app_assoc. reflexivity.
      * constructor; [exact I|exact Hlogs].
    + rewrite length_app in Hge.
      assert (concat pieces = []) as Hrest by (apply length_zero_iff_nil; lia).
      destruct pieces as [|piece' pieces].
      * cbn [concat app]. rewrite app_nil_r. unfold ret. eexists.
        split; [reflexivity|]. by repeat constructor.
      * apply Forall_cons in Hne as [Hpiece' _].
        destruct piece'; [done|discriminate Hrest].
Qed.

Lemma recv_chunk_pieces (chunk_id transfer_speed chunk_size : Z)
    (later : list bytes) :
  0 < transfer_speed ->
  Receiver.arrays_fit L chunk_size transfer_speed = true ->
  forall (fuel : nat) (pieces : list bytes) (chunk_buffer : bytes) (w : World),
    Forall (fun piece => piece <> []) pieces ->
    chunk_size = Z.of_nat (length chunk_buffer + length (concat pieces)) ->
    (length (concat pieces) < fuel)%nat ->
    exists es,
      Receiver.recv_chunk fuel L (pieces ++ later) chunk_id transfer_speed
        chunk_size chunk_buffer w
        = Some (Some (chunk_buffer ++ concat pieces, later), with_events w es)
      /\ only_logs es.
Proof.
  intros Hrate Hfit.
  induction fuel as [|fuel IH]; intros pieces buffer w Hne Hsize Hfuel; [lia|].
  cbn [Receiver.recv_chunk]. destruct pieces as [|piece pieces].
  - cbn [concat length] in Hsize. rewrite (proj2 (Z.ltb_ge _ _)) by lia.
    exists []. cbn [concat app]. rewrite app_nil_r, with_events_nil.
    split; [reflexivity|constructor].
  - apply Forall_cons in Hne as [Hpiece Hne].
    cbn [concat] in Hsize, Hfuel. rewrite length_app in Hsize, Hfuel.
    destruct piece as [|c piece]; [done|].
    rewrite (proj2 (Z.ltb_lt _ _)) by (cbn [length] in Hsize; lia).
    rewrite Hfit. cbn [negb app].
    unfold Receiver.recv. rewrite (proj2 (Z.leb_gt _ _)) by lia.
    set (n := Z.to_nat transfer_speed).
    set (block := take n (c :: piece)).
    set (more := drop n (c :: piece)).
    assert (Hblock : block ++ more = c :: piece) by apply take_drop.
    assert (Hn : (0 < length block)%nat).
    { unfold block. rewrite length_take. cbn [length]. lia. }
    assert (Hlen : (length block + length more = length (c :: piece))%nat).
    { by rewrite <- length_app, Hblock. }
    rewrite (proj2 (Z.ltb_ge _ _)) by lia.
    unfold bind at 1. unfold logMessage at 1. unfold emit at 1.
    match goal with
    | |- context [with_events w ?l] => set (line := l)
    end.
    destruct more as [|c' more'] eqn:Hmore.
    + destruct (IH pieces (buffer ++ block) (with_events w line)) as (es & Hrun & Hlogs);
        [done|rewrite length_app; cbn [length] in *; lia|cbn [length] in *; lia|].
      rewrite Hrun, with_events_app. eexists. split.
      * cbn [concat]. rewrite <- Hblock, <- !app_assoc. reflexivity.
      * constructor; [exact I|exact Hlogs].
    + destruct (IH ((c' :: more') :: pieces) (buffer ++ block) (with_events w line))
        as (es & Hrun & Hlogs).
      * by constructor.
      * cbn [concat]. rewrite !length_app. lia.
      * cbn [concat]. rewrite length_app. lia.
      * cbn [app] in Hrun. rewrite Hrun, with_events_app. eexists. split.
        -- cbn [concat]. rewrite <- Hblock, <- !app_assoc. reflexivity.
        -- constructor; [exact I|exact Hlogs].
Qed.

Lemma nul_no_digit (k : nat) : no_digit_ahead (replicate k NUL).
Proof. destruct k; done. Qed.

Lemma recv_chunk_short (chunk_id transfer_speed chunk_size : Z) :
  0 < transfer_speed ->
  Receiver.arrays_fit L chunk_size transfer_speed = true ->
  forall (fuel : nat) (pieces : list bytes) (chunk_buffer : bytes) (w : World),
    Forall (fun piece => piece <> []) pieces ->
    Z.of_nat (length chunk_buffer + length (concat pieces)) < chunk_size ->
    (length (concat pieces) < fuel)%nat ->
    exists es,
      Receiver.recv_chunk fuel L pieces chunk_id transfer_speed
        chunk_size chunk_buffer w
        = Some (None, with_events w es)
      /\ only_logs es.
Proof.
  intros Hrate Hfit.
  induction fuel as [|fuel IH]; intros pieces buffer w Hne Hsize Hfuel; [lia|].
  cbn [Receiver.recv_chunk].
  rewrite (proj2 (Z.ltb_lt _ _)) by lia. rewrite Hfit. cbn [negb].
  destruct pieces as [|piece pieces].
  - cbn [Receiver.recv]. unfold bind, logMessage, emit, ret.
    eexists. split; [reflexivity|]. by repeat constructor.
  - apply Forall_cons in Hne as [Hpiece Hne].
    cbn [concat] in Hsize, Hfuel. rewrite length_app in Hsize, Hfuel.
    destruct piece as [|c piece]; [done|].
    unfold Receiver.recv. rewrite (proj2 (Z.leb_gt _ _)) by lia.
    set (n := Z.to_nat transfer_speed).
    set (block := take n (c :: piece)).
    set (more := drop n (c :: piece)).
    assert (Hblock : block ++ more = c :: piece) by apply take_drop.
    assert (Hn : (0 < length block)%nat).
    { unfold block. rewrite length_take. cbn [length]. lia. }
    assert (Hlen : (length block + length more = length (c :: piece))%nat).
    { by rewrite <- length_app, Hblock. }
    rewrite (proj2 (Z.ltb_ge _ _)) by lia.
    unfold bind at 1. unfold logMessage at 1. unfold emit at 1.
    match goal with
    | |- context [with_events w ?l] => set (line := l)
    end.
    destruct more as [|c' more'] eqn:Hmore.
    + destruct (IH pieces (buffer ++ block) (with_events w line)) as (es & Hrun & Hlogs);
        [done|rewrite length_app; cbn [length] in *; lia|cbn [length] in *; lia|].
      rewrite Hrun, with_events_app. eexists. split; [reflexivity|].
      constructor; [exact I|exact Hlogs].
    + destruct (IH ((c' :: more') :: pieces) (buffer ++ block) (with_events w line))
        as (es & Hrun & Hlogs).
      * by constructor.
      * cbn [concat]. rewrite !length_app. lia.
      * cbn [concat]. rewrite length_app. lia.
      * rewrite Hrun, with_events_app. eexists. split; [reflexivity|].
        constructor; [exact I|exact Hlogs].
Qed.

Lemma count_pieces (pieces : list bytes) :
  Forall (fun piece => piece <> []) pieces ->
  (length pieces <= length (concat pieces))%nat.
Proof.
  induction 1 as [|p ps Hp _ IH]; [done|].
  cbn [concat length]. rewrite length_app. destruct p; [done|].
  cbn [length]. lia.
Qed.

Lemma recv_frame_pieces (message : string) (pieces rest : list bytes) (w : World) :
  pieces_of pieces (TCPServer.control_message_buffer message) ->
  exists es,
    Receiver.recv_control_message 1025 L (pieces ++ rest) [] w
      = Some (Some (TCPServer.control_message_buffer message, rest),
              with_events w es)
    /\ only_logs es.
Proof.
  intros [Hcat Hne].
  pose proof (control_message_buffer_length message) as Hlen.
  unfold Constants.CONTROL_MESSAGE_MAX_SIZE in Hlen.
  destruct (recv_control_pieces pieces rest 1025 [] w)
    as (es & Hrun & Hlogs); [done|cbn; lia| | |].
  { cbn [app]. rewrite Hcat. lia. }
  { pose proof (count_pieces pieces Hne) as Hcount. rewrite Hcat in Hcount. lia. }
  cbn [app] in Hrun. rewrite Hcat in Hrun. by exists es.
Qed.

(** Once the frame of a PUT is in, the turn goes on with the loop that
    collects the chunk the frame announces. *)
Lemma receive_frame_put (E : Env) (file_name : string) (chunk : Z) (size : nat)
    (incoming rest : list bytes) (w w1 : World) :
  is_field file_name ->
  is_int chunk ->
  is_int (self_transfer_speed E) ->
  (0 < size)%nat ->
  Z.of_nat size <= stack_room L ->
  Z.of_nat size <= SIZE_MAX ->
  (String.length (TCPServer.control_message_for E file_name chunk size) <= 1023)%nat ->
  Receiver.recv_control_message 1025 L incoming [] w
    = Some (Some (TCPServer.control_message_buffer
                    (TCPServer.control_message_for E file_name chunk size), rest),
            w1) ->
  exists line,
    Receiver.receive_frame L incoming w
    = bind (Receiver.recv_chunk (S (Z.to_nat (Z.of_nat size))) L rest chunk
              (self_transfer_speed E) (Z.of_nat size) [])
           (Receiver.save_received L file_name chunk)
           (with_events w1 [EvLog INFO line]).
Proof.
  intros Hname Hchunk Hrate_int Hpos Hroom Hsize Hfits Hrun.
  set (message := TCPServer.control_message_for E file_name chunk size) in *.
  unfold Receiver.receive_frame.
  change (Z.to_nat Constants.CONTROL_MESSAGE_MAX_SIZE) with 1024%nat.
  rewrite (bind_some _ _ _ _ _ Hrun).
  unfold bind at 1. unfold logMessage at 1. unfold emit at 1.
  assert (Hframe : TCPServer.control_message_buffer message
                   = list_ascii_of_string "PUT"
                     ++ " "%char :: list_ascii_of_string file_name
                     ++ " "%char :: list_ascii_of_string (to_string chunk)
                     ++ " "%char :: list_ascii_of_string
                                      (to_string (self_transfer_speed E))
                     ++ " "%char :: list_ascii_of_string (to_string (Z.of_nat size))
                     ++ replicate (1024 - String.length message) NUL).
  { rewrite control_message_buffer_eq. cbv zeta.
    rewrite Nat.min_l by done.
    rewrite take_ge by (rewrite length_list_ascii_of_string; lia).
    unfold message at 1, TCPServer.control_message_for.
    change ("PUT " +:+ ?x) with ("PUT" +:+ " " +:+ x).
    rewrite !list_ascii_of_string_app, <- !app_assoc, !blank_cons.
    reflexivity. }
  rewrite Hframe.
  fold (stream_at (list_ascii_of_string "PUT"
                   ++ " "%char :: list_ascii_of_string file_name
                   ++ " "%char :: list_ascii_of_string (to_string chunk)
                   ++ " "%char :: list_ascii_of_string
                                    (to_string (self_transfer_speed E))
                   ++ " "%char :: list_ascii_of_string (to_string (Z.of_nat size))
                   ++ replicate (1024 - String.length message) NUL)).
  rewrite extract_word_field; [|by split; [|repeat constructor]|done].
  rewrite extract_word_next by done.
  rewrite extract_int_next by done.
  rewrite extract_int_next by done.
  rewrite extract_size_t_next; [|lia|apply nul_no_digit].
  change (String.eqb "PUT" "PUT") with true. cbv iota.
  rewrite (proj2 (Z.eqb_neq _ _)) by lia. cbn [andb].
  rewrite (proj2 (Z.ltb_ge _ _)) by lia.
  eexists. reflexivity.
Qed.

Lemma arrays_fit_room (size rate : Z) :
  0 < rate -> size + rate <= stack_room L ->
  Receiver.arrays_fit L size rate = true.
Proof.
  intros Hrate Hroom. unfold Receiver.arrays_fit.
  rewrite (proj2 (Z.leb_le _ _)) by lia.
  rewrite (proj2 (Z.eqb_neq _ _)) by lia.
  rewrite (proj2 (Z.leb_le _ _)) by lia.
  by rewrite orb_true_r.
Qed.

Lemma nonempty_length (data : bytes) : data <> [] -> (0 < length data)%nat.
Proof. destruct data; [done|]. cbn. lia. Qed.

(** X21: a frame and its chunk, received in any pieces that keep the two
    apart, are saved as they were sent.  For a control message that fits
    its frame and a chunk that is not empty, sent at a positive rate:
    when the frame arrives in some segments and the chunk in the
    segments after them, one turn of [receiveChunks] reads the file name,
    the chunk number and the size out of the frame, collects the bytes of
    the chunk, and calls [saveChunk] with exactly these; until then it
    has only logged, and it leaves the rest of the stream unread. *)
Theorem frame_received_is_saved
    (E : Env) (file_name : string) (chunk : Z) (data : bytes)
    (header_pieces data_pieces later : list bytes) (w : World) :
  is_field file_name ->
  is_int chunk ->
  is_int (self_transfer_speed E) -> 0 < self_transfer_speed E ->
  data <> [] ->
  Z.of_nat (length data) + self_transfer_speed E <= stack_room L ->
  Z.of_nat (length data) <= SIZE_MAX ->
  (String.length (TCPServer.control_message_for E file_name chunk (length data))
   <= 1023)%nat ->
  pieces_of header_pieces
    (TCPServer.control_message_buffer
       (TCPServer.control_message_for E file_name chunk (length data))) ->
  pieces_of data_pieces data ->
  exists es,
    only_logs es
    /\ Receiver.receive_frame L (header_pieces ++ data_pieces ++ later) w
       = bind (FileManager.saveChunk file_name chunk data)
              (fun _ => ret (Some later)) (with_events w es).
Proof.
  intros Hname Hchunk Hrate_int Hrate Hdata Hroom Hsize Hfits
    Hheader [Hpayload Hpayload_ne].
  pose proof (nonempty_length data Hdata) as Hpos.
  destruct (recv_frame_pieces _ header_pieces (data_pieces ++ later) w Hheader)
    as (es1 & Hrun1 & Hlogs1).
  destruct (receive_frame_put E file_name chunk (length data) _ _ w _
              Hname Hchunk Hrate_int Hpos ltac:(lia) Hsize Hfits Hrun1)
    as (line & ->).
  destruct (recv_chunk_pieces chunk (self_transfer_speed E)
              (Z.of_nat (length data)) later Hrate
              (arrays_fit_room _ _ Hrate Hroom))
    with (fuel := S (Z.to_nat (Z.of_nat (length data)))) (pieces := data_pieces)
         (chunk_buffer := @nil ascii)
         (w := with_events (with_events w es1) [EvLog INFO line])
    as (es2 & Hrun2 & Hlogs2);
    [done|rewrite Hpayload; cbn [length]; lia|rewrite Hpayload; lia|].
  rewrite (bind_some _ _ _ _ _ Hrun2). cbn [app]. rewrite Hpayload.
  unfold Receiver.save_received.
  unfold bind at 1. unfold logMessage at 1. unfold emit at 1.
  rewrite !with_events_app.
  eexists. split; [|reflexivity].
  apply Forall_app. split; [exact Hlogs1|].
  apply Forall_app. split; [by repeat constructor|].
  apply Forall_app. split; [exact Hlogs2|]. by repeat constructor.
Qed.

(** X22: the reader of the control message does not stop at the end of
    the frame.  When the frame arrives in two segments and the second
    one goes on with bytes of the chunk, the control message the loop
    returns holds those bytes too, up to 1024 of the second segment, and
    they are no longer in the stream the chunk is then read from. *)
Theorem control_message_swallows_chunk_bytes
    (first second : bytes) (later : list bytes) (fuel : nat) (w : World) :
  first <> [] -> second <> [] ->
  (length first < 1024)%nat ->
  (1024 <= length first + length second)%nat ->
  (2 <= fuel)%nat ->
  exists es,
    Receiver.recv_control_message fuel L (first :: second :: later) [] w
    = Some (Some (first ++ take 1024 second,
                  match drop 1024 second with
                  | [] => later
                  | more => more :: later
                  end),
            with_events w es)
    /\ only_logs es
    /\ length (first ++ take 1024 second)
       = (length first + Nat.min 1024 (length second))%nat.
Proof.
  intros Hfirst Hsecond Hshort Hlong Hfuel.
  destruct fuel as [|[|fuel]]; [lia|lia|].
  cbn [Receiver.recv_control_message].
  rewrite recv_whole; [|done|unfold Constants.CONTROL_MESSAGE_MAX_SIZE; lia].
  unfold bind at 1. unfold logMessage at 1. unfold emit at 1. cbn [app].
  destruct (Z.ltb_spec (Z.of_nat (length first)) Constants.CONTROL_MESSAGE_MAX_SIZE)
    as [_|Hge]; [|unfold Constants.CONTROL_MESSAGE_MAX_SIZE in Hge; lia].
  unfold Receiver.recv. destruct second as [|c second]; [done|].
  change (Constants.CONTROL_MESSAGE_MAX_SIZE <=? 0) with false. cbv iota.
  change (Z.to_nat Constants.CONTROL_MESSAGE_MAX_SIZE) with 1024%nat.
  unfold bind at 1. unfold logMessage at 1. unfold emit at 1.
  assert (Htake : length (take 1024 (c :: second))
                  = Nat.min 1024 (length (c :: second))) by apply length_take.
  destruct (Z.ltb_spec (Z.of_nat (length (first ++ take 1024 (c :: second))))
                       Constants.CONTROL_MESSAGE_MAX_SIZE) as [Hlt|_].
  { unfold Constants.CONTROL_MESSAGE_MAX_SIZE in Hlt.
    rewrite length_app, Htake in Hlt. lia. }
  unfold ret. rewrite with_events_app. eexists. split; [reflexivity|].
  split; [by repeat constructor|]. by rewrite length_app, Htake.
Qed.

(** X27: a chunk cut short is not saved.  When the frame has arrived
    whole and the connection ends before all the bytes it announces
    have, the turn of [receiveChunks] ends the thread: the bytes
    received are dropped, [saveChunk] is not called, and nothing but
    the log has changed. *)
Theorem truncated_chunk_is_dropped
    (E : Env) (file_name : string) (chunk : Z) (announced : nat)
    (received : bytes) (header_pieces data_pieces : list bytes) (w : World) :
  is_field file_name ->
  is_int chunk ->
  is_int (self_transfer_speed E) -> 0 < self_transfer_speed E ->
  (length received < announced)%nat ->
  Z.of_nat announced + self_transfer_speed E <= stack_room L ->
  Z.of_nat announced <= SIZE_MAX ->
  (String.length (TCPServer.control_message_for E file_name chunk announced)
   <= 1023)%nat ->
  pieces_of header_pieces
    (TCPServer.control_message_buffer
       (TCPServer.control_message_for E file_name chunk announced)) ->
  pieces_of data_pieces received ->
  exists es,
    Receiver.receive_frame L (header_pieces ++ data_pieces) w
      = Some (None, with_events w es)
    /\ only_logs es.
Proof.
  intros Hname Hchunk Hrate_int Hrate Hshort Hroom Hsize Hfits
    Hheader [Hpayload Hpayload_ne].
  destruct (recv_frame_pieces _ header_pieces data_pieces w Hheader)
    as (es1 & Hrun1 & Hlogs1).
  destruct (receive_frame_put E file_name chunk announced _ _ w _
              Hname Hchunk Hrate_int ltac:(lia) ltac:(lia) Hsize Hfits Hrun1)
    as (line & ->).
  destruct (recv_chunk_short chunk (self_transfer_speed E)
              (Z.of_nat announced) Hrate (arrays_fit_room _ _ Hrate Hroom))
    with (fuel := S (Z.to_nat (Z.of_nat announced))) (pieces := data_pieces)
         (chunk_buffer := @nil ascii)
         (w := with_events (with_events w es1) [EvLog INFO line])
    as (es2 & Hrun2 & Hlogs2);
    [done|rewrite Hpayload; cbn [length]; lia|rewrite Hpayload; lia|].
  rewrite (bind_some _ _ _ _ _ Hrun2). unfold Receiver.save_received, ret.
  rewrite !with_events_app. eexists. split; [reflexivity|].
  apply Forall_app. split; [exact Hlogs1|].
  apply Forall_app. split; [by repeat constructor|]. exact Hlogs2.
Qed.

(** X28: what [sendChunks] sends, [receiveChunks] saves.  For a chunk
    that is not empty and a control message that fits its frame: when
    each block the sender's loops send is what one [recv] of the other
    side returns, the turn of [receiveChunks] calls [saveChunk] with the
    file name and the chunk number of the request and the very bytes of
    the sender's artifact. *)
Theorem chunk_sent_is_chunk_saved
    (E : Env) (d : PeerInfo) (file_name : string) (chunk : Z) (data : bytes)
    (sending receiving : World) (later : list bytes) :
  0 < self_transfer_speed E ->
  is_int (self_transfer_speed E) ->
  socket_ok E = true ->
  connect_ok E (peer_ip d) (peer_port d) = true ->
  contents (fs sending)
    !! FileManager.getChunkPath (file_manager sending) file_name chunk = Some data ->
  is_field file_name ->
  is_int chunk ->
  data <> [] ->
  Z.of_nat (length data) + self_transfer_speed E <= stack_room L ->
  Z.of_nat (length data) <= SIZE_MAX ->
  (String.length (TCPServer.control_message_for E file_name chunk (length data))
   <= 1023)%nat ->
  exists sent logged,
    TCPServer.sendChunks E file_name [chunk] d sending
      = Some (tt, with_events sending sent)
    /\ only_logs logged
    /\ Receiver.receive_frame L (tcp_blocks sent ++ later) receiving
       = bind (FileManager.saveChunk file_name chunk data)
              (fun _ => ret (Some later)) (with_events receiving logged).
Proof.
  intros Hrate Hrate_int Hsock Hconn Hdata Hname Hchunk Hne Hroom Hsize Hfits.
  pose proof (nonempty_length data Hne) as Hpos.
  destruct (send_chunk_blocks E d file_name chunk data sending Hrate Hrate_int Hdata)
    as (sent & header & payload & Hrun & Hblocks & Hcat1 & Hcat2 & Hall & _).
  assert (Hnonempty : Forall (fun piece : bytes => piece <> []) (header ++ payload)).
  { eapply Forall_impl; [exact Hall|]. intros b [Hb _] ->. cbn in Hb. lia. }
  apply Forall_app in Hnonempty as [Hheader_ne Hpayload_ne].
  exists sent. rewrite Hblocks, <- app_assoc.
  destruct (recv_frame_pieces _ header (payload ++ later) receiving
              (conj Hcat1 Hheader_ne)) as (es1 & Hrun1 & Hlogs1).
  destruct (receive_frame_put E file_name chunk (length data) _ _ receiving _
              Hname Hchunk Hrate_int Hpos ltac:(lia) Hsize Hfits Hrun1)
    as (line & ->).
  destruct (recv_chunk_pieces chunk (self_transfer_speed E)
              (Z.of_nat (length data)) later Hrate
              (arrays_fit_room _ _ Hrate Hroom))
    with (fuel := S (Z.to_nat (Z.of_nat (length data)))) (pieces := payload)
         (chunk_buffer := @nil ascii)
         (w := with_events (with_events receiving es1) [EvLog INFO line])
    as (es2 & Hrun2 & Hlogs2);
    [done|rewrite Hcat2; cbn [length]; lia|rewrite Hcat2; lia|].
  rewrite (bind_some _ _ _ _ _ Hrun2). cbn [app]. rewrite Hcat2.
  unfold Receiver.save_received.
  unfold bind at 1. unfold logMessage at 1. unfold emit at 1.
  rewrite !with_events_app.
  eexists. split; [|split; [|reflexivity]].
  - unfold TCPServer.sendChunks. rewrite Hsock, Hconn. cbn [negb for_each].
    rewrite (bind_some _ _ _ _ _ Hrun). reflexivity.
  - apply Forall_app. split; [exact Hlogs1|].
    apply Forall_app. split; [by repeat constructor|].
    apply Forall_app. split; [exact Hlogs2|]. by repeat constructor.
Qed.

End Receiving.
(* ===================================================================== *)
(** * A DISCOVERY cut short *)
(* ===================================================================== *)

(** X23: a DISCOVERY without its origin field ends the handler without a
    result.  When the text stops after the TTL, the extraction of the
    origin finds nothing, [find(':')] finds no colon in the empty string,
    and [std::stoi] of the empty string throws; nothing in the handler, or
    in the thread that runs it, catches the exception. *)
Theorem discovery_without_origin_has_no_result
    (E : Env) (U : Indeterminate) (file_name : string) (total_chunks ttl : Z)
    (sender : PeerInfo) (w : World) :
  is_field file_name -> is_int total_chunks -> is_int ttl ->
  Wire.parse U ("DISCOVERY " +:+ file_name +:+ " " +:+ to_string total_chunks
                +:+ " " +:+ to_string ttl)
  = DISCOVERY file_name total_chunks ttl EmptyString
  /\ Wire.processMessage E U
       ("DISCOVERY " +:+ file_name +:+ " " +:+ to_string total_chunks
        +:+ " " +:+ to_string ttl) sender w = None.
Proof.
  intros Hname Htotal Httl.
  assert (Hparse : Wire.parse U ("DISCOVERY " +:+ file_name +:+ " "
                                 +:+ to_string total_chunks +:+ " " +:+ to_string ttl)
                   = DISCOVERY file_name total_chunks ttl EmptyString).
  { unfold Wire.parse, Wire.stringstream.
    change ("DISCOVERY " +:+ ?x) with ("DISCOVERY" +:+ " " +:+ x).
    rewrite !list_ascii_of_string_app, <- ?app_assoc, !blank_cons.
    rewrite <- (app_nil_r (list_ascii_of_string (to_string ttl))).
    fold (stream_at (list_ascii_of_string "DISCOVERY"
                     ++ " "%char :: list_ascii_of_string file_name
                     ++ " "%char :: list_ascii_of_string (to_string total_chunks)
                     ++ " "%char :: list_ascii_of_string (to_string ttl) ++ [])).
    rewrite extract_word_field; [|by split; [|repeat constructor]|done].
    change (String.eqb "DISCOVERY" "DISCOVERY") with true. cbv iota.
    rewrite extract_word_next by done.
    rewrite extract_int_next by done.
    rewrite extract_int_next by done.
    reflexivity. }
  split; [exact Hparse|].
  unfold Wire.processMessage. rewrite Hparse. reflexivity.
Qed.

(* ===================================================================== *)
(** * The last chunk in *)
(* ===================================================================== *)

Lemma to_string_inj (a b : Z) : to_string a = to_string b -> a = b.
Proof.
  intros Heq.
  destruct (read_to_string a [] I) as (_ & _ & cs & count & Hsign & Hdigits & _).
  destruct (read_to_string b [] I) as (_ & _ & cs' & count' & Hsign' & Hdigits' & _).
  rewrite Heq, Hsign' in Hsign. injection Hsign as Hneg Hcs. subst cs'.
  rewrite Hdigits' in Hdigits. injection Hdigits as Habs _.
  destruct (Z.ltb_spec a 0), (Z.ltb_spec b 0); try discriminate; lia.
Qed.

Lemma string_app_inv_head (s a b : string) : s +:+ a = s +:+ b -> a = b.
Proof.
  induction s as [|c s IH]; [done|].
  rewrite !app_cons_string. intros [= H]. by apply IH.
Qed.

Lemma getChunkPath_inj (f : FileManagerState) (file_name : string) (i j : Z) :
  FileManager.getChunkPath f file_name i = FileManager.getChunkPath f file_name j ->
  i = j.
Proof.
  unfold FileManager.getChunkPath. intros H.
  do 4 apply string_app_inv_head in H. by apply to_string_inj.
Qed.

(** X24: the last chunk in completes the file.  When the chunk saved
    brings the local set to the count of the file, its data is not empty,
    and the artifact of every other chunk can be opened and is not empty,
    [saveChunk] leaves in the assembled file the chunks in the order of
    their numbers, the one just saved among them, reports the success
    once and removes the table of the file. *)
Theorem saveChunk_completes_file
    (file_name : string) (chunk : Z) (data : bytes) (w : World) :
  FileManager.getChunkPath (file_manager w) file_name chunk ∉ no_write (fs w) ->
  output_path w file_name ∉ no_write (fs w) ->
  Z.of_nat (size ({[chunk]} ∪ LocalChunkSet w file_name))
  = to_size_t (total_chunks_of w file_name) ->
  data <> [] ->
  (forall i, 0 <= i < total_chunks_of w file_name -> i <> chunk ->
             chunk_readable w file_name i /\ chunk_bytes w file_name i <> []) ->
  exists w',
    FileManager.saveChunk file_name chunk data w = Some (tt, w')
    /\ contents (fs w') !! output_path w file_name
       = Some (flat_map (fun i => if decide (i = chunk) then data
                                  else chunk_bytes w file_name i)
                        (FileManager.chunk_indices (total_chunks_of w file_name)))
    /\ chunk_location_info (file_manager w') !! file_name = None
    /\ trace w' = trace w ++ [EvSuccess file_name (peer_id (file_manager w))]
    /\ LocalChunkSet w' file_name = {[chunk]} ∪ LocalChunkSet w file_name.
Proof.
  intros Hpath Hout Hcount Hdata Hothers.
  rewrite (saveChunk_writable _ _ _ _ Hpath).
  set (w0 := chunk_saved w file_name chunk data).
  assert (Hset0 : LocalChunkSet w0 file_name = {[chunk]} ∪ LocalChunkSet w file_name).
  { unfold LocalChunkSet at 1.
    cbn [w0 chunk_saved file_manager FileManager.with_local_chunks local_chunks].
    by rewrite lookup_insert_eq. }
  assert (Htotal0 : total_chunks_of w0 file_name = total_chunks_of w file_name)
    by reflexivity.
  assert (Hbytes0 : forall i,
             contents (fs w0) !! FileManager.getChunkPath (file_manager w0) file_name i
             = if decide (i = chunk) then Some data
               else contents (fs w) !! FileManager.getChunkPath (file_manager w) file_name i).
  { intros i. cbn [w0 chunk_saved fs contents].
    change (FileManager.getChunkPath (file_manager (chunk_saved w file_name chunk data))
              file_name i)
      with (FileManager.getChunkPath (file_manager w) file_name i).
    change (FileManager.getChunkPath
              (FileManager.with_local_chunks_mutex (file_manager w)
                 ({[file_name]} ∪ local_chunks_mutex (file_manager w))) file_name chunk)
      with (FileManager.getChunkPath (file_manager w) file_name chunk).
    destruct (decide (i = chunk)) as [->|Hne].
    - by rewrite lookup_insert_eq.
    - rewrite lookup_insert_ne; [done|].
      intros H. apply Hne. symmetry.
      apply (getChunkPath_inj (file_manager w) file_name). exact H. }
  destruct (assembleFile_run file_name w0)
    as (b & w' & Hrun & Hb & Htrue & Hcontents & _ & Hset & _).
  rewrite Htotal0 in Hb, Hcontents.
  assert (b = true) as ->.
  { apply Hb. split; [by rewrite Hset0|].
    apply Forall_forall. intros i Hi. apply elem_of_chunk_indices in Hi.
    unfold chunk_readable. rewrite Hbytes0.
    destruct (decide (i = chunk)); [eauto|]. by apply Hothers. }
  destruct (Htrue eq_refl) as (Hgone & _ & Htr).
  rewrite (bind_some _ _ _ _ _ Hrun). unfold ret.
  exists w'. split; [reflexivity|]. split.
  { change (output_path w0 file_name) with (output_path w file_name) in Hcontents.
    rewrite Hcontents; [|done| |].
    - f_equal. apply flat_map_ext. intros i. unfold chunk_bytes. rewrite Hbytes0.
      by destruct (decide (i = chunk)).
    - exact Hout.
    - apply Forall_forall. intros i Hi. apply elem_of_chunk_indices in Hi.
      unfold chunk_bytes. rewrite Hbytes0.
      destruct (decide (i = chunk)); [done|]. by apply Hothers. }
  split; [exact Hgone|]. split; [exact Htr|]. by rewrite Hset, Hset0.
Qed.
(* ===================================================================== *)
(** * The chunks found at start-up *)
(* ===================================================================== *)

Lemma find_ch_app (file_name rest : string) :
  ch_free file_name ->
  index 0 ".ch" (file_name +:+ ".ch" +:+ rest) = Some (String.length file_name).
Proof.
  unfold ch_free. induction file_name as [|c s IH]; intros Hfree.
  - rewrite app_nil_string, !app_cons_string, app_nil_string.
    cbn [index String.prefix].
    destruct (ascii_dec "." "."); [|done]. destruct (ascii_dec "c" "c"); [|done].
    destruct (ascii_dec "h" "h"); [|done]. by rewrite prefix_nil.
  - rewrite app_cons_string. cbn [index String.length] in *.
    destruct (index 0 ".ch" s) as [n|] eqn:Hs.
    { by destruct (String.prefix ".ch" (String c s)). }
    rewrite IH by done.
    assert (Hprefix : String.prefix ".ch" (String c (s +:+ ".ch" +:+ rest)) = false);
      [|by rewrite Hprefix].
    destruct (String.prefix ".ch" (String c s)) eqn:Hp; [done|]. clear Hfree IH Hs.
    cbn [String.prefix] in *.
    destruct (ascii_dec "." c) as [_|_]; [|done].
    destruct s as [|d s].
    { rewrite app_nil_string, !app_cons_string. cbn [String.prefix].
      by destruct (ascii_dec "c" "."). }
    rewrite app_cons_string. cbn [String.prefix] in *.
    destruct (ascii_dec "c" d) as [_|_]; [|done].
    destruct s as [|x s].
    { rewrite app_nil_string, !app_cons_string. cbn [String.prefix].
      by destruct (ascii_dec "h" "."). }
    rewrite app_cons_string. cbn [String.prefix] in *.
    destruct (ascii_dec "h" x) as [_|_]; [|done]. by rewrite prefix_nil in Hp.
Qed.

Lemma substr_from_app (s t : string) :
  substr_from (String.length s) (s +:+ t) = t.
Proof.
  unfold substr_from. rewrite length_app_string.
  replace (String.length s + String.length t - String.length s)%nat
    with (String.length t) by lia.
  induction s as [|c s IH].
  - rewrite app_nil_string. apply substring_whole.
  - rewrite app_cons_string. cbn [String.length substring]. exact IH.
Qed.

Lemma string_app_assoc (a b c : string) : (a +:+ b) +:+ c = a +:+ b +:+ c.
Proof.
  induction a as [|x a IH]; [done|]. rewrite !app_cons_string. by rewrite IH.
Qed.

(** The name of an artifact is taken apart into the file name and the
    chunk number it was made of. *)
Lemma scan_chunk_file_name (file_name : string) (chunk : Z) (w : World) :
  ch_free file_name -> is_int chunk ->
  Store.scan_entry (chunk_file_name file_name chunk) w
  = Some (Some file_name,
          {| fs := fs w;
             file_manager :=
               FileManager.with_local_chunks (file_manager w)
                 (<[file_name := {[chunk]} ∪ LocalChunkSet w file_name]>
                    (local_chunks (file_manager w)));
             processing_active_map := processing_active_map w;
             trace := trace w |}).
Proof.
  intros Hfree Hint. unfold Store.scan_entry, chunk_file_name.
  rewrite find_ch_app by done. rewrite substring_prefix.
  assert (Hrest : substr_from (String.length file_name + 3)
                    (file_name +:+ ".ch" +:+ to_string chunk) = to_string chunk).
  { rewrite <- string_app_assoc.
    replace (String.length file_name + 3)%nat with (String.length (file_name +:+ ".ch"))
      by (rewrite length_app_string; reflexivity).
    apply substr_from_app. }
  rewrite Hrest, stoi_to_string by done.
  unfold bind at 1. unfold get_fm at 1.
  destruct (subscript ∅ (local_chunks (file_manager w)) file_name) as [chunks lc] eqn:Hsub.
  assert (Hchunks : chunks = LocalChunkSet w file_name).
  { change chunks with (chunks, lc).1. rewrite <- Hsub. apply subscript_fst. }
  assert (Hlc : <[file_name := {[chunk]} ∪ chunks]> lc
                = <[file_name := {[chunk]} ∪ chunks]> (local_chunks (file_manager w))).
  { change lc with (chunks, lc).2. rewrite <- Hsub. apply insert_subscript. }
  rewrite Hlc, Hchunks. reflexivity.
Qed.

Lemma chunk_file_name_inj (f g : string) (c d : Z) :
  ch_free f -> ch_free g ->
  chunk_file_name f c = chunk_file_name g d -> f = g /\ c = d.
Proof.
  intros Hf Hg Heq. unfold chunk_file_name in Heq.
  pose proof (find_ch_app f (to_string c) Hf) as Hpos.
  rewrite Heq, (find_ch_app g (to_string d) Hg) in Hpos.
  injection Hpos as Hlen.
  pose proof (substring_prefix f (".ch" +:+ to_string c)) as Hsub.
  rewrite Heq, <- Hlen, substring_prefix in Hsub. subst g.
  split; [done|]. do 2 apply string_app_inv_head in Heq. by apply to_string_inj.
Qed.

Section Startup.

Lemma scan_entries_run (entries : list string) :
  forall (unique : gset string) (w : World),
    Forall well_named entries ->
    exists unique' w',
      Store.scan_entries entries unique w = Some (unique', w')
      /\ (forall f c, ch_free f -> is_int c ->
            (c ∈ LocalChunkSet w' f
             <-> c ∈ LocalChunkSet w f \/ chunk_file_name f c ∈ entries))
      /\ fs w' = fs w
      /\ trace w' = trace w
      /\ processing_active_map w' = processing_active_map w
      /\ directory (file_manager w') = directory (file_manager w)
      /\ peer_id (file_manager w') = peer_id (file_manager w)
      /\ chunk_location_info (file_manager w')
         = chunk_location_info (file_manager w)
      /\ file_chunks (file_manager w') = file_chunks (file_manager w).
Proof.
  induction entries as [|entry entries IH]; intros unique w Hnamed.
  - exists unique, w. split; [reflexivity|]. split; [|done].
    intros f c _ _. split; [by left|]. intros [?|H]; [done|].
    by apply elem_of_nil in H.
  - apply Forall_cons in Hnamed as [Hentry Hnamed].
    cbn [Store.scan_entries].
    destruct Hentry as [Hfree|(g & d & Hg & Hd & ->)].
    + assert (Hscan : Store.scan_entry entry w = Some (None, w)).
      { unfold Store.scan_entry. unfold ch_free in Hfree. by rewrite Hfree. }
      rewrite (bind_some _ _ _ _ _ Hscan).
      destruct (IH unique w Hnamed) as (unique' & w' & Hrun & Hsets & Hrest).
      exists unique', w'. split; [exact Hrun|]. split; [|exact Hrest].
      intros f c Hf Hc. rewrite (Hsets f c Hf Hc). rewrite elem_of_cons.
      split; [tauto|]. intros [?|[Heq|?]]; [tauto| |tauto].
      exfalso. subst entry. unfold ch_free in Hfree.
      unfold chunk_file_name in Hfree. by rewrite find_ch_app in Hfree.
    + rewrite (bind_some _ _ _ _ _ (scan_chunk_file_name g d w Hg Hd)).
      match goal with
      | |- context [Store.scan_entries entries ?u ?w0] =>
          destruct (IH u w0 Hnamed)
            as (unique' & w' & Hrun & Hsets & Hfs & Htr & Hact & Hdir & Hid & Hinfo & Hfc);
            set (w1 := w0) in *
      end.
      exists unique', w'. split; [exact Hrun|]. split; [|done].
      intros f c Hf Hc. rewrite (Hsets f c Hf Hc). rewrite elem_of_cons.
      assert (Hw1 : c ∈ LocalChunkSet w1 f
                    <-> c ∈ LocalChunkSet w f \/ (f = g /\ c = d)).
      { unfold LocalChunkSet at 1.
        cbn [w1 file_manager FileManager.with_local_chunks local_chunks].
        destruct (decide (f = g)) as [->|Hne].
        - rewrite lookup_insert_eq. cbn [default from_option id].
          rewrite elem_of_union, elem_of_singleton. tauto.
        - rewrite lookup_insert_ne by done. fold (LocalChunkSet w f). tauto. }
      rewrite Hw1. split.
      * intros [[?|[-> ->]]|?]; [tauto| |tauto]. right. by left.
      * intros [?|[Heq|?]]; [tauto| |tauto].
        left. right. by apply chunk_file_name_inj.
Qed.

(** X25: what [saveChunk] left on the disk is found again at start-up.
    When every entry of the directory of the peer is the artifact of a
    chunk (of a file without [.ch] in its name) or has no [.ch] in its
    name, [loadLocalChunks] sets the directory to that of the peer and
    adds to the local sets exactly the chunks whose artifacts, under the
    names [getChunkPath] gives them, are among the entries. *)
Theorem loadLocalChunks_finds_saved_chunks (entries : list string) (w : World) :
  Forall well_named entries ->
  exists w',
    Store.loadLocalChunks true entries w = Some (tt, w')
    /\ directory (file_manager w') = Constants.BASE_PATH +:+ peer_id (file_manager w)
    /\ (forall f c, ch_free f -> is_int c ->
          (c ∈ LocalChunkSet w' f
           <-> c ∈ LocalChunkSet w f \/ chunk_file_name f c ∈ entries))
    /\ (forall f c,
          FileManager.getChunkPath (file_manager w') f c
          = Constants.BASE_PATH +:+ peer_id (file_manager w) +:+ "/"
            +:+ chunk_file_name f c)
    /\ fs w' = fs w
    /\ trace w' = trace w.
Proof.
  intros Hnamed. unfold Store.loadLocalChunks.
  unfold bind at 1. unfold get_fm at 1. unfold bind at 1. unfold put_fm at 1.
  cbn [negb].
  match goal with
  | |- context [bind (Store.scan_entries entries ∅) _ ?w0] =>
      destruct (scan_entries_run entries ∅ w0 Hnamed)
        as (unique & w1 & Hrun & Hsets & Hfs & Htr & _ & Hdir & _)
  end.
  rewrite (bind_some _ _ _ _ _ Hrun). unfold bind, get_fm, put_fm.
  eexists. split; [reflexivity|].
  cbn [file_manager FileManager.with_local_chunks_mutex directory fs trace].
  split; [exact Hdir|]. split; [exact Hsets|].
  split; [|by split].
  intros f c. unfold FileManager.getChunkPath.
  cbn [FileManager.with_local_chunks_mutex directory]. rewrite Hdir.
  cbn [file_manager Store.with_directory directory]. unfold chunk_file_name.
  by rewrite !string_app_assoc.
Qed.

Lemma scan_entries_stray (entries : list string) (entry : string) :
  forall (unique : gset string) (w : World),
    entry ∈ entries -> stray entry ->
    Store.scan_entries entries unique w = None.
Proof.
  induction entries as [|first entries IH]; intros unique w Hin Hstray.
  - by apply elem_of_nil in Hin.
  - cbn [Store.scan_entries]. unfold bind at 1.
    apply elem_of_cons in Hin as [<-|Hin].
    + destruct Hstray as (pos & Hpos & Hnumber).
      unfold Store.scan_entry. by rewrite Hpos, Hnumber.
    + destruct (Store.scan_entry first w) as [[found w1]|]; [|done].
      by apply IH.
Qed.

(** X26: one stray name stops the peer at start-up.  When some entry of
    the directory has [.ch] in its name and no number after the first
    one, [loadLocalChunks] ends in the exception of [std::stoi], whatever
    the other entries are and wherever in the directory it comes. *)
Theorem loadLocalChunks_stray_name_has_no_result
    (ready : bool) (entries : list string) (entry : string) (w : World) :
  entry ∈ entries -> stray entry ->
  Store.loadLocalChunks ready entries w = None.
Proof.
  intros Hin Hstray. unfold Store.loadLocalChunks.
  unfold bind at 1. unfold get_fm at 1. unfold bind at 1. unfold put_fm at 1.
  destruct ready; [|reflexivity]. cbn [negb].
  unfold bind at 1. by rewrite (scan_entries_stray entries entry).
Qed.

End Startup.
(* ===================================================================== *)
(** * The further statements at the sample peers *)
(* ===================================================================== *)

Lemma saveChunk_then_hasChunk_witness :
  exists w1 w2,
    FileManager.saveChunk "book.txt" 1 (list_ascii_of_string "upon") Sample.world
      = Some (tt, w1)
    /\ LocalChunkSet w1 "book.txt" = {[1]} ∪ LocalChunkSet Sample.world "book.txt"
    /\ FileManager.hasChunk "book.txt" 1 w1 = Some (true, w2).
Proof.
  destruct (saveChunk_then_hasChunk "book.txt" 1 (list_ascii_of_string "upon")
              Sample.world) as (w1 & w2 & Hrun & _ & Hset & _ & Hhas).
  - apply not_elem_of_empty.
  - exists w1, w2. split; [exact Hrun|]. split; [exact Hset|exact Hhas].
Defined.

Lemma assembleFile_leaves_partial_output_witness :
  exists w',
    FileManager.assembleFile "book.txt" Scenes.lost_world = Some (false, w')
    /\ contents (fs w') !! "./src/1/book.txt" = Some (list_ascii_of_string "once ").
Proof.
  destruct (assembleFile_leaves_partial_output "book.txt" Scenes.lost_world 1)
    as (w' & Hrun & Hout & _).
  - vm_compute. reflexivity.
  - apply not_elem_of_empty.
  - vm_compute. split; [discriminate|reflexivity].
  - intros i Hi. assert (i = 0) as -> by lia. vm_compute. eauto.
  - intros [data Hdata]. vm_compute in Hdata. discriminate.
  - exists w'. split; [exact Hrun|]. etrans; [exact Hout|].
    vm_compute. reflexivity.
Defined.

Lemma response_in_window_recorded_witness :
  exists w' es,
    UDPServer.processMessage Sample.env (RESPONSE "book.txt" 80 [0; 1; 2])
      Sample.sender Scenes.searching_world = Some (tt, w')
    /\ length (DiscoveryTable w' "book.txt") = 3%nat
    /\ trace w' = es
    /\ only_logs es.
Proof.
  destruct (response_in_window_recorded Sample.env Scenes.searching_world
              "book.txt" 80 [0; 1; 2] Sample.sender)
    as (w' & es & Hrun & Hlen & _ & _ & _ & _ & _ & Htr & Hlogs).
  - reflexivity.
  - repeat constructor; vm_compute; discriminate.
  - vm_compute. reflexivity.
  - exists w', es. split; [exact Hrun|]. split; [exact Hlen|].
    split; [exact Htr|exact Hlogs].
Defined.

Lemma selectPeers_covers_once_witness :
  exists chunks_by_peer,
    FileManager.selectPeersForChunkDownload Sample.env "book.txt" Sample.answered_world
      = Some (chunks_by_peer, table_locked Sample.answered_world "book.txt")
    /\ (forall key, StronglySorted Z.lt (Planner.assigned chunks_by_peer key)).
Proof.
  destruct (selectPeers_covers_once Sample.env Sample.answered_world "book.txt"
              [[Sample.provider_A; Sample.provider_B]])
    as (chunks_by_peer & Hrun & _ & _ & Hsorted).
  - intros l. apply sample_sort_sorts.
  - reflexivity.
  - vm_compute. discriminate.
  - exists chunks_by_peer. split; [exact Hrun|exact Hsorted].
Defined.

Lemma endpoint_text_round_trip_witness :
  UDPServer.split_ip_port "10.0.0.2:5002" = Some ("10.0.0.2"%string, 5002).
Proof.
  apply (endpoint_text_round_trip "10.0.0.2" 5002).
  - reflexivity.
  - vm_compute. split; discriminate.
Defined.


Lemma search_floods_then_waits_witness :
  exists w1 es,
    Peer.discoverAndRequestChunks Sample.env "book.txt" 3 2 Sample.world
      = UDPServer.sendChunkRequestMessage Sample.env "book.txt" w1
    /\ trace w1 = es
    /\ datagrams es
       = [("10.0.0.2", 5002, "DISCOVERY book.txt 3 2 10.0.0.1:5001");
          ("10.0.0.3", 5003, "DISCOVERY book.txt 3 2 10.0.0.1:5001")]
    /\ seconds_slept es = 12
    /\ window_open w1 "book.txt" = false.
Proof.
  destruct (search_floods_then_waits Sample.env Sample.world "book.txt" 3 2)
    as (w1 & es & Hrun & Htr & Hd & _ & Hs & Hclosed & _).
  - vm_compute. discriminate.
  - exists w1, es. split; [exact Hrun|]. split; [exact Htr|].
    split; [rewrite Hd; vm_compute; reflexivity|].
    split; [rewrite Hs; vm_compute; reflexivity|exact Hclosed].
Defined.

Lemma request_round_asks_every_provider_witness :
  exists w' es chunks_by_peer,
    UDPServer.sendChunkRequestMessage Sample.env "book.txt" Sample.answered_world
      = Some (tt, w')
    /\ trace w' = es
    /\ length (datagrams es) = 2%nat
    /\ request_for Sample.env "book.txt" chunks_by_peer Sample.provider_B
       ∈ datagrams es.
Proof.
  destruct (request_round_asks_every_provider Sample.env
              (fun l => proj1 (sample_sort_sorts l))
              Sample.answered_world "book.txt"
              [[Sample.provider_A; Sample.provider_B]])
    as (w' & es & chunks_by_peer & Hrun & _ & Htr & Hd & Hn & _).
  - reflexivity.
  - vm_compute. discriminate.
  - unfold endpoints_plain.
    apply Forall_cons; split; [|by apply Forall_nil].
    apply Forall_cons; split; [|apply Forall_cons; split; [|by apply Forall_nil]];
      (split; [reflexivity|vm_compute; split; discriminate]).
  - exists w', es, chunks_by_peer. split; [exact Hrun|]. split; [exact Htr|].
    split; [rewrite Hn; vm_compute; reflexivity|].
    apply Hd. exists Sample.provider_B.
    split; [|reflexivity]. cbn [concat app].
    apply list_elem_of_further, list_elem_of_here.
Defined.

Lemma request_after_assembly_has_no_result_witness :
  exists w1,
    FileManager.assembleFile "book.txt" Sample.hollow_world = Some (true, w1)
    /\ UDPServer.sendChunkRequestMessage Sample.env "book.txt" w1 = None.
Proof.
  eexists. split; [vm_compute; reflexivity|].
  apply (request_after_assembly_has_no_result Sample.env "book.txt"
           Sample.hollow_world).
  vm_compute. reflexivity.
Defined.

Lemma sendChunks_streams_each_chunk_witness :
  exists es,
    TCPServer.sendChunks Sample.env "book.txt" [7; 0] Sample.sender Sample.serving_world
      = Some (tt, with_events Sample.serving_world es)
    /\ length (concat (tcp_blocks es)) = 1280%nat
    /\ seconds_slept es = 20.
Proof.
  destruct (sendChunks_streams_each_chunk Sample.env Sample.sender "book.txt" [7; 0]
              Sample.serving_world) as (es & Hrun & Hcat & _ & Hs & _).
  - reflexivity.
  - vm_compute. split; discriminate.
  - reflexivity.
  - reflexivity.
  - exists es. split; [exact Hrun|].
    split; [rewrite Hcat; vm_compute; reflexivity|].
    rewrite Hs. vm_compute. reflexivity.
Defined.

Lemma sendChunks_at_rate_zero_witness :
  exists es,
    TCPServer.sendChunks Scenes.idle_env "book.txt" [7; 0] Sample.sender
      Sample.serving_world = Some (tt, with_events Sample.serving_world es)
    /\ tcp_blocks es = []
    /\ length (filter is_success es) = 1%nat.
Proof.
  destruct (sendChunks_at_rate_zero Scenes.idle_env Sample.sender "book.txt" [7; 0]
              Sample.serving_world) as (es & Hrun & Hb & _ & Hn).
  - reflexivity.
  - reflexivity.
  - reflexivity.
  - exists es. split; [exact Hrun|]. split; [exact Hb|].
    rewrite Hn. unfold openable. rewrite !filter_cons, filter_nil.
    rewrite decide_False, decide_True; [reflexivity|vm_compute; eauto|].
    intros [data Hdata]. vm_compute in Hdata. discriminate.
Defined.

Lemma request_from_unreachable_sender_witness :
  exists es,
    UDPServer.processMessage Scenes.cut_off_env (REQUEST "book.txt" 6002 [0])
      Sample.sender Sample.serving_world
      = Some (tt, with_events Sample.serving_world es)
    /\ tcp_blocks es = [].
Proof.
  destruct (request_from_unreachable_sender Scenes.cut_off_env Sample.serving_world
              "book.txt" 6002 [0] Sample.sender) as (es & Hrun & Hb & _).
  - reflexivity.
  - exists es. split; [exact Hrun|exact Hb].
Defined.

Lemma discovery_text_round_trip_witness :
  Wire.parse Scenes.unset "DISCOVERY book.txt 3 2 10.0.0.1:5001"
  = DISCOVERY "book.txt" 3 2 "10.0.0.1:5001".
Proof.
  apply (discovery_text_round_trip Scenes.unset "book.txt" 3 2
           {| peer_ip := "10.0.0.1"; peer_port := 5001 |}).
  - split; [discriminate|repeat constructor].
  - repeat constructor.
  - vm_compute. split; discriminate.
  - vm_compute. split; discriminate.
Defined.

Lemma response_text_round_trip_witness :
  Wire.parse Scenes.unset "RESPONSE book.txt 64 0 2 " = RESPONSE "book.txt" 64 [0; 2].
Proof.
  apply (response_text_round_trip Scenes.unset Sample.env "book.txt" [0; 2]).
  - split; [discriminate|repeat constructor].
  - vm_compute. split; discriminate.
  - repeat constructor; vm_compute; discriminate.
Defined.

Lemma request_text_round_trip_witness :
  Wire.parse Scenes.unset "REQUEST book.txt 6001 1 " = REQUEST "book.txt" 6001 [1].
Proof.
  apply (request_text_round_trip Scenes.unset Sample.env "book.txt" [1]).
  - split; [discriminate|repeat constructor].
  - vm_compute. split; discriminate.
  - repeat constructor; vm_compute; discriminate.
Defined.

Lemma long_chunk_list_overruns_buffer_witness :
  Wire.run_turn Sample.env Scenes.unset
    (list_ascii_of_string
       (UDPServer.buildChunkRequestMessage Sample.env "book.txt" (replicate 512 7)))
    Sample.sender Sample.world = None.
Proof.
  apply (long_chunk_list_overruns_buffer Sample.env Scenes.unset Sample.env "book.txt"
           (replicate 512 7) Sample.sender Sample.world).
  rewrite length_replicate. lia.
Defined.

Lemma searchFile_follows_sidecar_witness :
  FileManager.loadMetadata Sample.env "book.txt" Scenes.sidecar_world
  = Some (("book.txt"%string, 3, 2), Scenes.sidecar_world).
Proof.
  apply (searchFile_follows_sidecar Sample.env Scenes.sidecar_world "book.txt"
           "book.txt" 3 2 ["010"%char] ["010"%char]).
  - reflexivity.
  - repeat constructor.
  - split; [discriminate|repeat constructor].
  - reflexivity.
  - vm_compute. split; discriminate.
  - vm_compute. split; discriminate.
Defined.

Lemma searchFile_negative_count_has_no_result_witness :
  Peer.searchFile Sample.env "book.txt" Scenes.negative_sidecar_world = None.
Proof.
  apply (searchFile_negative_count_has_no_result Sample.env
           Scenes.negative_sidecar_world "book.txt" "book.txt" (-3) 2 [" "%char] []).
  - reflexivity.
  - repeat constructor.
  - split; [discriminate|repeat constructor].
  - exact I.
  - vm_compute. split; discriminate.
  - vm_compute. split; discriminate.
  - lia.
  - discriminate.
  - reflexivity.
Defined.

Lemma search_prepares_table_witness :
  exists w',
    bind (FileManager.initializeFileChunks "book.txt" 3)
         (fun _ => FileManager.initializeChunkLocationInfo "book.txt") Sample.world
      = Some (tt, w')
    /\ chunk_location_info (file_manager w') !! "book.txt" = Some [[]; []; []].
Proof.
  destruct (search_prepares_table Sample.world "book.txt" 3) as (w' & Hrun & Htable & _).
  - lia.
  - exists w'. split; [exact Hrun|exact Htable].
Defined.

Lemma frame_received_is_saved_witness :
  exists es,
    only_logs es
    /\ Receiver.receive_frame Scenes.link
         ([take 1000 Scenes.frame; drop 1000 Scenes.frame]
          ++ [list_ascii_of_string "up"; list_ascii_of_string "on"] ++ [])
         Sample.world
       = bind (FileManager.saveChunk "book.txt" 1 (list_ascii_of_string "upon"))
              (fun _ => ret (Some [])) (with_events Sample.world es).
Proof.
  apply (frame_received_is_saved Scenes.link Sample.env "book.txt" 1
           (list_ascii_of_string "upon")
           [take 1000 Scenes.frame; drop 1000 Scenes.frame]
           [list_ascii_of_string "up"; list_ascii_of_string "on"] [] Sample.world).
  - split; [discriminate|repeat constructor].
  - vm_compute. split; discriminate.
  - vm_compute. split; discriminate.
  - reflexivity.
  - discriminate.
  - vm_compute. discriminate.
  - vm_compute. discriminate.
  - apply Nat.leb_le. vm_compute. reflexivity.
  - split; [apply take_drop|].
    repeat constructor; vm_compute; discriminate.
  - split; [reflexivity|repeat constructor; discriminate].
Defined.

Lemma control_message_swallows_chunk_bytes_witness :
  exists es,
    Receiver.recv_control_message 2 Scenes.link
      [replicate 1000 "A"%char; replicate 100 "B"%char] [] Sample.world
    = Some (Some (replicate 1000 "A"%char ++ replicate 100 "B"%char, []),
            with_events Sample.world es)
    /\ length (replicate 1000 "A"%char ++ replicate 100 "B"%char) = 1100%nat.
Proof.
  destruct (control_message_swallows_chunk_bytes Scenes.link
              (replicate 1000 "A"%char) (replicate 100 "B"%char) [] 2 Sample.world)
    as (es & Hrun & _ & Hlen).
  - discriminate.
  - discriminate.
  - rewrite length_replicate. lia.
  - rewrite !length_replicate. lia.
  - lia.
  - exists es. split; [exact Hrun|]. rewrite !length_app, !length_replicate. reflexivity.
Defined.

Lemma discovery_without_origin_has_no_result_witness :
  Wire.processMessage Sample.env Scenes.unset "DISCOVERY book.txt 3 2" Sample.sender
    Sample.world = None.
Proof.
  apply (discovery_without_origin_has_no_result Sample.env Scenes.unset "book.txt" 3 2
           Sample.sender Sample.world).
  - split; [discriminate|repeat constructor].
  - vm_compute. split; discriminate.
  - vm_compute. split; discriminate.
Defined.

Lemma saveChunk_completes_file_witness :
  exists w',
    FileManager.saveChunk "book.txt" 1 (list_ascii_of_string "upon")
      Scenes.lost_world = Some (tt, w')
    /\ contents (fs w') !! "./src/1/book.txt"
       = Some (list_ascii_of_string "once upon")
    /\ chunk_location_info (file_manager w') !! "book.txt" = None.
Proof.
  destruct (saveChunk_completes_file "book.txt" 1 (list_ascii_of_string "upon")
              Scenes.lost_world) as (w' & Hrun & Hout & Hgone & _).
  - apply not_elem_of_empty.
  - apply not_elem_of_empty.
  - vm_compute. reflexivity.
  - discriminate.
  - intros i Hi Hne. assert (i = 0) as ->.
    { change (total_chunks_of Scenes.lost_world "book.txt") with 2 in Hi. lia. }
    split; [vm_compute; eauto|vm_compute; discriminate].
  - exists w'. split; [exact Hrun|]. split; [|exact Hgone].
    etrans; [exact Hout|]. vm_compute. reflexivity.
Defined.

Lemma loadLocalChunks_finds_saved_chunks_witness :
  exists w',
    Store.loadLocalChunks true Scenes.entries
      {| fs := Sample.disk; file_manager := Sample.newcomer;
         processing_active_map := ∅; trace := [] |} = Some (tt, w')
    /\ directory (file_manager w') = "./src/1"%string
    /\ 2 ∈ LocalChunkSet w' "book.txt".
Proof.
  destruct (loadLocalChunks_finds_saved_chunks Scenes.entries
              {| fs := Sample.disk; file_manager := Sample.newcomer;
                 processing_active_map := ∅; trace := [] |})
    as (w' & Hrun & Hdir & Hsets & _).
  - unfold Scenes.entries. repeat apply Forall_cons_2; [| | |apply Forall_nil_2].
    + right. exists "book.txt"%string, 0.
      split; [reflexivity|]. split; [vm_compute; split; discriminate|reflexivity].
    + left. reflexivity.
    + right. exists "book.txt"%string, 2.
      split; [reflexivity|]. split; [vm_compute; split; discriminate|reflexivity].
  - exists w'. split; [exact Hrun|]. split; [exact Hdir|].
    apply Hsets; [reflexivity|vm_compute; split; discriminate|].
    right. unfold Scenes.entries.
    apply list_elem_of_further, list_elem_of_further, list_elem_of_here.
Defined.

Lemma loadLocalChunks_stray_name_has_no_result_witness :
  Store.loadLocalChunks true ["book.txt.ch0"; "book.changes"]%string Sample.world = None.
Proof.
  apply (loadLocalChunks_stray_name_has_no_result true
           ["book.txt.ch0"; "book.changes"]%string "book.changes" Sample.world).
  - apply list_elem_of_further, list_elem_of_here.
  - exists 4%nat. split; reflexivity.
Defined.

Lemma truncated_chunk_is_dropped_witness :
  exists es,
    Receiver.receive_frame Scenes.link
      ([TCPServer.control_message_buffer
          (TCPServer.control_message_for Sample.env "book.txt" 1 8)]
       ++ [list_ascii_of_string "upon"]) Sample.world
    = Some (None, with_events Sample.world es)
    /\ only_logs es.
Proof.
  apply (truncated_chunk_is_dropped Scenes.link Sample.env "book.txt" 1 8
           (list_ascii_of_string "upon")
           [TCPServer.control_message_buffer
              (TCPServer.control_message_for Sample.env "book.txt" 1 8)]
           [list_ascii_of_string "upon"] Sample.world).
  - split; [discriminate|repeat constructor].
  - vm_compute. split; discriminate.
  - vm_compute. split; discriminate.
  - reflexivity.
  - cbn. lia.
  - vm_compute. discriminate.
  - vm_compute. discriminate.
  - apply Nat.leb_le. vm_compute. reflexivity.
  - split; [cbn [concat]; apply app_nil_r|].
    repeat constructor. vm_compute. discriminate.
  - split; [reflexivity|repeat constructor; discriminate].
Defined.

Lemma chunk_sent_is_chunk_saved_witness :
  exists sent logged,
    TCPServer.sendChunks Sample.env "book.txt" [0] Sample.sender Sample.serving_world
      = Some (tt, with_events Sample.serving_world sent)
    /\ only_logs logged
    /\ Receiver.receive_frame Scenes.link (tcp_blocks sent ++ []) Sample.world
       = bind (FileManager.saveChunk "book.txt" 0 (replicate 256 "x"%char))
              (fun _ => ret (Some [])) (with_events Sample.world logged).
Proof.
  apply (chunk_sent_is_chunk_saved Scenes.link Sample.env Sample.sender "book.txt" 0
           (replicate 256 "x"%char) Sample.serving_world Sample.world []).
  - reflexivity.
  - vm_compute. split; discriminate.
  - reflexivity.
  - reflexivity.
  - reflexivity.
  - split; [discriminate|repeat constructor].
  - vm_compute. split; discriminate.
  - discriminate.
  - vm_compute. discriminate.
  - vm_compute. discriminate.
  - apply Nat.leb_le. vm_compute. reflexivity.
Defined.
